(** * careBT: the tick engine and node state machinery

    A shallow embedding of [carebt/treeNode.py], [carebt/actionNode.py],
    [carebt/controlNode.py] and [carebt/sequenceNode.py], and the properties
    of the behaviour-tree runtime that are stated about them.

    Conventions of the embedding:
    - a Python object is a record, a method is a function from the object
      to the updated object;
    - a method that can raise returns a [result]; the exceptions are the
      ones the interpreter raises for the modelled statements
      ([IndexError], [AttributeError], [re.error]);
    - the parameter slots of a node (the attributes [_x] created for a
      parameter [?x]) live in a finite map from attribute name to value,
      apart from the attributes of the classes themselves: the embedding
      is that of nodes whose parameters are not named like one of those
      ([node_attribute] below), and the properties that depend on it say
      so;
    - a string is a sequence of characters with code points below 256;
    - calls to collaborators that the properties talk about are recorded:
      [Timer.cancel()] in the list [cancelled] of the node, [logger.warn]
      in [log], and the lifecycle calls a composite makes on its children
      in [trace].  Calls to [logger.trace/debug/info] are not modelled,
      nor is the evaluation of their arguments: the debug call after a
      contingency handler reads the status of the child the handler was
      dispatched on, so the embedding is that of handlers that leave this
      child with its instance;
    - the protected methods appear under two spellings in the sources
      ([_tick_child] and [_internal_tick_child], [get_message] and
      [get_contingency_message], ...); both spellings name one function
      here, under the spelling of the file that defines it. *)

From Stdlib Require Import ZArith Ascii String List Lia Bool.
From stdpp Require Import base decidable option list gmap strings.

Local Open Scope string_scope.
Local Open Scope list_scope.
Local Open Scope Z_scope.

(** ** Node status and Python values *)

(** Modelled from the spec: [carebt/nodeStatus.py] is not among the sources;
    the seven mutually exclusive variants are the ones the data model
    lists and the code compares against. *)
Inductive NodeStatus : Type :=
| IDLE | RUNNING | SUSPENDED | SUCCESS | FAILURE | FIXED | ABORTED.

#[export] Instance NodeStatus_eq_dec : EqDecision NodeStatus.
Proof. solve_decision. Defined.

(** The values that parameters carry. *)
Inductive value : Type :=
| VNone
| VBool (b : bool)
| VInt (z : Z)
| VStr (s : string).

#[export] Instance value_eq_dec : EqDecision value.
Proof. solve_decision. Defined.

(** ** Exceptions *)

Inductive exn : Type :=
| IndexError          (* list or string index out of range *)
| AttributeError      (* missing attribute, or attribute access on [None] *)
| ReError.            (* pattern outside the fragment of [re] modelled below *)

Inductive result (A : Type) : Type :=
| Ok (a : A)
| Raise (e : exn).
Arguments Ok {A} a.
Arguments Raise {A} e.

Definition bind {A B : Type} (m : result A) (k : A -> result B) : result B :=
  match m with
  | Ok a => k a
  | Raise e => Raise e
  end.

Notation "'let*' x ':=' m 'in' k" := (bind m (fun x => k))
  (at level 10, x name, m at level 100, k at level 200).
Notation "'let*' ' p ':=' m 'in' k" :=
  (bind m (fun x => match x with p => k end))
  (at level 10, p strict pattern, m at level 100, k at level 200).

Definition from_option {A : Type} (e : exn) (o : option A) : result A :=
  match o with
  | Some a => Ok a
  | None => Raise e
  end.

(** ** TreeNode *)

(** [threading.Timer(timeout_ms/1000, ...)]: what is kept of a timer is its
    interval. *)
Record Timer : Type := mkTimer { interval_ms : Z }.

Record TreeNode : Type := mkTreeNode {
  class_name : string;                 (* self.__class__.__name__ *)
  node_status : NodeStatus;            (* __node_status *)
  contingency_message : string;        (* __contingency_message *)
  in_params : list string;             (* __in_params *)
  out_params : list string;            (* __out_params *)
  timeout_timer : option Timer;        (* __timeout_timer *)
  cancelled : list Timer;              (* the timers cancel() was called on *)
  attrs : gmap string value            (* parameter slots *)
}.

Definition with_status (st : NodeStatus) (n : TreeNode) : TreeNode :=
  mkTreeNode (class_name n) st (contingency_message n) (in_params n)
             (out_params n) (timeout_timer n) (cancelled n) (attrs n).

Definition with_message (m : string) (n : TreeNode) : TreeNode :=
  mkTreeNode (class_name n) (node_status n) m (in_params n)
             (out_params n) (timeout_timer n) (cancelled n) (attrs n).

Definition with_timer (t : option Timer) (c : list Timer) (n : TreeNode)
  : TreeNode :=
  mkTreeNode (class_name n) (node_status n) (contingency_message n)
             (in_params n) (out_params n) t c (attrs n).

Definition with_attrs (a : gmap string value) (n : TreeNode) : TreeNode :=
  mkTreeNode (class_name n) (node_status n) (contingency_message n)
             (in_params n) (out_params n) (timeout_timer n) (cancelled n) a.

(** [p.replace('?', '_', 1)] *)
Fixpoint replace_first (c r : ascii) (s : string) : string :=
  match s with
  | EmptyString => EmptyString
  | String a s' =>
      if Ascii.eqb a c then String r s' else String a (replace_first c r s')
  end.

Definition slot (p : string) : string := replace_first "?" "_" p.

(** [filter(None, names)] keeps the non-empty names; each gets an attribute
    initialised to [None]. *)
Definition create_params (names : list string) (a : gmap string value)
  : gmap string value :=
  fold_left (fun acc p => <[slot p := VNone]> acc)
            (List.filter (fun p => negb (String.eqb p "")) names) a.

(** [TreeNode.__init__]; the declaration string ['?a ?b => ?c'] is taken
    already split into its two lists of names. *)
Definition TreeNode__init__ (cls : string) (ins outs : list string) : TreeNode :=
  mkTreeNode cls IDLE "" ins outs None []
             (create_params outs (create_params ins ∅)).

Definition get_status (n : TreeNode) : NodeStatus := node_status n.

Definition get_contingency_message (n : TreeNode) : string :=
  contingency_message n.

Definition set_contingency_message (m : string) (n : TreeNode) : TreeNode :=
  with_message m n.

Definition set_timeout (timeout : Z) (n : TreeNode) : TreeNode :=
  with_timer (Some (mkTimer timeout)) (cancelled n) n.

Definition cancel_timeout_timer (n : TreeNode) : TreeNode :=
  match timeout_timer n with
  | Some t => with_timer None (t :: cancelled n) n
  | None => n
  end.

Definition set_status (st : NodeStatus) (n : TreeNode) : TreeNode :=
  let n' := with_status st n in
  if bool_decide (st = SUCCESS) || bool_decide (st = FAILURE)
     || bool_decide (st = FIXED) || bool_decide (st = ABORTED)
  then cancel_timeout_timer n'
  else n'.

(** [TreeNode._internal_on_abort], the implementation a subclass inherits
    when it does not override it. *)
Definition TreeNode_internal_on_abort (n : TreeNode) : TreeNode :=
  cancel_timeout_timer n.

(** *** Methods resolved on the class of the object

    [abort], [on_timeout] and the timer callback call
    [self._internal_on_abort()], which subclasses override. *)
Class NodeImpl (A : Type) : Type := {
  tree_node : A -> TreeNode;
  update_tree_node : (TreeNode -> TreeNode) -> A -> A;
  _internal_on_abort : A -> result A
}.

Definition abort {A : Type} `{NodeImpl A} (a : A) : result A :=
  _internal_on_abort a.

(** The default [on_timeout]. *)
Definition on_timeout {A : Type} `{NodeImpl A} (a : A) : result A :=
  let* a' := abort a in
  Ok (update_tree_node (set_contingency_message "TIMEOUT") a').

(** [__internal_on_timeout], the callback the timer runs when it fires. *)
Definition internal_on_timeout {A : Type} `{NodeImpl A} (a : A) : result A :=
  let* a' := (if bool_decide (get_status (tree_node a) = RUNNING)
                 || bool_decide (get_status (tree_node a) = SUSPENDED)
              then on_timeout a
              else Ok a) in
  Ok (update_tree_node cancel_timeout_timer a').

(** A node class that derives from [TreeNode] and keeps its
    [_internal_on_abort]. *)
#[export] Instance TreeNode_impl : NodeImpl TreeNode := {
  tree_node := fun n => n;
  update_tree_node := fun f n => f n;
  _internal_on_abort := fun n => Ok (TreeNode_internal_on_abort n)
}.

(** ** ActionNode *)

(** Time stamps are [datetime] values, counted in microseconds since
    [datetime.min]. *)
Definition datetime_min : Z := 0.

Record ActionNode : Type := mkActionNode {
  action_base : TreeNode;
  throttle_ms : option Z;              (* __throttle_ms *)
  last_ts : Z;                         (* __last_ts *)
  on_tick_calls : list Z               (* the ticks in which on_tick ran,
                                          newest first *)
}.

Definition ActionNode__init__ (cls : string) (ins outs : list string)
  : ActionNode :=
  mkActionNode (set_status IDLE (TreeNode__init__ cls ins outs))
               None datetime_min [].

Definition set_throttle_ms (t : Z) (a : ActionNode) : ActionNode :=
  mkActionNode (action_base a) (Some t) (last_ts a) (on_tick_calls a).

(** *** The elapsed milliseconds

    The difference of two time stamps is a [timedelta], a whole number of
    microseconds.  [total_seconds()] divides it by [10**6] and gives the
    binary64 number nearest to the quotient; the product with 1000 is
    rounded to binary64 again, and [int] truncates towards zero.  A
    positive binary64 number is kept as its significand, of 53 bits, and
    its exponent; no time stamp of [datetime] leaves the range of the
    normal numbers. *)

(** [n / (m * 2^e)] as a fraction. *)
Definition scale2 (n m e : Z) : Z * Z :=
  if 0 <=? e then (n, m * 2 ^ e) else (n * 2 ^ (- e), m).

(** The integer part of the binary logarithm of [n / m], for positive [n]
    and [m]. *)
Definition log2_ratio (n m : Z) : Z :=
  let c := Z.log2 n - Z.log2 m in
  let '(N, D) := scale2 n m c in
  if D <=? N then c else c - 1.

(** [N / D] rounded to the nearest integer, ties to the even one. *)
Definition round_half_even (N D : Z) : Z :=
  let q := N / D in
  let r := N mod D in
  if 2 * r <? D then q
  else if D <? 2 * r then q + 1
  else if Z.even q then q else q + 1.

(** The binary64 number nearest to [n / m], for positive [n] and [m]: the
    pair [(s, e)] stands for [s * 2^e]. *)
Definition binary64 (n m : Z) : Z * Z :=
  let e := log2_ratio n m - 52 in
  let '(N, D) := scale2 n m e in
  (round_half_even N D, e).

(** [timedelta.total_seconds()] of a positive number of microseconds. *)
Definition total_seconds (us : Z) : Z * Z := binary64 us 1000000.

(** [x * k] for a positive float [x] and a positive integer [k]. *)
Definition float_mul_int (x : Z * Z) (k : Z) : Z * Z :=
  let '(N, D) := scale2 (fst x * k) 1 (- snd x) in binary64 N D.

(** The value of a positive float as a fraction. *)
Definition float_value (x : Z * Z) : Z * Z := scale2 (fst x) 1 (- snd x).

(** [int(x)] for a positive float [x]. *)
Definition float_trunc (x : Z * Z) : Z :=
  if 0 <=? snd x then fst x * 2 ^ snd x else fst x / 2 ^ (- snd x).

(** [int((current_ts - last_ts).total_seconds() * 1000)]; the operations
    are symmetric in the sign. *)
Definition elapsed_ms (current_ts last : Z) : Z :=
  let d := current_ts - last in
  if d =? 0 then 0
  else Z.sgn d * float_trunc (float_mul_int (total_seconds (Z.abs d)) 1000).

Section ActionNodeTick.
(** The [on_tick] of the subclass. *)
Variable on_tick : TreeNode -> TreeNode.

(** [ActionNode._on_tick], with the value [datetime.now()] returns. *)
Definition ActionNode_on_tick (current_ts : Z) (a : ActionNode) : ActionNode :=
  if match throttle_ms a with
     | None => true
     | Some t => t <=? elapsed_ms current_ts (last_ts a)
     end
  then
    if bool_decide (get_status (action_base a) = IDLE)
       || bool_decide (get_status (action_base a) = RUNNING)
    then mkActionNode (on_tick (action_base a)) (throttle_ms a)
                      current_ts (current_ts :: on_tick_calls a)
    else a
  else a.

(** The node ticked at each of the given times, in order. *)
Definition tick_at_times (times : list Z) (a : ActionNode) : ActionNode :=
  fold_left (fun acc t => ActionNode_on_tick t acc) times a.
End ActionNodeTick.

(** ** ControlNode *)

(** A node class as a composite uses it: the name, the declared
    parameters, and the hooks the composite calls on an instance.  A hook
    acts on the instance it is called on.  [on_delete] is called on an
    instance that is dropped right after, so only the call is recorded. *)
Record NodeClass : Type := mkNodeClass {
  cls_name : string;                           (* __name__ *)
  cls_in_params : list string;
  cls_out_params : list string;
  cls_on_init : TreeNode -> TreeNode;          (* on_init *)
  cls_on_tick : TreeNode -> TreeNode;          (* _on_tick *)
  cls_on_abort : TreeNode -> TreeNode          (* _internal_on_abort *)
}.

(** [node(bt_runner)] *)
Definition instantiate (c : NodeClass) : TreeNode :=
  set_status IDLE
    (TreeNode__init__ (cls_name c) (cls_in_params c) (cls_out_params c)).

(** Modelled from the spec: [carebt/executionContext.py] is not among the
    sources.  A child descriptor holds the factory (node class), the input
    call-arguments, the output call-arguments and the optional live
    instance.  An input call-argument is a literal or a string that starts
    with the sigil [?]; an output call-argument is the name of a parent
    slot. *)
Record ExecutionContext : Type := mkExecutionContext {
  node : NodeClass;                    (* node, node_as_class *)
  call_in_params : list value;
  call_out_params : list string;
  instance : option TreeNode
}.

Definition with_instance (o : option TreeNode) (ec : ExecutionContext)
  : ExecutionContext :=
  mkExecutionContext (node ec) (call_in_params ec) (call_out_params ec) o.

(** The first component of a registration: a class or a wildcard string. *)
Inductive ClassMatcher : Type :=
| ByName (wildcard : string)
| ByClass (c : NodeClass).

(** [(node_as_class, node_status_list, message, function.__name__)] *)
Record ContingencyHandler : Type := mkContingencyHandler {
  ch_class : ClassMatcher;
  ch_status : list NodeStatus;
  ch_message : string;
  ch_function : string
}.

(** The warnings written to the logger. *)
Inductive Warning : Type :=
| WarnArity (cls : string) (declared provided : nat)
    (* '{} takes {} argument(s), but {} was/were provided' *)
| WarnOutputNotSet (cls : string) (name : string)
    (* '{} output {} is not set' *)
| WarnOutputNotProvided (cls : string) (i : nat).
    (* '{} output {} not provided' *)

(** The calls a composite makes on its children and on itself. *)
Inductive Event : Type :=
| EvCreate (cls : string)           (* node(bt_runner) *)
| EvBindIn (cls : string)           (* _bind_in_params *)
| EvOnInit (cls : string)           (* instance.on_init() *)
| EvTick (cls : string)             (* instance._on_tick() *)
| EvHandler (name : string)         (* exec('self.{}()') *)
| EvBindOut (cls : string)          (* _bind_out_params *)
| EvOnDelete (cls : string)         (* instance.on_delete() *)
| EvChildAbort (cls : string)       (* instance._internal_on_abort() *)
| EvOnAbort.                        (* self.on_abort() *)

#[export] Instance Event_eq_dec : EqDecision Event.
Proof. solve_decision. Defined.

Record ControlNode : Type := mkControlNode {
  base : TreeNode;
  _child_ec_list : list ExecutionContext;
  _child_ptr : nat;
  _contingency_handler_list : list ContingencyHandler;
  _contingency_message : option string;   (* set by SequenceNode, absent
                                             until then *)
  log : list Warning;                     (* oldest first *)
  trace : list Event                      (* oldest first *)
}.

Definition with_base (b : TreeNode) (s : ControlNode) : ControlNode :=
  mkControlNode b (_child_ec_list s) (_child_ptr s)
                (_contingency_handler_list s) (_contingency_message s)
                (log s) (trace s).

Definition with_children (l : list ExecutionContext) (s : ControlNode)
  : ControlNode :=
  mkControlNode (base s) l (_child_ptr s) (_contingency_handler_list s)
                (_contingency_message s) (log s) (trace s).

Definition with_ptr (p : nat) (s : ControlNode) : ControlNode :=
  mkControlNode (base s) (_child_ec_list s) p (_contingency_handler_list s)
                (_contingency_message s) (log s) (trace s).

Definition with_handlers (h : list ContingencyHandler) (s : ControlNode)
  : ControlNode :=
  mkControlNode (base s) (_child_ec_list s) (_child_ptr s) h
                (_contingency_message s) (log s) (trace s).

Definition with_last_message (m : option string) (s : ControlNode)
  : ControlNode :=
  mkControlNode (base s) (_child_ec_list s) (_child_ptr s)
                (_contingency_handler_list s) m (log s) (trace s).

Definition warn (w : Warning) (s : ControlNode) : ControlNode :=
  mkControlNode (base s) (_child_ec_list s) (_child_ptr s)
                (_contingency_handler_list s) (_contingency_message s)
                (log s ++ [w]) (trace s).

Definition emit (e : Event) (s : ControlNode) : ControlNode :=
  mkControlNode (base s) (_child_ec_list s) (_child_ptr s)
                (_contingency_handler_list s) (_contingency_message s)
                (log s) (trace s ++ [e]).

(** [ControlNode.__init__] *)
Definition ControlNode__init__ (cls : string) (ins outs : list string)
  : ControlNode :=
  mkControlNode (set_status IDLE (TreeNode__init__ cls ins outs))
                [] 0%nat [] None [] [].

(** [setattr(self, name, v)] and [getattr(self, name)] on a slot. *)
Definition setattr (name : string) (v : value) (n : TreeNode) : TreeNode :=
  with_attrs (<[name := v]> (attrs n)) n.

Definition getattr (name : string) (n : TreeNode) : result value :=
  from_option AttributeError (attrs n !! name).

(** *** Wildcards *)

(** [wildcard.replace(c, r)] for a one-character [c]. *)
Fixpoint str_replace (c : ascii) (r : string) (s : string) : string :=
  match s with
  | EmptyString => EmptyString
  | String a s' =>
      if Ascii.eqb a c then (r ++ str_replace c r s')%string
      else String a (str_replace c r s')
  end.

(** The compiled patterns that are modelled: a sequence of literal
    characters, [.] and [.*]. *)
Inductive re_token : Type :=
| ReLit (c : ascii)
| ReAny
| ReAnyStar.

(** The characters [re] gives a meaning other than themselves ([.] and the
    [*] after it are handled by [re_compile]). *)
Definition re_special (c : ascii) : bool :=
  existsb (Ascii.eqb c)
    ["\"; "^"; "$"; "*"; "+"; "?"; "{"; "}"; "["; "]"; "("; ")"; "|"]%char.

(** [re.compile] on that fragment; any other pattern is [ReError]. *)
Fixpoint re_compile (p : string) : result (list re_token) :=
  match p with
  | EmptyString => Ok []
  | String c rest =>
      if Ascii.eqb c "." then
        match rest with
        | String "*"%char rest' =>
            let* t := re_compile rest' in Ok (ReAnyStar :: t)
        | _ => let* t := re_compile rest in Ok (ReAny :: t)
        end
      else if re_special c then Raise ReError
      else let* t := re_compile rest in Ok (ReLit c :: t)
  end.

(** [.] matches any character but the newline. *)
Definition re_dot (c : ascii) : bool := negb (Ascii.eqb c "010").

(** [bool(re.match(regex, s))]: the pattern matches at the start of [s];
    what follows the match in [s] is not looked at. *)
Fixpoint re_match (r : list re_token) (s : string) {struct r} : bool :=
  match r with
  | [] => true
  | ReLit c :: r' =>
      match s with
      | String a s' => Ascii.eqb a c && re_match r' s'
      | EmptyString => false
      end
  | ReAny :: r' =>
      match s with
      | String a s' => re_dot a && re_match r' s'
      | EmptyString => false
      end
  | ReAnyStar :: r' =>
      (fix star (s : string) : bool :=
         re_match r' s
         || match s with
            | String a s' => re_dot a && star s'
            | EmptyString => false
            end) s
  end.

(** [__wildcard_to_regex] *)
Definition wildcard_to_regex (wildcard : string) : result (list re_token) :=
  let wildcard := str_replace "?" "." wildcard in
  let wildcard := str_replace "*" ".*" wildcard in
  re_compile wildcard.

(** *** Parameter binding *)

(** The value an input call-argument stands for: a string that starts with
    [?] names a slot of the parent, anything else is passed as it is. *)
Definition resolve_in_param (self : TreeNode) (var : value) : result value :=
  match var with
  | VStr s =>
      match s with
      | EmptyString => Raise IndexError                       (* var[0] *)
      | String c _ =>
          if Ascii.eqb c "?" then getattr (slot s) self else Ok var
      end
  | _ => Ok var
  end.

(** The loop of [_bind_in_params], from position [i] on. *)
Fixpoint bind_in_loop (self : TreeNode) (i : nat) (vars : list value)
    (inst : TreeNode) : result TreeNode :=
  match vars with
  | [] => Ok inst
  | var :: rest =>
      let* v := resolve_in_param self var in
      let* name := from_option IndexError (in_params inst !! i) in
      bind_in_loop self (S i) rest (setattr (slot name) v inst)
  end.

Definition _bind_in_params (self : ControlNode) (child_ec : ExecutionContext)
  : result (ControlNode * ExecutionContext) :=
  let* inst := from_option AttributeError (instance child_ec) in
  let self :=
    if bool_decide (length (call_in_params child_ec) ≠ length (in_params inst))
    then warn (WarnArity (cls_name (node child_ec))
                         (length (in_params inst))
                         (length (call_in_params child_ec))) self
    else self in
  let* inst' := bind_in_loop (base self) 0 (call_in_params child_ec) inst in
  Ok (emit (EvBindIn (cls_name (node child_ec))) self,
      with_instance (Some inst') child_ec).

(** The loop of [_bind_out_params], from position [i] on. *)
Fixpoint bind_out_loop (cls : string) (call_out : list string)
    (inst : TreeNode) (i : nat) (outs : list string) (self : ControlNode)
  : result ControlNode :=
  match outs with
  | [] => Ok self
  | var :: rest =>
      let var := slot var in
      let* v := getattr var inst in
      let self :=
        if bool_decide (v = VNone)
        then warn (WarnOutputNotSet cls (replace_first "_" "?" var)) self
        else match call_out !! i with
             | None => warn (WarnOutputNotProvided cls i) self
             | Some p => with_base (setattr (slot p) v (base self)) self
             end in
      bind_out_loop cls call_out inst (S i) rest self
  end.

Definition _bind_out_params (self : ControlNode) (child_ec : ExecutionContext)
  : result ControlNode :=
  let* inst := from_option AttributeError (instance child_ec) in
  let* self := bind_out_loop (cls_name (node child_ec))
                             (call_out_params child_ec) inst 0
                             (out_params inst) self in
  Ok (emit (EvBindOut (cls_name (node child_ec))) self).

(** *** Ticking a child and dispatching contingency handlers *)

Definition _tick_child (self : ControlNode) (child_ec : ExecutionContext)
  : result (ControlNode * ExecutionContext) :=
  let* inst := from_option AttributeError (instance child_ec) in
  if bool_decide (get_status inst = IDLE)
     || bool_decide (get_status inst = RUNNING)
  then Ok (emit (EvTick (cls_name (node child_ec))) self,
           with_instance (Some (cls_on_tick (node child_ec) inst)) child_ec)
  else Ok (self, child_ec).

Definition matcher_name (m : ClassMatcher) : string :=
  match m with
  | ByName w => w
  | ByClass c => cls_name c
  end.

Section Dispatch.
(** The methods of the composite that [exec('self.{}()')] can reach, by
    name. *)
Variable methods : string -> option (ControlNode -> result ControlNode).

Definition exec_method (name : string) (self : ControlNode)
  : result ControlNode :=
  let* f := from_option AttributeError (methods name) in
  f (emit (EvHandler name) self).

(** Whether a registration applies to the child instance. *)
Definition handler_matches (h : ContingencyHandler) (inst : TreeNode)
  : result bool :=
  let* regexClassName := wildcard_to_regex (matcher_name (ch_class h)) in
  let* regexMessage := wildcard_to_regex (ch_message h) in
  Ok (re_match regexClassName (class_name inst)
      && bool_decide (get_status inst ∈ ch_status h)
      && re_match regexMessage (get_contingency_message inst)).

(** The loop of [_apply_contingencies]; it ends at the first handler that
    is run. *)
Fixpoint apply_contingencies_loop (hs : list ContingencyHandler)
    (inst : TreeNode) (self : ControlNode) : result ControlNode :=
  match hs with
  | [] => Ok self
  | h :: rest =>
      let* hit := handler_matches h inst in
      if hit then exec_method (ch_function h) self
      else apply_contingencies_loop rest inst self
  end.

Definition _apply_contingencies (self : ControlNode)
    (child_ec : ExecutionContext) : result ControlNode :=
  let* inst := from_option AttributeError (instance child_ec) in
  apply_contingencies_loop (_contingency_handler_list self) inst self.
End Dispatch.

Definition attach_contingency_handler (m : ClassMatcher)
    (sts : list NodeStatus) (message function : string) (s : ControlNode)
  : ControlNode :=
  with_handlers
    (_contingency_handler_list s ++ [mkContingencyHandler m sts message function])
    s.

(** [self._child_ec_list[self._child_ptr]] *)
Definition current_child (s : ControlNode) : result ExecutionContext :=
  from_option IndexError (_child_ec_list s !! _child_ptr s).

(** Writing through that reference. *)
Definition update_current_child (ec : ExecutionContext) (s : ControlNode)
  : ControlNode :=
  with_children (<[_child_ptr s := ec]> (_child_ec_list s)) s.

Definition fix_current_child (s : ControlNode) : result ControlNode :=
  let* ec := current_child s in
  let* inst := from_option AttributeError (instance ec) in
  let inst := set_status FIXED inst in
  let inst := set_contingency_message "" inst in
  Ok (update_current_child (with_instance (Some inst) ec) s).

(** ** SequenceNode *)

Definition SequenceNode__init__ := ControlNode__init__.

Definition is_final (st : NodeStatus) : bool :=
  bool_decide (st = SUCCESS) || bool_decide (st = FAILURE)
  || bool_decide (st = ABORTED) || bool_decide (st = FIXED).

(** [if instance is not None: instance.on_delete(); instance = None] on the
    current child. *)
Definition release_current_child (s : ControlNode) : result ControlNode :=
  let* ec := current_child s in
  match instance ec with
  | Some inst =>
      Ok (update_current_child (with_instance None ec)
            (emit (EvOnDelete (cls_name (node ec))) s))
  | None => Ok s
  end.

(** Lines 71-76: create the current child when it has no instance. *)
Definition create_current_child (s : ControlNode) : result ControlNode :=
  let* ec := current_child s in
  match instance ec with
  | Some _ => Ok s
  | None =>
      let ec := with_instance (Some (instantiate (node ec))) ec in
      let s := emit (EvCreate (cls_name (node ec))) s in
      let* '(s, ec) := _bind_in_params s ec in
      let* inst := from_option AttributeError (instance ec) in
      Ok (update_current_child
            (with_instance (Some (cls_on_init (node ec) inst)) ec)
            (emit (EvOnInit (cls_name (node ec))) s))
  end.

(** Line 79. *)
Definition tick_current_child (s : ControlNode) : result ControlNode :=
  let* ec := current_child s in
  let* '(s, ec) := _tick_child s ec in
  Ok (update_current_child ec s).

(** Lines 105-114: release the current child, then move the cursor to the
    next child or, after the last one, finish with SUCCESS. *)
Definition advance (s : ControlNode) : result ControlNode :=
  let* s := release_current_child s in
  if bool_decide (_child_ptr s + 1 < length (_child_ec_list s))%nat
  then Ok (with_ptr (_child_ptr s + 1)%nat s)
  else
    let s := with_base (set_status SUCCESS (base s)) s in
    let* m := from_option AttributeError (_contingency_message s) in
    Ok (with_base (set_contingency_message m (base s)) s).

(** Lines 84-114: how to proceed in the sequence. *)
Definition proceed (s : ControlNode) : result ControlNode :=
  if bool_decide (get_status (base s) = RUNNING) then
    let* ec := current_child s in
    match instance ec with
    | None => Ok s
    | Some inst =>
        let cur_child_state := get_status inst in
        let s :=
          if bool_decide (cur_child_state = FAILURE)
             || bool_decide (cur_child_state = ABORTED)
          then with_base
                 (set_contingency_message (get_contingency_message inst)
                    (set_status cur_child_state (base s))) s
          else s in
        if bool_decide (cur_child_state = SUCCESS)
           || bool_decide (cur_child_state = FIXED)
        then
          let s := with_last_message (Some (get_contingency_message inst)) s in
          let* s := (if bool_decide (cur_child_state ≠ FIXED)
                     then _bind_out_params s ec
                     else Ok s) in
          advance s
        else Ok s
    end
  else Ok s.

(** Lines 116-123. *)
Definition finish (s : ControlNode) : result ControlNode :=
  if is_final (get_status (base s)) then release_current_child s else Ok s.

(** Lines 62-63. *)
Definition start (s : ControlNode) : ControlNode :=
  if bool_decide (get_status (base s) ≠ RUNNING)
  then with_base (set_status RUNNING (base s)) s
  else s.

Section SequenceNode.
Variable methods : string -> option (ControlNode -> result ControlNode).
(** The [on_abort] of the subclass. *)
Variable on_abort : ControlNode -> ControlNode.

(** Line 80. *)
Definition dispatch_current_child (s : ControlNode) : result ControlNode :=
  let* ec := current_child s in
  _apply_contingencies methods s ec.

(** Lines 71-80: the current child is created if need be, ticked, and
    the contingency handlers are dispatched on it. *)
Definition observe_current_child (s : ControlNode) : result ControlNode :=
  let* s := create_current_child s in
  let* s := tick_current_child s in
  dispatch_current_child s.

(** [SequenceNode._internal_on_tick] *)
Definition _internal_on_tick (s : ControlNode) : result ControlNode :=
  let s := start s in
  if bool_decide (length (_child_ec_list s) = 0%nat) then Ok s
  else
    let* s := observe_current_child s in
    let* s := proceed s in
    finish s.

(** The sequence ticked [k] times. *)
Fixpoint tick_times (k : nat) (s : ControlNode) : result ControlNode :=
  match k with
  | O => Ok s
  | S k' => let* s := _internal_on_tick s in tick_times k' s
  end.

(** [SequenceNode._internal_on_abort] *)
Definition SequenceNode_internal_on_abort (s : ControlNode)
  : result ControlNode :=
  let s := with_base (TreeNode_internal_on_abort (base s)) s in
  let* ec := current_child s in
  let* inst := from_option AttributeError (instance ec) in
  let active := bool_decide (get_status inst = RUNNING)
                || bool_decide (get_status inst = SUSPENDED) in
  let s := if active then emit (EvChildAbort (cls_name (node ec))) s
           else s in
  let inst := if active then cls_on_abort (node ec) inst else inst in
  let s := update_current_child (with_instance (Some inst) ec) s in
  let s := with_base (set_status ABORTED (base s)) s in
  let s := with_base
             (set_contingency_message (get_contingency_message inst) (base s))
             s in
  let* s := release_current_child s in
  Ok (on_abort (emit EvOnAbort s)).

#[local] Instance SequenceNode_impl : NodeImpl ControlNode := {
  tree_node := base;
  update_tree_node := fun f s => with_base (f (base s)) s;
  _internal_on_abort := SequenceNode_internal_on_abort
}.
End SequenceNode.

(** The child list is edited with the parsed call parameters of the new
    child ([ExecutionContext(node, params)]). *)
Definition append_child (c : NodeClass) (call_in : list value)
    (call_out : list string) (s : ControlNode) : ControlNode :=
  with_children
    (_child_ec_list s ++ [mkExecutionContext c call_in call_out None]) s.

Definition insert_at {A : Type} (i : nat) (x : A) (l : list A) : list A :=
  take i l ++ x :: drop i l.

Definition insert_child_after_current (c : NodeClass) (call_in : list value)
    (call_out : list string) (s : ControlNode) : result ControlNode :=
  let ec := mkExecutionContext c call_in call_out None in
  if bool_decide (length (_child_ec_list s) ≠ 0%nat) then
    let* cur := current_child s in
    if bool_decide (instance cur = None) && bool_decide (_child_ptr s = 0%nat)
    then Ok (with_children (insert_at 0 ec (_child_ec_list s)) s)
    else Ok (with_children
               (insert_at (_child_ptr s + 1) ec (_child_ec_list s)) s)
  else Ok (with_children (insert_at (_child_ptr s + 1) ec (_child_ec_list s)) s).

Definition remove_all_children (s : ControlNode) : result ControlNode :=
  let* ec := current_child s in
  let* inst := from_option AttributeError (instance ec) in
  Ok (with_ptr 0
        (with_children [] (emit (EvOnDelete (cls_name (node ec))) s))).

(** ** Traces of calls on a node *)

(** The public calls that change the status, the message or the timer of a
    node. *)
Inductive TreeNodeCall : Type :=
| CallSetStatus (st : NodeStatus)
| CallSetContingencyMessage (m : string)
| CallSetTimeout (timeout : Z)
| CallCancelTimeoutTimer.

Definition apply_call (n : TreeNode) (c : TreeNodeCall) : TreeNode :=
  match c with
  | CallSetStatus st => set_status st n
  | CallSetContingencyMessage m => set_contingency_message m n
  | CallSetTimeout t => set_timeout t n
  | CallCancelTimeoutTimer => cancel_timeout_timer n
  end.

Definition run_calls (calls : list TreeNodeCall) (n : TreeNode) : TreeNode :=
  fold_left apply_call calls n.

(** Adjacent entries of a list of time stamps, newest first, are at least
    [T] ms apart on the measure [_on_tick] compares with the throttle. *)
Fixpoint separated (T : Z) (calls : list Z) : bool :=
  match calls with
  | [] => true
  | t2 :: rest =>
      match rest with
      | [] => true
      | t1 :: _ => T <=? elapsed_ms t2 t1
      end && separated T rest
  end.

(** What every tick of an ActionNode with throttle [T] keeps: the throttle,
    the newest recorded call is the one [last_ts] remembers, and the
    recorded calls are separated. *)
Definition throttle_inv (T : Z) (a : ActionNode) : Prop :=
  throttle_ms a = Some T /\
  (on_tick_calls a = [] \/ exists rest, on_tick_calls a = last_ts a :: rest) /\
  separated T (on_tick_calls a) = true.

(** ** Conditions under which binding does not raise *)

(** An input call-argument that [_bind_in_params] can resolve against the
    slots [A] of the parent. *)
Definition in_param_ok (A : gmap string value) (var : value) : bool :=
  match var with
  | VStr EmptyString => false
  | VStr (String c r) =>
      if Ascii.eqb c "?" then bool_decide (is_Some (A !! slot (String c r)))
      else true
  | _ => true
  end.

(** Every declared output of the instance exists as a slot. *)
Definition outputs_present (n : TreeNode) : Prop :=
  Forall (fun o => is_Some (attrs n !! slot o)) (out_params n).

(** ** Example nodes *)

Definition no_methods : string -> option (ControlNode -> result ControlNode) :=
  fun _ => None.

(** An action with one declared input that succeeds when ticked. *)
Definition OneInputAction : NodeClass :=
  mkNodeClass "OneInputAction" ["?a"] []
              (fun n => n) (set_status SUCCESS) (set_status ABORTED).

Definition Parent0 : ControlNode := ControlNode__init__ "Parent" ["?x"] [].

(** [add_child(OneInputAction, '1 2')], the instance just created. *)
Definition two_args_for_one_input : ExecutionContext :=
  mkExecutionContext OneInputAction [VInt 1; VInt 2] []
                     (Some (instantiate OneInputAction)).

(** ** Which handler is dispatched *)

(** The name of the handler that the loop of [_apply_contingencies] runs
    for a child instance, if any. *)
Fixpoint dispatched_handler (hs : list ContingencyHandler) (inst : TreeNode)
  : result (option string) :=
  match hs with
  | [] => Ok None
  | h :: rest =>
      let* hit := handler_matches h inst in
      if hit then Ok (Some (ch_function h)) else dispatched_handler rest inst
  end.

(** The wildcard match as the specification words it: the pattern matches
    the name, with [?] standing for one character and [*] for any
    characters. *)
Fixpoint glob_match (p : string) (s : string) {struct p} : bool :=
  match p with
  | EmptyString =>
      match s with
      | EmptyString => true
      | String _ _ => false
      end
  | String c p' =>
      if Ascii.eqb c "?" then
        match s with
        | String _ s' => glob_match p' s'
        | EmptyString => false
        end
      else if Ascii.eqb c "*" then
        (fix star (s : string) : bool :=
           glob_match p' s
           || match s with
              | String _ s' => star s'
              | EmptyString => false
              end) s
      else
        match s with
        | String a s' => Ascii.eqb a c && glob_match p' s'
        | EmptyString => false
        end
  end.

(** A registration applies to a child, in the words of the specification. *)
Definition spec_handler_matches (h : ContingencyHandler) (inst : TreeNode)
  : bool :=
  glob_match (matcher_name (ch_class h)) (class_name inst)
  && bool_decide (get_status inst ∈ ch_status h)
  && glob_match (ch_message h) (get_contingency_message inst).

(** The first registration that applies, in those words. *)
Definition spec_first_match (hs : list ContingencyHandler) (inst : TreeNode)
  : option string :=
  match List.find (fun h => spec_handler_matches h inst) hs with
  | Some h => Some (ch_function h)
  | None => None
  end.

(** A wildcard made of [?], [*] and characters that [re] takes literally. *)
Definition plain_char (c : ascii) : bool :=
  Ascii.eqb c "?" || Ascii.eqb c "*"
  || negb (Ascii.eqb c "." || re_special c).

Fixpoint plain_wildcard (w : string) : bool :=
  match w with
  | EmptyString => true
  | String c w' => plain_char c && plain_wildcard w'
  end.

Fixpoint no_newline (s : string) : bool :=
  match s with
  | EmptyString => true
  | String a s' => re_dot a && no_newline s'
  end.

(** The compiled form of a plain wildcard. *)
Fixpoint wildcard_tokens (w : string) : list re_token :=
  match w with
  | EmptyString => []
  | String c w' =>
      (if Ascii.eqb c "?" then ReAny
       else if Ascii.eqb c "*" then ReAnyStar
       else ReLit c) :: wildcard_tokens w'
  end.

(** The failing child of the sequence test, and a handler registered for a
    shorter class name and a shorter message. *)
Definition failed_SayHelloAction : TreeNode :=
  set_contingency_message "BOB_IS_NOT_ALLOWED"
    (set_status FAILURE (TreeNode__init__ "SayHelloAction" ["?name"] [])).

Definition handlers_for_SayHello : list ContingencyHandler :=
  [mkContingencyHandler (ByName "SayHello") [FAILURE] "BOB" "handle_bob"].

(** ** Conditions on the children of a sequence *)

Definition is_ok {A : Type} (r : result A) : bool :=
  match r with
  | Ok _ => true
  | Raise _ => false
  end.

(** A registration whose patterns compile and whose status list does not
    contain [st]: it does not apply to a child in status [st]. *)
Definition silent_on (st : NodeStatus) (h : ContingencyHandler) : bool :=
  is_ok (wildcard_to_regex (matcher_name (ch_class h)))
  && is_ok (wildcard_to_regex (ch_message h))
  && negb (bool_decide (st ∈ ch_status h)).

(** A descriptor without instance whose call the parent with slots [A] can
    bind: no more arguments than declared inputs, every argument
    resolvable, and no declared output with an empty name. *)
Definition call_ok (A : gmap string value) (ec : ExecutionContext) : Prop :=
  instance ec = None /\
  (length (call_in_params ec) <= length (cls_in_params (node ec)))%nat /\
  Forall (fun v => in_param_ok A v = true) (call_in_params ec) /\
  Forall (fun o => o <> "") (cls_out_params (node ec)).

(** A class whose instances, once initialised, are ticked, and satisfy [P]
    after one tick. *)
Definition completes_in_one_tick (c : NodeClass) (P : TreeNode -> Prop)
  : Prop :=
  forall n : TreeNode,
    node_status n = IDLE -> outputs_present n ->
    (node_status (cls_on_init c n) = IDLE
     \/ node_status (cls_on_init c n) = RUNNING) /\
    P (cls_on_tick c (cls_on_init c n)).

Definition succeeds (c : NodeClass) : Prop :=
  completes_in_one_tick c
    (fun n => node_status n = SUCCESS /\ outputs_present n).

Definition fails_with (st : NodeStatus) (m : string) (c : NodeClass) : Prop :=
  completes_in_one_tick c
    (fun n => node_status n = st /\ contingency_message n = m).

(** The calls a sequence makes on a child that succeeds in its first tick,
    and on one that fails in it. *)
Definition lifecycle (ec : ExecutionContext) : list Event :=
  let c := cls_name (node ec) in
  [EvCreate c; EvBindIn c; EvOnInit c; EvTick c; EvBindOut c; EvOnDelete c].

Definition failed_lifecycle (ec : ExecutionContext) : list Event :=
  let c := cls_name (node ec) in
  [EvCreate c; EvBindIn c; EvOnInit c; EvTick c; EvOnDelete c].

(** A node of a class that keeps [TreeNode._internal_on_abort], running
    with a timeout of one second. *)
Definition running_plain_node : TreeNode :=
  set_timeout 1000 (set_status RUNNING (TreeNode__init__ "PlainNode" [] [])).

(** A sequence with one child, running with a timeout of one second, whose
    child has not been created yet. *)
Definition sequence_before_first_tick : ControlNode :=
  let s := SequenceNode__init__ "OneChildSequence" ["?x"] [] in
  let s := append_child OneInputAction [VStr "?x"] [] s in
  with_base (set_timeout 1000 (set_status RUNNING (base s))) s.

(** *** Nodes in the style of the test suite *)

(** Succeeds in its first tick. *)
Definition HelloWorldAction : NodeClass :=
  mkNodeClass "HelloWorldAction" [] []
              (fun n => n) (set_status SUCCESS) (set_status ABORTED).

(** Adds its two inputs into its output and succeeds. *)
Definition AddTwoNumbersAction : NodeClass :=
  mkNodeClass "AddTwoNumbersAction" ["?x"; "?y"] ["?z"]
    (fun n => n)
    (fun n =>
       match attrs n !! "_x", attrs n !! "_y" with
       | Some (VInt x), Some (VInt y) =>
           set_status SUCCESS (setattr "_z" (VInt (x + y)) n)
       | _, _ => set_status SUCCESS n
       end)
    (set_status ABORTED).

(** Fails in its first tick with a message. *)
Definition FailingAction (m : string) : NodeClass :=
  mkNodeClass "FailingAction" [] []
    (fun n => n)
    (fun n => set_contingency_message m (set_status FAILURE n))
    (set_status ABORTED).

(** A sequence of three succeeding children, its input [?x] bound to 5. *)
Definition three_children_sequence : ControlNode :=
  let s := SequenceNode__init__ "SimpleSequence" ["?x"] ["?sum"] in
  let s := append_child HelloWorldAction [] [] s in
  let s := append_child OneInputAction [VStr "?x"] [] s in
  let s := append_child AddTwoNumbersAction [VInt 1; VStr "?x"] ["?sum"] s in
  with_base (setattr "_x" (VInt 5) (base s)) s.

(** A sequence whose second child fails. *)
Definition failing_sequence : ControlNode :=
  let s := SequenceNode__init__ "SimpleSequence" [] [] in
  let s := append_child HelloWorldAction [] [] s in
  let s := append_child (FailingAction "BOB_IS_NOT_ALLOWED") [] [] s in
  append_child HelloWorldAction [] [] s.

(** An instance of [AddTwoNumbersAction] after a successful tick. *)
Definition added_instance : TreeNode :=
  cls_on_tick AddTwoNumbersAction
    (setattr "_y" (VInt 2) (setattr "_x" (VInt 1)
       (instantiate AddTwoNumbersAction))).

(** A running sequence whose only child is that instance. *)
Definition sequence_with_added_child : ControlNode :=
  let s := SequenceNode__init__ "AddSequence" [] ["?sum"] in
  let s := with_base (set_status RUNNING (base s)) s in
  with_children
    [mkExecutionContext AddTwoNumbersAction [VInt 1; VInt 2] ["?sum"]
                        (Some added_instance)] s.

(** A running sequence with a timeout whose only child is running. *)
Definition sequence_with_running_child : ControlNode :=
  let s := SequenceNode__init__ "LongRunningSequence" [] [] in
  let s := with_base (set_timeout 1000 (set_status RUNNING (base s))) s in
  with_children
    [mkExecutionContext HelloWorldAction [] []
       (Some (set_status RUNNING (instantiate HelloWorldAction)))] s.

(** A descriptor whose instance left its output unset. *)
Definition unset_output_child : ExecutionContext :=
  mkExecutionContext AddTwoNumbersAction [VInt 1; VInt 2] ["?sum"]
    (Some (set_status SUCCESS (instantiate AddTwoNumbersAction))).

(** The sequence of the handler example: one registration, and its handler,
    which does nothing. *)
Definition sequence_with_bob_handler : ControlNode :=
  let s := SequenceNode__init__ "SimpleSequence" ["?name"] [] in
  let s := with_base (set_status RUNNING (base s)) s in
  let s := with_handlers handlers_for_SayHello s in
  with_children
    [mkExecutionContext
       (mkNodeClass "SayHelloAction" ["?name"] [] (fun n => n)
                    (fun n => n) (set_status ABORTED))
       [VStr "?name"] [] (Some failed_SayHelloAction)] s.

Definition bob_methods (name : string)
  : option (ControlNode -> result ControlNode) :=
  if String.eqb name "handle_bob" then Some (fun s => Ok s) else None.

(** An action throttled to one tick in 100 ms. *)
Definition throttled_action : ActionNode :=
  set_throttle_ms 100 (ActionNode__init__ "ThrottledAction" [] []).


(** ** The declaration string of a node

    [TreeNode.__init__] reads the two lists of names from a string such as
    ['?x ?y => ?z']. *)

(** The characters [str.strip()] removes, among those with a code point
    below 256: the ASCII white space, U+0085 and U+00A0. *)
Definition is_space (c : ascii) : bool :=
  existsb (Ascii.eqb c)
    ["009"; "010"; "011"; "012"; "013"; "028"; "029"; "030"; "031"; " ";
     "133"; "160"]%char.

Fixpoint lstrip (s : string) : string :=
  match s with
  | EmptyString => EmptyString
  | String c r => if is_space c then lstrip r else s
  end.

Fixpoint rstrip (s : string) : string :=
  match s with
  | EmptyString => EmptyString
  | String c r =>
      match rstrip r with
      | EmptyString => if is_space c then EmptyString else String c EmptyString
      | String c' r' => String c (String c' r')
      end
  end.

(** [s.strip()] *)
Definition strip (s : string) : string := rstrip (lstrip s).

(** The string [c] put in front of the first part of a split. *)
Definition cons_to_first (c : ascii) (parts : list string) : list string :=
  match parts with
  | p :: ps => String c p :: ps
  | [] => [String c EmptyString]
  end.

(** [s.split('=>')] *)
Fixpoint split_arrow (s : string) : list string :=
  match s with
  | EmptyString => [EmptyString]
  | String c rest =>
      match rest with
      | String c' rest' =>
          if Ascii.eqb c "=" && Ascii.eqb c' ">"
          then EmptyString :: split_arrow rest'
          else cons_to_first c (split_arrow rest)
      | EmptyString => cons_to_first c (split_arrow rest)
      end
  end.

(** [s.split(' ')] *)
Fixpoint split_space (s : string) : list string :=
  match s with
  | EmptyString => [EmptyString]
  | String c rest =>
      if Ascii.eqb c " " then EmptyString :: split_space rest
      else cons_to_first c (split_space rest)
  end.

(** Lines 47-52 of [TreeNode.__init__]: the lists [__in_params] and
    [__out_params] read from [params]. *)
Definition parse_params (params : option string) : list string * list string :=
  match params with
  | None => ([], [])
  | Some p =>
      let _params := split_arrow p in
      (match _params with
       | p0 :: _ =>
           if (0 <? String.length p0)%nat then split_space (strip p0) else []
       | [] => []
       end,
       match _params with
       | [_; p1] => split_space (strip p1)
       | _ => []
       end)
  end.

(** [TreeNode.__init__] on the declaration string. *)
Definition TreeNode__init__params (cls : string) (params : option string)
  : TreeNode :=
  TreeNode__init__ cls (fst (parse_params params)) (snd (parse_params params)).

(** Names joined by single spaces. *)
Fixpoint join_names (names : list string) : string :=
  match names with
  | [] => EmptyString
  | [p] => p
  | p :: rest => (p ++ " " ++ join_names rest)%string
  end.

(** The declaration string for two lists of names, written as in the
    documentation of the classes: ['?x ?y => ?z']. *)
Definition declaration (ins outs : list string) : string :=
  match outs with
  | [] => join_names ins
  | _ :: _ =>
      match ins with
      | [] => ("=> " ++ join_names outs)%string
      | _ :: _ => (join_names ins ++ " => " ++ join_names outs)%string
      end
  end.

(** A character of a name: an ASCII character that is no white space and
    no [=]. *)
Definition name_char (c : ascii) : bool :=
  (nat_of_ascii c <? 128)%nat && negb (is_space c) && negb (Ascii.eqb c "=").

Fixpoint all_chars (f : ascii -> bool) (s : string) : bool :=
  match s with
  | EmptyString => true
  | String c r => f c && all_chars f r
  end.

(** A name: not empty, made of characters of names. *)
Definition name_ok (p : string) : bool :=
  negb (String.eqb p "") && all_chars name_char p.

(** ** Series of ticks of an action *)

(** Every tick of the series comes at least [T] ms, as [_on_tick] counts
    them, after the one before it, the first one after [last]. *)
Fixpoint spaced (T : Z) (last : Z) (times : list Z) : bool :=
  match times with
  | [] => true
  | t :: rest => (T <=? elapsed_ms t last) && spaced T t rest
  end.

Definition ticks_due (throttle : option Z) (last : Z) (times : list Z) : bool :=
  match throttle with
  | None => true
  | Some T => spaced T last times
  end.

(** The statuses in which a node is ticked. *)
Definition is_active (n : TreeNode) : bool :=
  bool_decide (node_status n = IDLE) || bool_decide (node_status n = RUNNING).

(** ** Patterns without wildcard *)

(** A character that stands for itself in a pattern. *)
Definition literal_char (c : ascii) : bool :=
  negb (Ascii.eqb c "." || re_special c).

(** ** The cursor of a sequence *)

(** What the operations of a sequence keep: the cursor is inside the child
    list, or at 0 when the list is empty, and no child but the one under
    the cursor has an instance. *)
Definition cursor_inv (s : ControlNode) : Prop :=
  ((_child_ptr s < length (_child_ec_list s))%nat
   \/ (_child_ec_list s = [] /\ _child_ptr s = 0%nat)) /\
  forall i ec,
    _child_ec_list s !! i = Some ec -> i <> _child_ptr s ->
    instance ec = None.

(** The child the composite sees after line 79: ticked when it is IDLE or
    RUNNING, as it is otherwise. *)
Definition ticked (c : NodeClass) (inst : TreeNode) : TreeNode :=
  if is_active inst then cls_on_tick c inst else inst.

(** A class whose instances are ticked once initialised and end their first
    tick with the status [st] and the message [m], under the name of the
    class. *)
Definition ends_first_tick_with (st : NodeStatus) (m : string) (c : NodeClass)
  : Prop :=
  forall n : TreeNode,
    class_name n = cls_name c -> node_status n = IDLE ->
    (node_status (cls_on_init c n) = IDLE
     \/ node_status (cls_on_init c n) = RUNNING) /\
    class_name (cls_on_tick c (cls_on_init c n)) = cls_name c /\
    node_status (cls_on_tick c (cls_on_init c n)) = st /\
    contingency_message (cls_on_tick c (cls_on_init c n)) = m.

(** A handler that replaces what is left of the sequence by one child:
    [self.remove_all_children(); self.append_child(c, params)]. *)
Definition replace_children (c : NodeClass) (call_in : list value)
    (call_out : list string) (s : ControlNode) : result ControlNode :=
  let* s := remove_all_children s in
  Ok (append_child c call_in call_out s).

(** A sequence whose first child fails with a message, with a handler
    registered for that message. *)
Definition sequence_with_replacing_handler : ControlNode :=
  let s := SequenceNode__init__ "RecoveringSequence" [] [] in
  let s := append_child (FailingAction "BOB_IS_NOT_ALLOWED") [] [] s in
  let s := append_child HelloWorldAction [] [] s in
  attach_contingency_handler (ByName "Failing*") [FAILURE] "BOB*"
                             "handle_bob" s.

(** The handler replaces the children by [HelloWorldAction]. *)
Definition replacing_methods (name : string)
  : option (ControlNode -> result ControlNode) :=
  if String.eqb name "handle_bob"
  then Some (replace_children HelloWorldAction [] [])
  else None.

(** The handler removes the children and adds none. *)
Definition removing_methods (name : string)
  : option (ControlNode -> result ControlNode) :=
  if String.eqb name "handle_bob" then Some remove_all_children else None.

(** A running sequence whose only child is suspended. *)
Definition sequence_with_suspended_child : ControlNode :=
  let s := SequenceNode__init__ "WaitingSequence" [] [] in
  let s := with_base (set_status RUNNING (base s)) s in
  with_children
    [mkExecutionContext HelloWorldAction [] []
       (Some (set_status SUSPENDED (instantiate HelloWorldAction)))] s.

(** ** Names of parameters and names of attributes

    A parameter [?x] is kept in the attribute [_x] of the node
    ([exec('self._x = None')], [setattr], [getattr]).  The node has other
    attributes: the data attributes its classes set and their methods.  A
    parameter whose slot has the name of one of them is that attribute,
    which the slots of the embedding, a map of their own, do not show. *)

(** The attributes of the classes of the sources besides the parameter
    slots: the data attributes, the private ones under their mangled
    names, and the methods, under every spelling the sources use. *)
Definition node_attributes : list string :=
  [ "bt_runner";
    "_TreeNode__node_status"; "_TreeNode__contingency_message";
    "_TreeNode__params"; "_TreeNode__in_params"; "_TreeNode__out_params";
    "_TreeNode__timeout_timer"; "_TreeNode__internal_on_timeout";
    "_ActionNode__throttle_ms"; "_ActionNode__last_ts"; "_abort_handler";
    "_child_ec_list"; "_child_ptr"; "_contingency_handler_list";
    "_contingency_message"; "_ControlNode__wildcard_to_regex";
    "_abc_impl";
    "_internal_on_tick"; "_internal_on_abort"; "_internal_get_bt_runner";
    "_internal_get_in_params"; "_internal_get_out_params";
    "_internal_bind_in_params"; "_internal_bind_out_params";
    "_internal_tick_child"; "_internal_apply_contingencies";
    "_bind_in_params"; "_bind_out_params"; "_tick_child";
    "_apply_contingencies"; "_on_tick"; "_on_abort";
    "on_init"; "on_tick"; "on_abort"; "on_timeout"; "on_delete";
    "get_logger"; "get_status"; "set_status"; "set_timeout";
    "cancel_timeout_timer"; "get_contingency_message";
    "set_contingency_message"; "get_message"; "set_message";
    "get_in_params"; "get_out_params"; "abort"; "set_throttle_ms";
    "attach_contingency_handler"; "fix_current_child"; "append_child";
    "insert_child_after_current"; "remove_all_children" ].

(** The name of an attribute that every object has ([__class__],
    [__dict__], [__init__], ...) or that the classes of the sources
    define. *)
Definition node_attribute (name : string) : bool :=
  String.prefix "__" name || bool_decide (name ∈ node_attributes).

Definition is_letter (c : ascii) : bool :=
  let n := nat_of_ascii c in
  ((65 <=? n) && (n <=? 90) || (97 <=? n) && (n <=? 122) || (n =? 95))%nat.

Definition is_digit (c : ascii) : bool :=
  let n := nat_of_ascii c in ((48 <=? n) && (n <=? 57))%nat.

Definition python_keywords : list string :=
  [ "False"; "None"; "True"; "and"; "as"; "assert"; "async"; "await";
    "break"; "class"; "continue"; "def"; "del"; "elif"; "else"; "except";
    "finally"; "for"; "from"; "global"; "if"; "import"; "in"; "is";
    "lambda"; "nonlocal"; "not"; "or"; "pass"; "raise"; "return"; "try";
    "while"; "with"; "yield" ].

(** An identifier of ASCII letters, digits and [_] that is no keyword:
    with such a name, [exec('self.{} = None')] assigns the attribute of
    that name. *)
Definition is_identifier (s : string) : bool :=
  match s with
  | EmptyString => false
  | String c r =>
      is_letter c && all_chars (fun a => is_letter a || is_digit a) r
  end
  && negb (bool_decide (s ∈ python_keywords)).

(** A name whose slot is no attribute of the classes. *)
Definition free_name (p : string) : bool := negb (node_attribute (slot p)).

(** A name a class can declare as a parameter. *)
Definition plain_name (p : string) : bool :=
  is_identifier (slot p) && free_name p.

(** An input call-argument that, if it refers to a slot of the parent,
    refers to one that is no attribute of the classes. *)
Definition plain_argument (v : value) : bool :=
  match v with
  | VStr (String c r) => if Ascii.eqb c "?" then free_name (String c r) else true
  | _ => true
  end.

(** A child descriptor all of whose names are plain: the parameters its
    class declares, the parent slots its input arguments refer to and the
    parent slots its output arguments name. *)
Definition plain_descriptor (ec : ExecutionContext) : bool :=
  forallb plain_name (cls_in_params (node ec))
  && forallb plain_name (cls_out_params (node ec))
  && forallb plain_argument (call_in_params ec)
  && forallb free_name (call_out_params ec).

(** Slots none of which has the name of an attribute of the classes. *)
Definition plain_slots (A : gmap string value) : Prop :=
  forall k, node_attribute k = true -> A !! k = None.

(** A registration whose two patterns are in the fragment of [re] that is
    modelled. *)
Definition handler_compiles (h : ContingencyHandler) : bool :=
  is_ok (wildcard_to_regex (matcher_name (ch_class h)))
  && is_ok (wildcard_to_regex (ch_message h)).

(** A sequence all of whose child descriptors are plain and all of whose
    registrations compile. *)
Definition well_named (s : ControlNode) : Prop :=
  Forall (fun ec => plain_descriptor ec = true) (_child_ec_list s) /\
  Forall (fun h => handler_compiles h = true) (_contingency_handler_list s).

(** ** Handlers that change the status of the sequence *)

(** [self.set_status(st)] as the body of a handler. *)
Definition set_own_status (st : NodeStatus) (s : ControlNode)
  : result ControlNode :=
  Ok (with_base (set_status st (base s)) s).

(** A sequence whose only child adds 1 and 2 into [?sum], with a handler
    registered for every child that succeeds. *)
Definition sequence_with_success_handler : ControlNode :=
  let s := SequenceNode__init__ "HandledSequence" [] ["?sum"] in
  let s := append_child AddTwoNumbersAction [VInt 1; VInt 2] ["?sum"] s in
  attach_contingency_handler (ByName "*") [SUCCESS] "*" "on_success" s.

(** The handler sets the status of the sequence to FAILURE. *)
Definition failing_methods (name : string)
  : option (ControlNode -> result ControlNode) :=
  if String.eqb name "on_success" then Some (set_own_status FAILURE)
  else None.

(** The handlers set the status of the sequence to SUSPENDED. *)
Definition suspending_methods (name : string)
  : option (ControlNode -> result ControlNode) :=
  if String.eqb name "on_success" || String.eqb name "handle_bob"
  then Some (set_own_status SUSPENDED)
  else None.

(** An action throttled to 1005 ms whose [on_tick] ran last at one
    second. *)
Definition action_throttled_to_1005 : ActionNode :=
  mkActionNode (set_status RUNNING (TreeNode__init__ "ThrottledAction" [] []))
               (Some 1005) 1000000 [1000000].

(** Two states of a sequence with the same registrations and the same
    child descriptors, the instances apart. *)
Definition same_descriptors (s s' : ControlNode) : Prop :=
  _contingency_handler_list s' = _contingency_handler_list s /\
  map (with_instance None) (_child_ec_list s')
  = map (with_instance None) (_child_ec_list s).

(** * Properties *)

(** ** TreeNode: status and timer *)

Lemma set_status_status (st : NodeStatus) (n : TreeNode) :
  node_status (set_status st n) = st.
Proof.
  unfold set_status, cancel_timeout_timer.
  destruct st; simpl; destruct (timeout_timer n); reflexivity.
Qed.

Lemma set_status_message (st : NodeStatus) (n : TreeNode) :
  contingency_message (set_status st n) = contingency_message n.
Proof.
  unfold set_status, cancel_timeout_timer.
  destruct st; simpl; destruct (timeout_timer n); reflexivity.
Qed.

Lemma set_status_attrs (st : NodeStatus) (n : TreeNode) :
  attrs (set_status st n) = attrs n.
Proof.
  unfold set_status, cancel_timeout_timer.
  destruct st; simpl; destruct (timeout_timer n); reflexivity.
Qed.

Lemma set_status_out_params (st : NodeStatus) (n : TreeNode) :
  out_params (set_status st n) = out_params n.
Proof.
  unfold set_status, cancel_timeout_timer.
  destruct st; simpl; destruct (timeout_timer n); reflexivity.
Qed.

Lemma set_status_in_params (st : NodeStatus) (n : TreeNode) :
  in_params (set_status st n) = in_params n.
Proof.
  unfold set_status, cancel_timeout_timer.
  destruct st; simpl; destruct (timeout_timer n); reflexivity.
Qed.

Lemma cancel_timeout_timer_timer (n : TreeNode) :
  timeout_timer (cancel_timeout_timer n) = None.
Proof.
  unfold cancel_timeout_timer.
  destruct (timeout_timer n) eqn:E; simpl; auto.
Qed.

Lemma cancel_timeout_timer_status (n : TreeNode) :
  node_status (cancel_timeout_timer n) = node_status n.
Proof. unfold cancel_timeout_timer. destruct (timeout_timer n); reflexivity. Qed.

Lemma cancel_timeout_timer_message (n : TreeNode) :
  contingency_message (cancel_timeout_timer n) = contingency_message n.
Proof. unfold cancel_timeout_timer. destruct (timeout_timer n); reflexivity. Qed.

Lemma cancel_timeout_timer_cancelled (n : TreeNode) :
  cancelled (cancel_timeout_timer n)
  = match timeout_timer n with
    | Some t => t :: cancelled n
    | None => cancelled n
    end.
Proof.
  unfold cancel_timeout_timer. destruct (timeout_timer n); reflexivity.
Qed.

(** C6: whatever calls were made on a node before, assigning SUCCESS,
    FAILURE, FIXED or ABORTED with [set_status] calls [cancel()] on the
    pending timer, if there is one, and leaves the node without a timer;
    assigning RUNNING or SUSPENDED (or IDLE) leaves the timer as it is and
    cancels nothing. *)
Theorem set_status_terminal_cancels_timer
    (calls : list TreeNodeCall) (n0 : TreeNode) (st : NodeStatus) :
  let n := run_calls calls n0 in
  node_status (set_status st n) = st /\
  match st with
  | SUCCESS | FAILURE | FIXED | ABORTED =>
      timeout_timer (set_status st n) = None /\
      cancelled (set_status st n)
      = match timeout_timer n with
        | Some t => t :: cancelled n
        | None => cancelled n
        end
  | IDLE | RUNNING | SUSPENDED =>
      timeout_timer (set_status st n) = timeout_timer n /\
      cancelled (set_status st n) = cancelled n
  end.
Proof.
  intros n. split; [apply set_status_status|].
  destruct st; unfold set_status; simpl;
    try (split; reflexivity);
    (split;
     [ apply cancel_timeout_timer_timer
     | rewrite cancel_timeout_timer_cancelled; reflexivity ]).
Qed.

(** ** ActionNode: throttled ticks *)

(** *** The elapsed milliseconds against the exact quotient *)

Lemma round_half_even_bounds (N D : Z) :
  0 < D ->
  2 * N - D <= 2 * round_half_even N D * D <= 2 * N + D.
Proof.
  intros HD. unfold round_half_even.
  pose proof (Z.div_mod N D ltac:(lia)) as E.
  pose proof (Z.mod_pos_bound N D HD) as B.
  destruct (2 * (N mod D) <? D) eqn:E1.
  - apply Z.ltb_lt in E1. nia.
  - apply Z.ltb_ge in E1. destruct (D <? 2 * (N mod D)) eqn:E2.
    + apply Z.ltb_lt in E2. nia.
    + apply Z.ltb_ge in E2. destruct (Z.even (N / D)); nia.
Qed.

Lemma log2_ratio_lower (n m : Z) :
  0 < n -> 0 < m ->
  (0 <= log2_ratio n m -> m * 2 ^ log2_ratio n m <= n) /\
  (log2_ratio n m < 0 -> m <= n * 2 ^ (- log2_ratio n m)).
Proof.
  intros Hn Hm. unfold log2_ratio.
  pose proof (Z.log2_spec n Hn) as [Ln Un].
  pose proof (Z.log2_spec m Hm) as [Lm Um].
  pose proof (Z.log2_nonneg n) as Pn.
  pose proof (Z.log2_nonneg m) as Pm.
  set (a := Z.log2 n) in *. set (b := Z.log2 m) in *.
  unfold scale2.
  destruct (0 <=? a - b) eqn:Ec.
  - apply Z.leb_le in Ec.
    destruct (m * 2 ^ (a - b) <=? n) eqn:Et.
    + apply Z.leb_le in Et. split; [intros _; exact Et | lia].
    + apply Z.leb_gt in Et. split.
      * intros H.
        assert (E : 2 ^ a = 2 ^ (b + 1) * 2 ^ (a - b - 1)).
        { rewrite <- Z.pow_add_r by lia. f_equal. lia. }
        assert (0 < 2 ^ (a - b - 1)) by (apply Z.pow_pos_nonneg; lia).
        nia.
      * intros H. assert (a - b = 0) by lia.
        replace (- (a - b - 1)) with 1 by lia.
        replace a with b in * by lia.
        change (2 ^ 1) with 2. rewrite Z.pow_succ_r in Um by lia. lia.
  - apply Z.leb_gt in Ec.
    destruct (m <=? n * 2 ^ (- (a - b))) eqn:Et.
    + apply Z.leb_le in Et. split; [lia | intros _; exact Et].
    + apply Z.leb_gt in Et. split; [lia|].
      intros _.
      assert (E : 2 ^ (b + 1) = 2 ^ a * 2 ^ (- (a - b - 1))).
      { rewrite <- Z.pow_add_r by lia. f_equal. lia. }
      assert (0 < 2 ^ (- (a - b - 1))) by (apply Z.pow_pos_nonneg; lia).
      nia.
Qed.

Lemma scale2_cases (n m e : Z) :
  (0 <= e /\ scale2 n m e = (n, m * 2 ^ e))
  \/ (e < 0 /\ scale2 n m e = (n * 2 ^ (- e), m)).
Proof.
  unfold scale2. destruct (0 <=? e) eqn:E.
  - left. apply Z.leb_le in E. auto.
  - right. apply Z.leb_gt in E. auto.
Qed.

Lemma binary64_eq (n m : Z) :
  binary64 n m
  = (round_half_even (fst (scale2 n m (log2_ratio n m - 52)))
                     (snd (scale2 n m (log2_ratio n m - 52))),
     log2_ratio n m - 52).
Proof. unfold binary64. destruct (scale2 _ _ _). reflexivity. Qed.

(** The binary64 number nearest to [n / m] differs from it by at most one
    part in [2^53]. *)
Lemma binary64_error (n m : Z) :
  0 < n -> 0 < m ->
  0 < fst (float_value (binary64 n m)) /\
  0 < snd (float_value (binary64 n m)) /\
  fst (float_value (binary64 n m)) * m * 2 ^ 53
  <= n * snd (float_value (binary64 n m)) * (2 ^ 53 + 1) /\
  n * snd (float_value (binary64 n m)) * (2 ^ 53 - 1)
  <= fst (float_value (binary64 n m)) * m * 2 ^ 53.
Proof.
  intros Hn Hm. rewrite binary64_eq. unfold float_value. cbn [fst snd].
  destruct (log2_ratio_lower n m Hn Hm) as [Hpos Hneg].
  set (lg := log2_ratio n m) in *.
  set (A := 2 ^ 53). assert (HA : A = 2 * 2 ^ 52) by reflexivity.
  set (B := 2 ^ 52) in *. assert (HB : 0 < B) by reflexivity.
  destruct (scale2_cases n m (lg - 52)) as [[Ee ->] | [Ee ->]]; cbn [fst snd].
  - assert (Hp : 0 < 2 ^ (lg - 52)) by (apply Z.pow_pos_nonneg; lia).
    assert (Elg : 2 ^ lg = 2 ^ (lg - 52) * B).
    { unfold B. rewrite <- Z.pow_add_r by lia. f_equal. lia. }
    specialize (Hpos ltac:(lia)). rewrite Elg in Hpos.
    pose proof (round_half_even_bounds n (m * 2 ^ (lg - 52)) ltac:(nia)) as R.
    set (s := round_half_even n (m * 2 ^ (lg - 52))) in *.
    set (P := 2 ^ (lg - 52)) in *.
    assert (Hs : 0 < s) by nia.
    destruct (scale2_cases s 1 (- (lg - 52))) as [[Ee' ->] | [Ee' ->]];
      cbn [fst snd].
    + assert (E0 : lg - 52 = 0) by lia.
      assert (P = 1) by (unfold P; rewrite E0; reflexivity).
      rewrite E0. change (2 ^ (- 0)) with 1. nia.
    + replace (- - (lg - 52)) with (lg - 52) by lia. fold P.
      split; [nia|]. split; [lia|]. split; nia.
  - assert (Hp : 0 < 2 ^ (- (lg - 52))) by (apply Z.pow_pos_nonneg; lia).
    assert (Hlow : m * B <= n * 2 ^ (- (lg - 52))).
    { destruct (Z_lt_le_dec lg 0) as [Hl|Hl].
      - specialize (Hneg Hl).
        assert (E : 2 ^ (- (lg - 52)) = 2 ^ (- lg) * B).
        { unfold B. rewrite <- Z.pow_add_r by lia. f_equal. lia. }
        rewrite E. nia.
      - specialize (Hpos Hl).
        assert (E : B = 2 ^ lg * 2 ^ (- (lg - 52))).
        { unfold B. rewrite <- Z.pow_add_r by lia. f_equal. lia. }
        assert (0 < 2 ^ lg) by (apply Z.pow_pos_nonneg; lia).
        rewrite E. nia. }
    pose proof (round_half_even_bounds (n * 2 ^ (- (lg - 52))) m Hm) as R.
    set (s := round_half_even (n * 2 ^ (- (lg - 52))) m) in *.
    set (P := 2 ^ (- (lg - 52))) in *.
    assert (Hs : 0 < s) by nia.
    destruct (scale2_cases s 1 (- (lg - 52))) as [[Ee' ->] | [Ee' ->]];
      cbn [fst snd]; [|lia].
    fold P. split; [nia|]. split; [lia|]. split; nia.
Qed.

Lemma float_trunc_value (x : Z * Z) :
  float_trunc x = fst (float_value x) / snd (float_value x).
Proof.
  unfold float_trunc, float_value.
  destruct (scale2_cases (fst x) 1 (- snd x)) as [[E ->] | [E ->]];
    cbn [fst snd].
  - destruct (0 <=? snd x) eqn:E0.
    + apply Z.leb_le in E0. assert (snd x = 0) as -> by lia.
      cbn. rewrite Z.mul_1_r, Z.div_1_r. reflexivity.
    + rewrite Z.mul_1_l. reflexivity.
  - replace (0 <=? snd x) with true by (symmetry; apply Z.leb_le; lia).
    replace (- - snd x) with (snd x) by lia. rewrite Z.div_1_r. reflexivity.
Qed.

Lemma float_mul_int_eq (x : Z * Z) (k : Z) :
  float_mul_int x k
  = binary64 (fst (float_value x) * k) (snd (float_value x)).
Proof.
  unfold float_mul_int, float_value.
  destruct (scale2_cases (fst x) 1 (- snd x)) as [[E E1] | [E E1]];
    destruct (scale2_cases (fst x * k) 1 (- snd x)) as [[E' E2] | [E' E2]];
    try lia; rewrite E1, E2; cbn [fst snd]; f_equal; ring.
Qed.

(** The elapsed milliseconds the code computes for a positive number [d]
    of microseconds, against the exact quotient. *)
Lemma elapsed_ms_bounds (d : Z) :
  0 < d ->
  exists p q,
    0 < p /\ 0 < q /\ elapsed_ms d 0 = p / q /\
    p * 2 ^ 106 * 1000 <= q * d * (2 ^ 53 + 1) * (2 ^ 53 + 1) /\
    q * d * (2 ^ 53 - 1) * (2 ^ 53 - 1) <= p * 2 ^ 106 * 1000.
Proof.
  intros Hd. unfold elapsed_ms. rewrite Z.sub_0_r.
  replace (d =? 0) with false by (symmetry; apply Z.eqb_neq; lia).
  rewrite Z.sgn_pos, Z.mul_1_l, Z.abs_eq by lia.
  rewrite float_trunc_value, float_mul_int_eq. unfold total_seconds.
  destruct (binary64_error d 1000000 Hd ltac:(lia)) as (Hp1 & Hq1 & U1 & L1).
  set (p1 := fst (float_value (binary64 d 1000000))) in *.
  set (q1 := snd (float_value (binary64 d 1000000))) in *.
  destruct (binary64_error (p1 * 1000) q1 ltac:(lia) Hq1)
    as (Hp2 & Hq2 & U2 & L2).
  set (p2 := fst (float_value (binary64 (p1 * 1000) q1))) in *.
  set (q2 := snd (float_value (binary64 (p1 * 1000) q1))) in *.
  exists p2, q2. split; [exact Hp2|]. split; [exact Hq2|].
  split; [reflexivity|].
  change (2 ^ 106) with (2 ^ 53 * 2 ^ 53).
  set (A := 2 ^ 53) in *. assert (HA : 1 < A) by reflexivity.
  clearbody A p1 q1 p2 q2.
  split.
  - (* p2 q1 A <= 1000 p1 q2 (A+1);  p1 10^6 A <= d q1 (A+1) *)
    assert (H1 : p2 * q1 * A * (1000000 * A)
                 <= p1 * 1000 * q2 * (A + 1) * (1000000 * A)).
    { apply Z.mul_le_mono_nonneg_r; lia. }
    assert (H2 : p1 * 1000000 * A * (1000 * q2 * (A + 1))
                 <= d * q1 * (A + 1) * (1000 * q2 * (A + 1))).
    { apply Z.mul_le_mono_nonneg_r; nia. }
    assert (H3 : q1 * (p2 * A * A * 1000000)
                 <= q1 * (q2 * d * (A + 1) * (A + 1) * 1000)) by lia.
    apply Z.mul_le_mono_pos_l in H3; lia.
  - assert (H1 : p1 * 1000 * q2 * (A - 1) * (1000000 * A)
                 <= p2 * q1 * A * (1000000 * A)).
    { apply Z.mul_le_mono_nonneg_r; lia. }
    assert (H2 : d * q1 * (A - 1) * (1000 * q2 * (A - 1))
                 <= p1 * 1000000 * A * (1000 * q2 * (A - 1))).
    { apply Z.mul_le_mono_nonneg_r; nia. }
    assert (H3 : q1 * (q2 * d * (A - 1) * (A - 1) * 1000)
                 <= q1 * (p2 * A * A * 1000000)) by lia.
    apply Z.mul_le_mono_pos_l in H3; lia.
Qed.

(** Fewer than [T] ms elapsed: the code computes fewer than [T]. *)
Lemma elapsed_ms_upper (T d : Z) :
  0 < T <= 2 ^ 40 -> d < 1000 * T -> elapsed_ms d 0 < T.
Proof.
  intros HT Hd.
  destruct (Z_lt_le_dec 0 d) as [Hpos|Hneg].
  2:{ unfold elapsed_ms. rewrite Z.sub_0_r.
      destruct (d =? 0) eqn:E; [lia|]. apply Z.eqb_neq in E.
      rewrite Z.sgn_neg by lia.
      assert (0 <= float_trunc
                     (float_mul_int (total_seconds (Z.abs d)) 1000)); [|lia].
      destruct (elapsed_ms_bounds (Z.abs d) ltac:(lia))
        as (p & q & Hp & Hq & E' & _).
      unfold elapsed_ms in E'. rewrite Z.sub_0_r in E'.
      replace (Z.abs d =? 0) with false in E'
        by (symmetry; apply Z.eqb_neq; lia).
      rewrite Z.sgn_pos, Z.mul_1_l, Z.abs_eq in E' by lia.
      rewrite E'. apply Z.div_pos; lia. }
  destruct (elapsed_ms_bounds d Hpos) as (p & q & Hp & Hq & -> & U & _).
  apply Z.div_lt_upper_bound; [exact Hq|].
  change (2 ^ 106) with (2 ^ 53 * 2 ^ 53) in U.
  set (A := 2 ^ 53) in *.
  assert (HA : 1000 * T * (2 * A + 1) < (A + 1) * (A + 1)).
  { assert (1000 * T * (2 * A + 1) <= 1000 * 2 ^ 40 * (2 * A + 1)) by nia.
    assert (1000 * 2 ^ 40 * (2 * A + 1) < (A + 1) * (A + 1)) by reflexivity.
    lia. }
  assert (HA0 : 0 < A) by reflexivity. clearbody A.
  (* p A^2 1000 <= q d (A+1)^2 <= q (1000 T - 1) (A+1)^2 < q T A^2 1000 *)
  assert (H1 : q * d * ((A + 1) * (A + 1))
               <= q * (1000 * T - 1) * ((A + 1) * (A + 1))).
  { apply Z.mul_le_mono_nonneg_r; nia. }
  assert (H2 : (1000 * T - 1) * ((A + 1) * (A + 1)) < 1000 * T * (A * A))
    by nia.
  assert (H3 : q * ((1000 * T - 1) * ((A + 1) * (A + 1)))
               < q * (1000 * T * (A * A))).
  { apply Z.mul_lt_mono_pos_l; lia. }
  assert (H4 : (A * A * 1000) * p < (A * A * 1000) * (q * T)) by lia.
  apply Z.mul_lt_mono_pos_l in H4; lia.
Qed.

(** At least [T + 1] ms elapsed: the code computes at least [T]. *)
Lemma elapsed_ms_lower (T d : Z) :
  0 < T <= 2 ^ 40 -> 1000 * (T + 1) <= d -> T <= elapsed_ms d 0.
Proof.
  intros HT Hd.
  destruct (elapsed_ms_bounds d ltac:(lia)) as (p & q & Hp & Hq & -> & _ & L).
  apply Z.div_le_lower_bound; [exact Hq|].
  change (2 ^ 106) with (2 ^ 53 * 2 ^ 53) in L.
  set (A := 2 ^ 53) in *.
  assert (HA : T * (2 * A - 1) <= (A - 1) * (A - 1)).
  { assert (T * (2 * A - 1) <= 2 ^ 40 * (2 * A - 1)) by nia.
    assert (2 ^ 40 * (2 * A - 1) <= (A - 1) * (A - 1)) by (intros H'; discriminate H').
    lia. }
  assert (HA0 : 1 < A) by reflexivity. clearbody A.
  assert (H1 : q * (1000 * (T + 1)) * ((A - 1) * (A - 1))
               <= q * d * ((A - 1) * (A - 1))).
  { apply Z.mul_le_mono_nonneg_r; nia. }
  assert (H2 : T * (A * A) <= (T + 1) * ((A - 1) * (A - 1))) by nia.
  assert (H3 : q * (T * (A * A)) <= q * ((T + 1) * ((A - 1) * (A - 1)))).
  { apply Z.mul_le_mono_nonneg_l; lia. }
  assert (H4 : (A * A * 1000) * (q * T) <= (A * A * 1000) * p) by lia.
  apply Z.mul_le_mono_pos_l in H4; lia.
Qed.

Lemma elapsed_ms_shift (t2 t1 : Z) : elapsed_ms t2 t1 = elapsed_ms (t2 - t1) 0.
Proof. unfold elapsed_ms. rewrite Z.sub_0_r. reflexivity. Qed.

Lemma elapsed_ms_lower_bound (T t2 t1 : Z) :
  0 < T <= 2 ^ 40 -> T <= elapsed_ms t2 t1 -> 1000 * T <= t2 - t1.
Proof.
  intros HT H. destruct (Z_lt_le_dec (t2 - t1) (1000 * T)) as [Hlt|Hle];
    [|exact Hle].
  pose proof (elapsed_ms_upper T (t2 - t1) HT Hlt) as Hu.
  rewrite <- elapsed_ms_shift in Hu. lia.
Qed.

Section ThrottleInvariant.
Variable on_tick : TreeNode -> TreeNode.
Variable T : Z.

Lemma ActionNode_on_tick_inv (now : Z) (a : ActionNode) :
  throttle_inv T a -> throttle_inv T (ActionNode_on_tick on_tick now a).
Proof.
  intros (Ht & Hl & Hs). unfold ActionNode_on_tick. rewrite Ht.
  destruct (T <=? elapsed_ms now (last_ts a)) eqn:E;
    [|unfold throttle_inv; auto].
  destruct (bool_decide (get_status (action_base a) = IDLE)
            || bool_decide (get_status (action_base a) = RUNNING));
    [|unfold throttle_inv; auto].
  unfold throttle_inv; simpl. split; [reflexivity|]. split; [right; eauto|].
  destruct Hl as [Hnil | [rest Hrest]].
  - rewrite Hnil. reflexivity.
  - rewrite Hrest in Hs |- *. rewrite E. exact Hs.
Qed.

Lemma tick_at_times_inv (times : list Z) (a : ActionNode) :
  throttle_inv T a -> throttle_inv T (tick_at_times on_tick times a).
Proof.
  unfold tick_at_times. revert a.
  induction times as [|t times IH]; intros a Ha; simpl; [assumption|].
  apply IH, ActionNode_on_tick_inv, Ha.
Qed.

Lemma separated_lookup (calls : list Z) (i : nat) (t2 t1 : Z) :
  separated T calls = true ->
  calls !! i = Some t2 -> calls !! S i = Some t1 ->
  T <= elapsed_ms t2 t1.
Proof.
  revert i. induction calls as [|c calls IH]; intros i Hs H2 H1;
    [discriminate|].
  simpl in Hs. apply andb_true_iff in Hs as [Hh Ht].
  destruct i as [|i].
  - simpl in H2, H1. injection H2 as ->.
    destruct calls as [|c' calls]; [discriminate|].
    simpl in H1. injection H1 as ->. apply Z.leb_le, Hh.
  - simpl in H2, H1. eapply IH; eauto.
Qed.
End ThrottleInvariant.

(** C8, as stated, fails: an action throttled to 1005 ms, RUNNING, whose
    [on_tick] ran last at one second is ticked exactly 1005 ms later; the
    code computes 1004 elapsed milliseconds and skips the tick. *)
Lemma tick_at_the_throttle_is_skipped :
  throttle_ms action_throttled_to_1005 = Some 1005 /\
  node_status (action_base action_throttled_to_1005) = RUNNING /\
  2005000 - last_ts action_throttled_to_1005 = 1005 * 1000 /\
  elapsed_ms 2005000 (last_ts action_throttled_to_1005) = 1004 /\
  ActionNode_on_tick (set_status RUNNING) 2005000 action_throttled_to_1005
  = action_throttled_to_1005.
Proof. vm_compute. repeat split. Qed.

(** C8, amended: for an ActionNode with a throttle of [T] ms, at most
    [2^40], a tick that comes fewer than [T] ms after the tick of the last
    [on_tick] invocation changes nothing (the status included); a tick
    either changes nothing or comes at least [T] ms after, on a node that
    is IDLE or RUNNING, and then [on_tick] runs and the tick becomes the
    last one; a tick that comes at least [T + 1] ms after runs [on_tick]
    exactly when the status is IDLE or RUNNING (one that comes between [T]
    and [T + 1] ms after may be skipped); so in any series of ticks of a
    node on which [on_tick] has not run yet, two consecutive invocations
    of [on_tick] are at least [T] ms apart.  Times are in microseconds. *)
Theorem throttled_ticks_are_separated
    (on_tick : TreeNode -> TreeNode) (T : Z) (a : ActionNode) :
  throttle_ms a = Some T ->
  0 < T <= 2 ^ 40 ->
  (forall now, now - last_ts a < 1000 * T ->
     ActionNode_on_tick on_tick now a = a) /\
  (forall now,
     ActionNode_on_tick on_tick now a = a \/
     ((node_status (action_base a) = IDLE
       \/ node_status (action_base a) = RUNNING) /\
      1000 * T <= now - last_ts a /\
      ActionNode_on_tick on_tick now a
      = mkActionNode (on_tick (action_base a)) (Some T) now
                     (now :: on_tick_calls a))) /\
  (forall now, 1000 * (T + 1) <= now - last_ts a ->
     ActionNode_on_tick on_tick now a
     = if bool_decide (node_status (action_base a) = IDLE
                       \/ node_status (action_base a) = RUNNING)
       then mkActionNode (on_tick (action_base a)) (Some T) now
                         (now :: on_tick_calls a)
       else a) /\
  (on_tick_calls a = [] ->
   forall (times : list Z) (i : nat) (t2 t1 : Z),
     on_tick_calls (tick_at_times on_tick times a) !! i = Some t2 ->
     on_tick_calls (tick_at_times on_tick times a) !! S i = Some t1 ->
     1000 * T <= t2 - t1).
Proof.
  intros Ht HT.
  assert (Hfwd : forall now, T <= elapsed_ms now (last_ts a) ->
            ActionNode_on_tick on_tick now a
            = if bool_decide (node_status (action_base a) = IDLE
                              \/ node_status (action_base a) = RUNNING)
              then mkActionNode (on_tick (action_base a)) (Some T) now
                                (now :: on_tick_calls a)
              else a).
  { intros now Hle. unfold ActionNode_on_tick, get_status. rewrite Ht.
    apply Z.leb_le in Hle. rewrite Hle.
    destruct (node_status (action_base a)); reflexivity. }
  split; [|split; [|split]].
  - intros now Hlt. unfold ActionNode_on_tick. rewrite Ht.
    pose proof (elapsed_ms_upper T (now - last_ts a) HT Hlt) as Hu.
    rewrite <- elapsed_ms_shift in Hu.
    destruct (T <=? elapsed_ms now (last_ts a)) eqn:E; [|reflexivity].
    apply Z.leb_le in E. lia.
  - intros now.
    destruct (Z_lt_le_dec (elapsed_ms now (last_ts a)) T) as [Hlt|Hle].
    + left. unfold ActionNode_on_tick. rewrite Ht.
      destruct (T <=? elapsed_ms now (last_ts a)) eqn:E; [|reflexivity].
      apply Z.leb_le in E. lia.
    + rewrite (Hfwd now Hle).
      destruct (bool_decide (node_status (action_base a) = IDLE
                             \/ node_status (action_base a) = RUNNING))
        eqn:Eact; [|left; reflexivity].
      right. apply bool_decide_eq_true in Eact.
      split; [exact Eact|]. split; [|reflexivity].
      apply elapsed_ms_lower_bound; assumption.
  - intros now Hge. apply Hfwd.
    rewrite elapsed_ms_shift. apply elapsed_ms_lower; assumption.
  - intros Hnil times i t2 t1 H2 H1.
    assert (Hinv : throttle_inv T (tick_at_times on_tick times a)).
    { apply tick_at_times_inv. unfold throttle_inv.
      rewrite Hnil. auto. }
    destruct Hinv as (_ & _ & Hs).
    pose proof (separated_lookup T _ i t2 t1 Hs H2 H1) as Hsep.
    apply elapsed_ms_lower_bound; assumption.
Qed.

(** ** ControlNode: parameter binding *)

Lemma bind_out_loop_spec (cls : string) (co : list string) (inst : TreeNode)
    (outs : list string) :
  forall (i : nat) (self : ControlNode),
    Forall (fun o => is_Some (attrs inst !! slot o)) outs ->
    exists self',
      bind_out_loop cls co inst i outs self = Ok self' /\
      _child_ec_list self' = _child_ec_list self /\
      _child_ptr self' = _child_ptr self /\
      _contingency_handler_list self' = _contingency_handler_list self /\
      _contingency_message self' = _contingency_message self /\
      trace self' = trace self /\
      base self' = with_attrs (attrs (base self')) (base self) /\
      (exists l, log self' = log self ++ l) /\
      (forall k,
         attrs (base self') !! k = attrs (base self) !! k \/
         exists j o p v,
           outs !! j = Some o /\ attrs inst !! slot o = Some v /\
           v <> VNone /\ co !! (i + j)%nat = Some p /\ slot p = k /\
           attrs (base self') !! k = Some v) /\
      (forall j o,
         outs !! j = Some o -> attrs inst !! slot o = Some VNone ->
         In (WarnOutputNotSet cls (replace_first "_" "?" (slot o)))
            (log self')).
Proof.
  induction outs as [|var rest IH]; intros i self HF.
  - exists self. simpl. repeat split; try reflexivity.
    + destruct (base self); reflexivity.
    + exists []. rewrite app_nil_r. reflexivity.
    + intros k. left. reflexivity.
    + intros j o Hj. discriminate.
  - inversion HF as [|? ? [v Hv] HF']; subst.
    simpl. unfold getattr. rewrite Hv. simpl.
    set (self1 :=
           if bool_decide (v = VNone)
           then warn (WarnOutputNotSet cls (replace_first "_" "?" (slot var)))
                     self
           else match co !! i with
                | Some p => with_base (setattr (slot p) v (base self)) self
                | None => warn (WarnOutputNotProvided cls i) self
                end).
    destruct (IH (S i) self1 HF')
      as (self' & Hrun & Hl & Hp & Hh & Hm & Ht & Hb & [l Hlog] & Hk & Hw).
    exists self'. split; [exact Hrun|].
    assert (Hframe :
              _child_ec_list self1 = _child_ec_list self /\
              _child_ptr self1 = _child_ptr self /\
              _contingency_handler_list self1 = _contingency_handler_list self /\
              _contingency_message self1 = _contingency_message self /\
              trace self1 = trace self /\
              base self1 = with_attrs (attrs (base self1)) (base self) /\
              exists l1, log self1 = log self ++ l1).
    { subst self1. destruct (bool_decide (v = VNone)); [|destruct (co !! i)];
        simpl; repeat split; eauto;
        try (destruct (base self); reflexivity);
        exists []; rewrite app_nil_r; reflexivity. }
    destruct Hframe as (Fl & Fp & Fh & Fm & Ft & Fb & [l1 Flog]).
    repeat split; try congruence.
    + rewrite Hb, Fb. reflexivity.
    + exists (l1 ++ l). rewrite Hlog, Flog, app_assoc. reflexivity.
    + intros k. destruct (Hk k) as [Hsame | (j & o & p & w & H1 & H2 & H3 & H4 & H5 & H6)].
      * subst self1. destruct (bool_decide (v = VNone)) eqn:Ev.
        { left. exact Hsame. }
        destruct (co !! i) as [p|] eqn:Eco; [|left; exact Hsame].
        simpl in Hsame. destruct (decide (slot p = k)) as [Heq|Hne].
        { subst k. right. exists 0%nat, var, p, v.
          rewrite Nat.add_0_r. repeat split; auto.
          - apply bool_decide_eq_false in Ev. exact Ev.
          - rewrite Hsame. apply lookup_insert_eq. }
        left. rewrite Hsame. apply lookup_insert_ne. exact Hne.
      * right. exists (S j), o, p, w. repeat split; auto.
        rewrite <- H4. f_equal. lia.
    + intros j o Hj Ho. destruct j as [|j].
      * simpl in Hj. injection Hj as ->.
        rewrite Hlog. apply in_or_app. left.
        subst self1. rewrite Hv in Ho. injection Ho as ->.
        simpl. apply in_or_app. right. left. reflexivity.
      * eapply Hw; eauto.
Qed.

Lemma bind_out_loop_transfers (cls : string) (co : list string)
    (inst : TreeNode) (outs : list string) :
  NoDup (map slot co) ->
  forall (i : nat) (self : ControlNode),
    Forall (fun o => is_Some (attrs inst !! slot o)) outs ->
    exists self',
      bind_out_loop cls co inst i outs self = Ok self' /\
      (forall j o p v,
         outs !! j = Some o -> attrs inst !! slot o = Some v ->
         v <> VNone -> co !! (i + j)%nat = Some p ->
         attrs (base self') !! slot p = Some v) /\
      (forall j o v,
         outs !! j = Some o -> attrs inst !! slot o = Some v ->
         v <> VNone -> co !! (i + j)%nat = None ->
         In (WarnOutputNotProvided cls (i + j)) (log self')).
Proof.
  intros Hnd. induction outs as [|var rest IH]; intros i self HF.
  - exists self. split; [reflexivity|]. split; intros j o; discriminate.
  - inversion HF as [|? ? [v0 Hv0] HF']; subst.
    cbn [bind_out_loop]. unfold getattr. rewrite Hv0. cbn [from_option bind].
    set (self1 :=
           if bool_decide (v0 = VNone)
           then warn (WarnOutputNotSet cls (replace_first "_" "?" (slot var)))
                     self
           else match co !! i with
                | Some p => with_base (setattr (slot p) v0 (base self)) self
                | None => warn (WarnOutputNotProvided cls i) self
                end).
    destruct (IH (S i) self1 HF') as (self' & Hrun & Hval & Hwarn).
    destruct (bind_out_loop_spec cls co inst rest (S i) self1 HF')
      as (self'' & Hrun' & _ & _ & _ & _ & _ & _ & [l Hlog] & Hk & _).
    rewrite Hrun in Hrun'. injection Hrun' as <-.
    exists self'. split; [exact Hrun|]. split.
    + intros j o p v Hj Ho Hne Hco. destruct j as [|j].
      * simpl in Hj. injection Hj as <-. rewrite Hv0 in Ho.
        injection Ho as <-. rewrite Nat.add_0_r in Hco.
        assert (Hs1 : attrs (base self1) !! slot p = Some v0).
        { subst self1. rewrite bool_decide_eq_false_2 by exact Hne.
          rewrite Hco. cbn [with_base base setattr with_attrs attrs].
          apply lookup_insert_eq. }
        destruct (Hk (slot p))
          as [Hsame | (j' & o' & p' & v' & _ & _ & _ & Hco' & Hslot & _)].
        -- rewrite Hsame. exact Hs1.
        -- exfalso.
           assert (i = (S i + j')%nat); [|lia].
           eapply (NoDup_lookup (map slot co)); [exact Hnd | |].
           ++ rewrite list_lookup_fmap, Hco. reflexivity.
           ++ rewrite list_lookup_fmap, Hco'. cbn. rewrite Hslot. reflexivity.
      * apply (Hval j o p v Hj Ho Hne).
        rewrite <- Hco. f_equal. lia.
    + intros j o v Hj Ho Hne Hco. destruct j as [|j].
      * simpl in Hj. injection Hj as <-. rewrite Hv0 in Ho.
        injection Ho as <-. rewrite Nat.add_0_r in Hco |- *.
        rewrite Hlog. apply in_or_app. left. subst self1.
        rewrite bool_decide_eq_false_2 by exact Hne. rewrite Hco.
        cbn [warn log]. apply in_or_app. right. left. reflexivity.
      * replace (i + S j)%nat with (S i + j)%nat by lia.
        apply (Hwarn j o v Hj Ho Hne).
        rewrite <- Hco. f_equal. lia.
Qed.

(** What [_bind_out_params] leaves in the slots of the parent. *)
Lemma bind_out_params_values (self sb : ControlNode) (ec : ExecutionContext)
    (inst : TreeNode) :
  instance ec = Some inst ->
  outputs_present inst ->
  _bind_out_params self ec = Ok sb ->
  (NoDup (map slot (call_out_params ec)) ->
   forall j o p v,
     out_params inst !! j = Some o -> attrs inst !! slot o = Some v ->
     v <> VNone -> call_out_params ec !! j = Some p ->
     attrs (base sb) !! slot p = Some v) /\
  (forall k,
     (forall p, In p (call_out_params ec) -> slot p <> k) ->
     attrs (base sb) !! k = attrs (base self) !! k).
Proof.
  intros Hinst Hop Hrun. unfold _bind_out_params in Hrun.
  rewrite Hinst in Hrun. cbn [from_option bind] in Hrun.
  destruct (bind_out_loop_spec (cls_name (node ec)) (call_out_params ec)
              inst (out_params inst) 0 self Hop)
    as (self' & Hloop & _ & _ & _ & _ & _ & _ & _ & Hk & _).
  rewrite Hloop in Hrun. cbn [bind] in Hrun. injection Hrun as <-.
  cbn [emit base]. split.
  - intros Hnd.
    destruct (bind_out_loop_transfers (cls_name (node ec))
                (call_out_params ec) inst (out_params inst) Hnd 0 self Hop)
      as (self'' & Hloop' & Hval & _).
    rewrite Hloop in Hloop'. injection Hloop' as <-. exact Hval.
  - intros k Hfree.
    destruct (Hk k) as [Hsame | (j & o & p & v & _ & _ & _ & Hco & Hs & _)];
      [exact Hsame|].
    exfalso. apply (Hfree p); [|exact Hs].
    apply list_elem_of_In. eapply list_elem_of_lookup_2, Hco.
Qed.

(** C10: when every declared output of the child exists as a slot,
    [_bind_out_params] returns; a slot of the parent changes only through a
    declared output whose value is not None, and then holds that value, so
    None is never transferred and an output that is None leaves the parent
    as it is; for every declared output whose value is None the warning
    that it is not set is logged. *)
Theorem unset_output_is_not_transferred
    (self : ControlNode) (child_ec : ExecutionContext) (inst : TreeNode) :
  instance child_ec = Some inst ->
  Forall (fun o => is_Some (attrs inst !! slot o)) (out_params inst) ->
  exists self',
    _bind_out_params self child_ec = Ok self' /\
    (forall k,
       attrs (base self') !! k = attrs (base self) !! k \/
       exists j o p v,
         out_params inst !! j = Some o /\ attrs inst !! slot o = Some v /\
         v <> VNone /\ call_out_params child_ec !! j = Some p /\
         slot p = k /\ attrs (base self') !! k = Some v) /\
    (forall k, attrs (base self') !! k = Some VNone ->
               attrs (base self) !! k = Some VNone) /\
    (forall j o,
       out_params inst !! j = Some o -> attrs inst !! slot o = Some VNone ->
       In (WarnOutputNotSet (cls_name (node child_ec))
                            (replace_first "_" "?" (slot o)))
          (log self')).
Proof.
  intros Hinst HF. unfold _bind_out_params. rewrite Hinst. simpl.
  destruct (bind_out_loop_spec (cls_name (node child_ec))
              (call_out_params child_ec) inst (out_params inst) 0 self HF)
    as (self' & Hrun & _ & _ & _ & _ & _ & _ & _ & Hk & Hw).
  rewrite Hrun. simpl. eexists. split; [reflexivity|]. simpl.
  split; [exact Hk|]. split; [|exact Hw].
  intros k HN. destruct (Hk k) as [Hsame | (j & o & p & v & _ & _ & Hv & _ & _ & Hkv)].
  - rewrite <- Hsame. exact HN.
  - rewrite Hkv in HN. congruence.
Qed.

Lemma resolve_in_param_ok (self : TreeNode) (var : value) :
  in_param_ok (attrs self) var = true ->
  exists v, resolve_in_param self var = Ok v.
Proof.
  destruct var as [| b | z | s]; simpl; eauto.
  destruct s as [|c r]; [discriminate|].
  destruct (Ascii.eqb c "?"); eauto.
  intros H. apply bool_decide_eq_true in H as [v Hv].
  exists v. unfold getattr. rewrite Hv. reflexivity.
Qed.

(** With no more arguments than declared inputs, all of them resolvable,
    the loop binds every argument and only changes slots of the child. *)
Lemma bind_in_loop_ok (self : TreeNode) (vars : list value) :
  forall (i : nat) (inst : TreeNode),
    (i + length vars <= length (in_params inst))%nat ->
    Forall (fun v => in_param_ok (attrs self) v = true) vars ->
    exists inst',
      bind_in_loop self i vars inst = Ok inst' /\
      inst' = with_attrs (attrs inst') inst /\
      (forall k, is_Some (attrs inst !! k) -> is_Some (attrs inst' !! k)).
Proof.
  induction vars as [|var rest IH]; intros i inst Hlen HF.
  - exists inst. simpl. repeat split; auto. destruct inst; reflexivity.
  - inversion HF as [|? ? Hok HF']; subst. simpl in Hlen |- *.
    destruct (resolve_in_param_ok self var Hok) as [v ->]. simpl.
    destruct (in_params inst !! i) as [name|] eqn:En.
    2:{ apply lookup_ge_None in En. lia. }
    simpl.
    destruct (IH (S i) (setattr (slot name) v inst)) as (inst' & Hrun & Hw & Hdom).
    { simpl. lia. }
    { exact HF'. }
    exists inst'. split; [exact Hrun|]. split.
    + rewrite Hw. reflexivity.
    + intros k Hk. apply Hdom. simpl.
      destruct (decide (slot name = k)) as [->|Hne].
      * rewrite lookup_insert_eq. eauto.
      * rewrite lookup_insert_ne; auto.
Qed.

(** With more arguments than declared inputs, the loop runs out of
    declared names and raises. *)
Lemma bind_in_loop_too_many (self : TreeNode) (vars : list value) :
  forall (i : nat) (inst : TreeNode),
    (length (in_params inst) < i + length vars)%nat ->
    (i <= length (in_params inst))%nat ->
    Forall (fun v => in_param_ok (attrs self) v = true) vars ->
    bind_in_loop self i vars inst = Raise IndexError.
Proof.
  induction vars as [|var rest IH]; intros i inst Hlen Hi HF.
  - simpl in Hlen. lia.
  - inversion HF as [|? ? Hok HF']; subst. simpl in Hlen |- *.
    destruct (resolve_in_param_ok self var Hok) as [v ->]. simpl.
    destruct (in_params inst !! i) as [name|] eqn:En; [|reflexivity].
    simpl. apply lookup_lt_Some in En.
    apply IH; simpl; auto; lia.
Qed.

(** C7: a child that declares one input and is called with two arguments:
    [_bind_in_params] raises IndexError at the second argument instead of
    returning after the first. *)
Theorem bind_in_params_too_many_arguments_raises :
  _bind_in_params Parent0 two_args_for_one_input = Raise IndexError.
Proof. reflexivity. Qed.

(** ** SequenceNode: the empty child list *)

(** C9: ticking a sequence whose child list is empty returns; afterwards
    the status is RUNNING, and the child list, the cursor, the contingency
    message, the slots, the timer, the handlers, the log and the trace of
    calls on children are what they were; a sequence that was RUNNING is
    not changed at all. *)
Theorem tick_of_empty_sequence
    (methods : string -> option (ControlNode -> result ControlNode))
    (s : ControlNode) :
  _child_ec_list s = [] ->
  exists s',
    _internal_on_tick methods s = Ok s' /\
    node_status (base s') = RUNNING /\
    node_status (base s') <> SUCCESS /\
    _child_ec_list s' = [] /\
    _child_ptr s' = _child_ptr s /\
    contingency_message (base s') = contingency_message (base s) /\
    attrs (base s') = attrs (base s) /\
    timeout_timer (base s') = timeout_timer (base s) /\
    cancelled (base s') = cancelled (base s) /\
    in_params (base s') = in_params (base s) /\
    out_params (base s') = out_params (base s) /\
    _contingency_handler_list s' = _contingency_handler_list s /\
    _contingency_message s' = _contingency_message s /\
    log s' = log s /\
    trace s' = trace s /\
    (node_status (base s) = RUNNING -> s' = s).
Proof.
  intros Hnil. unfold _internal_on_tick, start, get_status.
  destruct (node_status (base s)) eqn:Est; simpl; rewrite Hnil; simpl;
    eexists; (split; [reflexivity|]); simpl;
    repeat split; auto; try discriminate; try congruence.
Qed.

(** ** ControlNode: contingency dispatch *)

Lemma apply_contingencies_loop_dispatched
    (methods : string -> option (ControlNode -> result ControlNode))
    (hs : list ContingencyHandler) (inst : TreeNode) (self : ControlNode) :
  apply_contingencies_loop methods hs inst self
  = let* o := dispatched_handler hs inst in
    match o with
    | Some f => exec_method methods f self
    | None => Ok self
    end.
Proof.
  induction hs as [|h rest IH]; simpl; [reflexivity|].
  destruct (handler_matches h inst) as [[|]|e]; simpl; auto.
Qed.

Lemma dispatched_handler_first (pre post : list ContingencyHandler)
    (h : ContingencyHandler) (inst : TreeNode) :
  Forall (fun h' => handler_matches h' inst = Ok false) pre ->
  handler_matches h inst = Ok true ->
  dispatched_handler (pre ++ h :: post) inst = Ok (Some (ch_function h)).
Proof.
  intros Hpre Hh. induction Hpre as [|h' pre Hh' _ IH]; simpl.
  - rewrite Hh. reflexivity.
  - rewrite Hh'. simpl. exact IH.
Qed.

Lemma dispatched_handler_none (hs : list ContingencyHandler) (inst : TreeNode) :
  Forall (fun h' => handler_matches h' inst = Ok false) hs ->
  dispatched_handler hs inst = Ok None.
Proof.
  intros H. induction H as [|h' hs Hh' _ IH]; simpl; [reflexivity|].
  rewrite Hh'. simpl. exact IH.
Qed.

(** The string that [__wildcard_to_regex] compiles. *)
Lemma str_replace_wildcard (c : ascii) (w : string) :
  str_replace "*" ".*" (str_replace "?" "." (String c w))
  = if Ascii.eqb c "?" then
      String "." (str_replace "*" ".*" (str_replace "?" "." w))
    else if Ascii.eqb c "*" then
      String "." (String "*" (str_replace "*" ".*" (str_replace "?" "." w)))
    else String c (str_replace "*" ".*" (str_replace "?" "." w)).
Proof.
  simpl. destruct (Ascii.eqb_spec c "?") as [->|Hq]; [reflexivity|].
  simpl. destruct (Ascii.eqb_spec c "*") as [->|Hs]; reflexivity.
Qed.

Lemma str_replace_wildcard_head (w : string) :
  match str_replace "*" ".*" (str_replace "?" "." w) with
  | String a _ => Ascii.eqb a "*" = false
  | EmptyString => True
  end.
Proof.
  destruct w as [|c w]; [exact I|].
  rewrite str_replace_wildcard.
  destruct (Ascii.eqb_spec c "?"); [reflexivity|].
  destruct (Ascii.eqb_spec c "*") as [|Hs]; [reflexivity|].
  apply Ascii.eqb_neq. exact Hs.
Qed.

Lemma re_compile_dot (r : string) :
  match r with
  | String a _ => Ascii.eqb a "*" = false
  | EmptyString => True
  end ->
  re_compile (String "." r) = let* t := re_compile r in Ok (ReAny :: t).
Proof.
  intros H. destruct r as [|a r]; [reflexivity|].
  change (re_compile (String "." (String a r)))
    with (match String a r with
          | String "*"%char rest' =>
              let* t := re_compile rest' in Ok (ReAnyStar :: t)
          | _ => let* t := re_compile (String a r) in Ok (ReAny :: t)
          end).
  destruct (Ascii.eqb_spec a "*") as [->|Hne]; [discriminate|].
  destruct a as [[] [] [] [] [] [] [] []]; try reflexivity.
  contradiction Hne. reflexivity.
Qed.

Lemma wildcard_to_regex_plain (w : string) :
  plain_wildcard w = true ->
  wildcard_to_regex w = Ok (wildcard_tokens w).
Proof.
  unfold wildcard_to_regex.
  induction w as [|c w IH]; intros Hp; [reflexivity|].
  simpl in Hp. apply andb_true_iff in Hp as [Hc Hw].
  specialize (IH Hw). rewrite str_replace_wildcard.
  cbn [wildcard_tokens]. unfold plain_char in Hc.
  destruct (Ascii.eqb c "?") eqn:Eq.
  - rewrite re_compile_dot by apply str_replace_wildcard_head.
    rewrite IH. reflexivity.
  - destruct (Ascii.eqb c "*") eqn:Es.
    + cbn [re_compile]. simpl. cbn [re_compile] in IH |- *.
      rewrite IH. reflexivity.
    + simpl in Hc. apply negb_true_iff, orb_false_iff in Hc as [Hd Hsp].
      cbn [re_compile]. rewrite Hd, Hsp, IH. reflexivity.
Qed.

Lemma re_match_star (r : list re_token) (s : string) :
  re_match (ReAnyStar :: r) s
  = re_match r s
    || match s with
       | String a s' => re_dot a && re_match (ReAnyStar :: r) s'
       | EmptyString => false
       end.
Proof. destruct s; reflexivity. Qed.

Lemma glob_match_star (p s : string) :
  glob_match (String "*" p) s
  = glob_match p s
    || match s with
       | String _ s' => glob_match (String "*" p) s'
       | EmptyString => false
       end.
Proof. destruct s; reflexivity. Qed.

Lemma glob_match_any (s : string) : glob_match "*" s = true.
Proof.
  induction s as [|a s IH]; [reflexivity|].
  rewrite glob_match_star. rewrite IH. apply orb_true_r.
Qed.

(** On names without a newline, the compiled wildcard matches at the start
    of the name exactly when the wildcard followed by [*] matches the whole
    name. *)
Lemma re_match_wildcard_tokens (w : string) :
  forall s : string,
    no_newline s = true ->
    re_match (wildcard_tokens w) s = glob_match (w ++ "*")%string s.
Proof.
  induction w as [|c w IH]; intros s Hs.
  - simpl. symmetry. apply glob_match_any.
  - change (String c w ++ "*")%string with (String c (w ++ "*")%string).
    cbn [wildcard_tokens].
    destruct (Ascii.eqb c "?") eqn:Eq.
    + apply Ascii.eqb_eq in Eq. subst c.
      destruct s as [|a s]; [reflexivity|].
      simpl in Hs. apply andb_true_iff in Hs as [Ha Hs].
      cbn [re_match]. rewrite Ha. simpl. apply IH, Hs.
    + destruct (Ascii.eqb c "*") eqn:Es.
      * apply Ascii.eqb_eq in Es. subst c.
        induction s as [|a s IHs].
        { rewrite re_match_star, glob_match_star, IH by reflexivity.
          reflexivity. }
        simpl in Hs. apply andb_true_iff in Hs as [Ha Hs'].
        rewrite re_match_star, glob_match_star.
        rewrite IH by (simpl; rewrite Ha; exact Hs').
        rewrite Ha, IHs by exact Hs'. reflexivity.
      * destruct s as [|a s].
        { simpl. rewrite Eq, Es. reflexivity. }
        simpl in Hs. apply andb_true_iff in Hs as [Ha Hs].
        cbn [re_match glob_match]. rewrite Eq, Es.
        rewrite IH by exact Hs. reflexivity.
Qed.

Lemma handler_matches_plain (h : ContingencyHandler) (inst : TreeNode) :
  plain_wildcard (matcher_name (ch_class h)) = true ->
  plain_wildcard (ch_message h) = true ->
  no_newline (class_name inst) = true ->
  no_newline (contingency_message inst) = true ->
  handler_matches h inst
  = Ok (glob_match (matcher_name (ch_class h) ++ "*")%string (class_name inst)
        && bool_decide (node_status inst ∈ ch_status h)
        && glob_match (ch_message h ++ "*")%string
                      (contingency_message inst)).
Proof.
  intros Hc Hm Hn Hn'. unfold handler_matches.
  rewrite (wildcard_to_regex_plain _ Hc), (wildcard_to_regex_plain _ Hm).
  simpl. unfold get_contingency_message, get_status.
  rewrite (re_match_wildcard_tokens _ _ Hn), (re_match_wildcard_tokens _ _ Hn').
  reflexivity.
Qed.

(** C5: a handler registered for the class name "SayHello" and the message
    "BOB" is run for a child of class "SayHelloAction" that failed with
    "BOB_IS_NOT_ALLOWED", although the wildcard match of the claim ([?] one
    character, [*] any characters, on the whole name) accepts neither
    name: the compiled patterns are applied with [re.match], which only
    asks for a match at the start. *)
Theorem dispatch_matches_prefixes :
  handler_matches
    (mkContingencyHandler (ByName "SayHello") [FAILURE] "BOB" "handle_bob")
    failed_SayHelloAction
  = Ok true /\
  glob_match "SayHello" (class_name failed_SayHelloAction) = false /\
  glob_match "BOB" (contingency_message failed_SayHelloAction) = false /\
  dispatched_handler handlers_for_SayHello failed_SayHelloAction
  = Ok (Some "handle_bob") /\
  spec_first_match handlers_for_SayHello failed_SayHelloAction = None /\
  exists s',
    dispatch_current_child bob_methods sequence_with_bob_handler = Ok s' /\
    trace s' = [EvHandler "handle_bob"].
Proof.
  split; [reflexivity|]. split; [reflexivity|]. split; [reflexivity|].
  split; [reflexivity|]. split; [reflexivity|].
  eexists. split; reflexivity.
Qed.

(** ** SequenceNode: one tick *)

Lemma with_instance_None_id (ec : ExecutionContext) :
  instance ec = None -> with_instance None ec = ec.
Proof. destruct ec; simpl; intros ->; reflexivity. Qed.

Lemma fold_create_mono (l : list string) :
  forall (a : gmap string value) (k : string),
    is_Some (a !! k) ->
    is_Some (fold_left (fun acc p => <[slot p := VNone]> acc) l a !! k).
Proof.
  induction l as [|p l IH]; intros a k Hk; simpl; [exact Hk|].
  apply IH. destruct (decide (slot p = k)) as [->|Hne].
  - rewrite lookup_insert_eq. eauto.
  - rewrite lookup_insert_ne; auto.
Qed.

Lemma fold_create_in (l : list string) :
  forall (a : gmap string value) (p : string),
    In p l ->
    is_Some (fold_left (fun acc p => <[slot p := VNone]> acc) l a !! slot p).
Proof.
  induction l as [|q l IH]; intros a p Hin; simpl; [contradiction|].
  destruct Hin as [->|Hin].
  - apply fold_create_mono. rewrite lookup_insert_eq. eauto.
  - apply IH, Hin.
Qed.

Lemma create_params_present (names : list string) (a : gmap string value)
    (o : string) :
  In o names -> o <> "" -> is_Some (create_params names a !! slot o).
Proof.
  intros Hin Hne. unfold create_params. apply fold_create_in.
  apply filter_In. split; [exact Hin|].
  apply negb_true_iff, String.eqb_neq, Hne.
Qed.

Lemma instantiate_outputs_present (c : NodeClass) :
  Forall (fun o => o <> "") (cls_out_params c) ->
  outputs_present (instantiate c).
Proof.
  intros HF. unfold outputs_present, instantiate.
  rewrite set_status_out_params, set_status_attrs. simpl.
  apply Forall_forall. intros o Ho.
  apply create_params_present.
  - apply list_elem_of_In. exact Ho.
  - rewrite Forall_forall in HF. apply HF. exact Ho.
Qed.

Lemma lookup_current_child (s : ControlNode) (ec : ExecutionContext) :
  _child_ec_list s !! _child_ptr s = Some ec -> current_child s = Ok ec.
Proof. intros H. unfold current_child. rewrite H. reflexivity. Qed.

(** Lines 71-76 on a descriptor that has no instance yet. *)
Lemma create_current_child_fresh (s : ControlNode) (ec : ExecutionContext) :
  _child_ec_list s !! _child_ptr s = Some ec ->
  call_ok (attrs (base s)) ec ->
  exists (inst1 : TreeNode) (l : list Warning),
    node_status inst1 = IDLE /\ outputs_present inst1 /\
    create_current_child s
    = Ok (mkControlNode
            (base s)
            (<[_child_ptr s :=
                 with_instance (Some (cls_on_init (node ec) inst1)) ec]>
               (_child_ec_list s))
            (_child_ptr s) (_contingency_handler_list s)
            (_contingency_message s) (log s ++ l)
            (trace s ++ [EvCreate (cls_name (node ec));
                         EvBindIn (cls_name (node ec));
                         EvOnInit (cls_name (node ec))])).
Proof.
  intros Hec (Hnone & Hlen & Hargs & Houts).
  unfold create_current_child. rewrite (lookup_current_child _ _ Hec).
  simpl. rewrite Hnone. unfold _bind_in_params. simpl.
  destruct (bind_in_loop_ok (base s) (call_in_params ec) 0
              (instantiate (node ec))) as (inst1 & Hrun & Hw & Hdom).
  { unfold instantiate. rewrite set_status_in_params. simpl. exact Hlen. }
  { exact Hargs. }
  assert (Hst : node_status inst1 = IDLE).
  { rewrite Hw. reflexivity. }
  assert (Hop : outputs_present inst1).
  { pose proof (instantiate_outputs_present (node ec) Houts) as Hi.
    unfold outputs_present in *. rewrite Hw. simpl.
    eapply Forall_impl; [exact Hi|]. intros o Ho. apply Hdom, Ho. }
  destruct (bool_decide
              (length (call_in_params ec)
               ≠ length (cls_in_params (node ec)))) eqn:Earity.
  - exists inst1, [WarnArity (cls_name (node ec))
                             (length (cls_in_params (node ec)))
                             (length (call_in_params ec))].
    split; [exact Hst|]. split; [exact Hop|].
    simpl. rewrite Hrun. simpl. unfold update_current_child, emit. simpl.
    rewrite <- !app_assoc. reflexivity.
  - exists inst1, []. split; [exact Hst|]. split; [exact Hop|].
    simpl. rewrite Hrun. simpl. unfold update_current_child, emit. simpl.
    rewrite app_nil_r, <- !app_assoc. reflexivity.
Qed.

(** Line 79 on a child the composite ticks. *)
Lemma tick_current_child_active (s : ControlNode) (ec : ExecutionContext)
    (inst : TreeNode) :
  _child_ec_list s !! _child_ptr s = Some ec ->
  instance ec = Some inst ->
  node_status inst = IDLE \/ node_status inst = RUNNING ->
  tick_current_child s
  = Ok (update_current_child
          (with_instance (Some (cls_on_tick (node ec) inst)) ec)
          (emit (EvTick (cls_name (node ec))) s)).
Proof.
  intros Hec Hinst Hst. unfold tick_current_child, _tick_child.
  rewrite (lookup_current_child _ _ Hec). simpl. rewrite Hinst. simpl.
  unfold get_status. destruct Hst as [-> | ->]; reflexivity.
Qed.

(** A child in any other status is not ticked. *)
Lemma tick_current_child_inactive (s : ControlNode) (ec : ExecutionContext)
    (inst : TreeNode) :
  _child_ec_list s !! _child_ptr s = Some ec ->
  instance ec = Some inst ->
  node_status inst <> IDLE -> node_status inst <> RUNNING ->
  tick_current_child s = Ok s.
Proof.
  intros Hec Hinst Hi Hr. unfold tick_current_child, _tick_child.
  rewrite (lookup_current_child _ _ Hec). simpl. rewrite Hinst. simpl.
  unfold get_status, update_current_child.
  destruct (node_status inst); try congruence; simpl;
    rewrite (list_insert_id _ _ _ Hec); destruct s; reflexivity.
Qed.

Lemma handler_matches_silent (h : ContingencyHandler) (inst : TreeNode) :
  silent_on (node_status inst) h = true ->
  handler_matches h inst = Ok false.
Proof.
  unfold silent_on, handler_matches, get_status. intros H.
  apply andb_true_iff in H as [H Hst]. apply andb_true_iff in H as [Hc Hm].
  destruct (wildcard_to_regex (matcher_name (ch_class h))); [|discriminate].
  destruct (wildcard_to_regex (ch_message h)); [|discriminate].
  simpl. apply negb_true_iff in Hst. rewrite Hst.
  rewrite andb_false_r. reflexivity.
Qed.

(** Line 80 when no registration lists the status of the child. *)
Lemma dispatch_current_child_silent
    (methods : string -> option (ControlNode -> result ControlNode))
    (s : ControlNode) (ec : ExecutionContext) (inst : TreeNode) :
  _child_ec_list s !! _child_ptr s = Some ec ->
  instance ec = Some inst ->
  Forall (fun h => silent_on (node_status inst) h = true)
         (_contingency_handler_list s) ->
  dispatch_current_child methods s = Ok s.
Proof.
  intros Hec Hinst Hs. unfold dispatch_current_child, _apply_contingencies.
  rewrite (lookup_current_child _ _ Hec). simpl. rewrite Hinst. simpl.
  rewrite apply_contingencies_loop_dispatched.
  rewrite dispatched_handler_none; [reflexivity|].
  eapply Forall_impl; [exact Hs|]. intros h. apply handler_matches_silent.
Qed.

(** [_bind_out_params] changes slots of the parent and adds to its log and
    trace; no slot disappears. *)
Lemma bind_out_params_frame (self : ControlNode) (ec : ExecutionContext)
    (inst : TreeNode) :
  instance ec = Some inst ->
  outputs_present inst ->
  exists (A : gmap string value) (l : list Warning),
    _bind_out_params self ec
    = Ok (mkControlNode (with_attrs A (base self)) (_child_ec_list self)
            (_child_ptr self) (_contingency_handler_list self)
            (_contingency_message self) (log self ++ l)
            (trace self ++ [EvBindOut (cls_name (node ec))])) /\
    (forall k, is_Some (attrs (base self) !! k) -> is_Some (A !! k)).
Proof.
  intros Hinst HF. unfold _bind_out_params. rewrite Hinst. simpl.
  destruct (bind_out_loop_spec (cls_name (node ec)) (call_out_params ec)
              inst (out_params inst) 0 self HF)
    as (self' & Hrun & Hl & Hp & Hh & Hm & Ht & Hb & [l Hlog] & Hk & _).
  rewrite Hrun. simpl. exists (attrs (base self')), l. split.
  - unfold emit. rewrite Hl, Hp, Hh, Hm, Ht, Hlog, <- Hb. reflexivity.
  - intros k Hsome.
    destruct (Hk k) as [Hsame | (j & o & p & v & _ & _ & _ & _ & _ & Hkv)].
    + rewrite Hsame. exact Hsome.
    + rewrite Hkv. eauto.
Qed.

Arguments set_status : simpl never.

Lemma start_running (s : ControlNode) :
  exists b : TreeNode,
    start s = mkControlNode b (_child_ec_list s) (_child_ptr s)
                (_contingency_handler_list s) (_contingency_message s)
                (log s) (trace s) /\
    node_status b = RUNNING /\
    attrs b = attrs (base s) /\
    contingency_message b = contingency_message (base s).
Proof.
  unfold start, get_status.
  destruct (bool_decide (node_status (base s) ≠ RUNNING)) eqn:E.
  - exists (set_status RUNNING (base s)). split; [reflexivity|].
    rewrite set_status_status, set_status_attrs, set_status_message. auto.
  - exists (base s). split; [destruct s; reflexivity|].
    apply bool_decide_eq_false in E.
    destruct (decide (node_status (base s) = RUNNING)); [auto|contradiction].
Qed.

(** Lines 105-114 on a live child. *)
Lemma advance_live (s : ControlNode) (ec : ExecutionContext)
    (inst : TreeNode) (m : string) :
  _child_ec_list s !! _child_ptr s = Some ec ->
  instance ec = Some inst ->
  _contingency_message s = Some m ->
  advance s
  = Ok (if bool_decide (_child_ptr s + 1 < length (_child_ec_list s))%nat
        then mkControlNode (base s)
               (<[_child_ptr s := with_instance None ec]> (_child_ec_list s))
               (_child_ptr s + 1) (_contingency_handler_list s)
               (Some m) (log s)
               (trace s ++ [EvOnDelete (cls_name (node ec))])
        else mkControlNode
               (set_contingency_message m (set_status SUCCESS (base s)))
               (<[_child_ptr s := with_instance None ec]> (_child_ec_list s))
               (_child_ptr s) (_contingency_handler_list s)
               (Some m) (log s)
               (trace s ++ [EvOnDelete (cls_name (node ec))])).
Proof.
  intros Hec Hinst Hm. unfold advance, release_current_child.
  rewrite (lookup_current_child _ _ Hec). simpl. rewrite Hinst. simpl.
  rewrite length_insert.
  destruct (bool_decide (_child_ptr s + 1 < length (_child_ec_list s))%nat);
    unfold with_ptr, with_base, update_current_child, with_children, emit;
    simpl; rewrite Hm; reflexivity.
Qed.

(** Lines 84-114 and 116-123 when the child has FAILURE or ABORTED. *)
Lemma proceed_finish_failure (s : ControlNode) (ec : ExecutionContext)
    (inst : TreeNode) :
  node_status (base s) = RUNNING ->
  _child_ec_list s !! _child_ptr s = Some ec ->
  instance ec = Some inst ->
  node_status inst = FAILURE \/ node_status inst = ABORTED ->
  (let* s' := proceed s in finish s')
  = Ok (mkControlNode
          (set_contingency_message (contingency_message inst)
             (set_status (node_status inst) (base s)))
          (<[_child_ptr s := with_instance None ec]> (_child_ec_list s))
          (_child_ptr s) (_contingency_handler_list s)
          (_contingency_message s) (log s)
          (trace s ++ [EvOnDelete (cls_name (node ec))])).
Proof.
  intros Hrun Hec Hinst Hst. unfold proceed, get_status. rewrite Hrun.
  rewrite (lookup_current_child _ _ Hec). simpl. rewrite Hinst.
  unfold get_contingency_message.
  assert (Hfin : is_final (node_status inst) = true)
    by (destruct Hst as [-> | ->]; reflexivity).
  assert (E1 : bool_decide (node_status inst = FAILURE)
               || bool_decide (node_status inst = ABORTED) = true)
    by (destruct Hst as [-> | ->]; reflexivity).
  assert (E2 : bool_decide (node_status inst = SUCCESS)
               || bool_decide (node_status inst = FIXED) = false)
    by (destruct Hst as [-> | ->]; reflexivity).
  rewrite E1, E2. simpl. unfold finish, get_status. simpl.
  unfold set_contingency_message. simpl. rewrite set_status_status, Hfin.
  unfold release_current_child, current_child. simpl. rewrite Hec. simpl.
  rewrite Hinst. reflexivity.
Qed.

(** Lines 71-80 on a descriptor without instance, for a class that is
    ticked once and ends in a status no registration lists. *)
Lemma observe_current_child_fresh
    (methods : string -> option (ControlNode -> result ControlNode))
    (s : ControlNode) (ec : ExecutionContext)
    (P : TreeNode -> Prop) (st : NodeStatus) :
  _child_ec_list s !! _child_ptr s = Some ec ->
  call_ok (attrs (base s)) ec ->
  completes_in_one_tick (node ec) P ->
  (forall n, P n -> node_status n = st) ->
  Forall (fun h => silent_on st h = true) (_contingency_handler_list s) ->
  exists (inst : TreeNode) (l : list Warning),
    P inst /\
    observe_current_child methods s
    = Ok (mkControlNode
            (base s)
            (<[_child_ptr s := with_instance (Some inst) ec]>
               (_child_ec_list s))
            (_child_ptr s) (_contingency_handler_list s)
            (_contingency_message s) (log s ++ l)
            (trace s ++ [EvCreate (cls_name (node ec));
                         EvBindIn (cls_name (node ec));
                         EvOnInit (cls_name (node ec));
                         EvTick (cls_name (node ec))])).
Proof.
  intros Hec Hcall Hcls HP Hsilent.
  destruct (create_current_child_fresh s ec Hec Hcall)
    as (inst1 & l & Hidle & Hop & Hcreate).
  destruct (Hcls inst1 Hidle Hop) as [Hactive HPinst].
  pose proof (lookup_lt_Some _ _ _ Hec) as Hlt.
  exists (cls_on_tick (node ec) (cls_on_init (node ec) inst1)), l.
  split; [exact HPinst|].
  unfold observe_current_child. rewrite Hcreate. cbn [bind].
  erewrite tick_current_child_active.
  2:{ cbn [_child_ec_list _child_ptr]. apply list_lookup_insert_eq, Hlt. }
  2:{ reflexivity. }
  2:{ exact Hactive. }
  cbn [bind]. erewrite dispatch_current_child_silent.
  - unfold update_current_child, emit, with_children, with_instance.
    cbn [_child_ec_list _child_ptr base _contingency_handler_list
         _contingency_message log trace node call_in_params call_out_params].
    rewrite list_insert_insert_eq, <- app_assoc. reflexivity.
  - unfold update_current_child, emit, with_children.
    cbn [_child_ec_list _child_ptr].
    apply list_lookup_insert_eq. rewrite length_insert. exact Hlt.
  - reflexivity.
  - cbn [_contingency_handler_list update_current_child with_children emit
         node with_instance].
    rewrite (HP _ HPinst). exact Hsilent.
Qed.

Lemma lookup_nonempty (s : ControlNode) (ec : ExecutionContext) :
  _child_ec_list s !! _child_ptr s = Some ec ->
  bool_decide (length (_child_ec_list s) = 0%nat) = false.
Proof.
  intros H. apply lookup_lt_Some in H. apply bool_decide_eq_false. lia.
Qed.

(** One tick on a child that succeeds in it. *)
Lemma tick_on_succeeding_child
    (methods : string -> option (ControlNode -> result ControlNode))
    (s : ControlNode) (ec : ExecutionContext) :
  _child_ec_list s !! _child_ptr s = Some ec ->
  call_ok (attrs (base s)) ec ->
  succeeds (node ec) ->
  Forall (fun h => silent_on SUCCESS h = true) (_contingency_handler_list s) ->
  exists s',
    _internal_on_tick methods s = Ok s' /\
    _child_ec_list s' = _child_ec_list s /\
    _contingency_handler_list s' = _contingency_handler_list s /\
    trace s' = trace s ++ lifecycle ec /\
    (forall k, is_Some (attrs (base s) !! k) ->
               is_Some (attrs (base s') !! k)) /\
    if bool_decide (_child_ptr s + 1 < length (_child_ec_list s))%nat
    then _child_ptr s' = (_child_ptr s + 1)%nat
         /\ node_status (base s') = RUNNING
    else _child_ptr s' = _child_ptr s /\ node_status (base s') = SUCCESS.
Proof.
  intros Hec Hcall Hcls Hsilent.
  destruct (start_running s) as (b & Hstart & Hb & Hattrs & _).
  unfold _internal_on_tick. rewrite Hstart.
  set (s0 := mkControlNode b (_child_ec_list s) (_child_ptr s)
               (_contingency_handler_list s) (_contingency_message s)
               (log s) (trace s)).
  rewrite (lookup_nonempty s0 ec Hec).
  destruct (observe_current_child_fresh methods s0 ec
              (fun n => node_status n = SUCCESS /\ outputs_present n)
              SUCCESS Hec)
    as (inst & l & [Hst Hop] & Hobs).
  { simpl. rewrite Hattrs. exact Hcall. }
  { exact Hcls. }
  { intros n [Hn _]. exact Hn. }
  { exact Hsilent. }
  rewrite Hobs. cbn [bind]. subst s0.
  cbn [base _child_ec_list _child_ptr _contingency_handler_list
       _contingency_message log trace].
  pose proof (lookup_lt_Some _ _ _ Hec) as Hlt.
  destruct Hcall as (Hnone & _).
  unfold proceed, get_status. cbn [base]. rewrite Hb.
  unfold current_child. cbn [_child_ec_list _child_ptr].
  rewrite (list_lookup_insert_eq _ _ _ Hlt). cbn [from_option bind instance with_instance].
  rewrite Hst. cbn [bool_decide decide_rel].
  change (bool_decide (SUCCESS = FAILURE) || bool_decide (SUCCESS = ABORTED))
    with false.
  change (bool_decide (SUCCESS = SUCCESS) || bool_decide (SUCCESS = FIXED))
    with true.
  change (bool_decide (SUCCESS ≠ FIXED)) with true. cbv iota.
  cbn [with_last_message base _child_ec_list _child_ptr
       _contingency_handler_list _contingency_message log trace].
  match goal with
  | |- context [_bind_out_params ?self ?e] =>
      destruct (bind_out_params_frame self e inst eq_refl Hop)
        as (A & l2 & Hbind & Hdom)
  end.
  cbn [with_last_message base _child_ec_list _child_ptr
       _contingency_handler_list _contingency_message log trace
       node with_instance] in Hbind, Hdom.
  rewrite Hbind. cbn [bind].
  erewrite advance_live; cycle 1.
  { cbn [_child_ec_list _child_ptr with_last_message].
    apply list_lookup_insert_eq, Hlt. }
  { reflexivity. }
  { reflexivity. }
  cbn [_child_ec_list _child_ptr with_last_message base
       _contingency_handler_list _contingency_message log trace
       with_instance node call_in_params call_out_params].
  rewrite length_insert, list_insert_insert_eq.
  change (bool_decide (RUNNING = RUNNING)) with true. cbv iota.
  change (with_instance None (with_instance (Some inst) ec))
    with (with_instance None ec).
  rewrite (with_instance_None_id ec Hnone), (list_insert_id _ _ _ Hec).
  destruct (bool_decide (_child_ptr s + 1 < length (_child_ec_list s))%nat)
    eqn:Eadv.
  - cbn [bind]. unfold finish, get_status. cbn [base with_attrs node_status].
    rewrite Hb. change (is_final RUNNING) with false. cbv iota.
    eexists. split; [reflexivity|].
    cbn [base _child_ec_list _child_ptr _contingency_handler_list trace
         with_attrs attrs node_status].
    repeat split; auto.
    + unfold lifecycle. rewrite <- !app_assoc. reflexivity.
    + intros k Hk. apply Hdom. cbn [base with_last_message]. rewrite Hattrs.
      exact Hk.
  - cbn [bind]. unfold finish, get_status, set_contingency_message.
    cbn [base with_message node_status].
    rewrite set_status_status. change (is_final SUCCESS) with true. cbv iota.
    unfold release_current_child, current_child.
    cbn [_child_ec_list _child_ptr]. rewrite Hec.
    cbn [from_option bind]. rewrite Hnone.
    eexists. split; [reflexivity|].
    cbn [base _child_ec_list _child_ptr _contingency_handler_list trace
         with_message attrs node_status].
    rewrite set_status_status, set_status_attrs.
    repeat split; auto.
    + unfold lifecycle. rewrite <- !app_assoc. reflexivity.
    + intros k Hk. apply Hdom. cbn [base with_last_message]. rewrite Hattrs.
      exact Hk.
Qed.

(** One tick on a child that fails in it. *)
Lemma tick_on_failing_child
    (methods : string -> option (ControlNode -> result ControlNode))
    (s : ControlNode) (ec : ExecutionContext) (st : NodeStatus) (m : string) :
  _child_ec_list s !! _child_ptr s = Some ec ->
  call_ok (attrs (base s)) ec ->
  fails_with st m (node ec) ->
  st = FAILURE \/ st = ABORTED ->
  Forall (fun h => silent_on st h = true) (_contingency_handler_list s) ->
  exists s',
    _internal_on_tick methods s = Ok s' /\
    _child_ec_list s' = _child_ec_list s /\
    _child_ptr s' = _child_ptr s /\
    _contingency_handler_list s' = _contingency_handler_list s /\
    trace s' = trace s ++ failed_lifecycle ec /\
    node_status (base s') = st /\
    contingency_message (base s') = m /\
    attrs (base s') = attrs (base s).
Proof.
  intros Hec Hcall Hcls Hst Hsilent.
  destruct (start_running s) as (b & Hstart & Hb & Hattrs & _).
  unfold _internal_on_tick. rewrite Hstart.
  set (s0 := mkControlNode b (_child_ec_list s) (_child_ptr s)
               (_contingency_handler_list s) (_contingency_message s)
               (log s) (trace s)).
  rewrite (lookup_nonempty s0 ec Hec).
  destruct (observe_current_child_fresh methods s0 ec
              (fun n => node_status n = st /\ contingency_message n = m)
              st Hec)
    as (inst & l & [Hsti Hmi] & Hobs).
  { simpl. rewrite Hattrs. exact Hcall. }
  { exact Hcls. }
  { intros n [Hn _]. exact Hn. }
  { exact Hsilent. }
  rewrite Hobs. cbn [bind]. subst s0.
  cbn [base _child_ec_list _child_ptr _contingency_handler_list
       _contingency_message log trace].
  pose proof (lookup_lt_Some _ _ _ Hec) as Hlt.
  destruct Hcall as (Hnone & _).
  erewrite proceed_finish_failure; cycle 1.
  { exact Hb. }
  { cbn [_child_ec_list _child_ptr]. apply list_lookup_insert_eq, Hlt. }
  { reflexivity. }
  { rewrite Hsti. exact Hst. }
  cbn [base _child_ec_list _child_ptr _contingency_handler_list
       _contingency_message log trace].
  change (with_instance None (with_instance (Some inst) ec))
    with (with_instance None ec).
  rewrite list_insert_insert_eq.
  rewrite (with_instance_None_id ec Hnone), (list_insert_id _ _ _ Hec).
  eexists. split; [reflexivity|].
  cbn [base _child_ec_list _child_ptr _contingency_handler_list trace].
  unfold set_contingency_message.
  cbn [node_status contingency_message attrs with_message].
  rewrite set_status_status, set_status_attrs, Hsti, Hmi.
  repeat split; auto.
  unfold failed_lifecycle. rewrite <- app_assoc. reflexivity.
Qed.

(** ** SequenceNode: several ticks *)

Lemma tick_times_snoc
    (methods : string -> option (ControlNode -> result ControlNode))
    (k : nat) :
  forall s : ControlNode,
    tick_times methods (S k) s
    = let* s' := tick_times methods k s in _internal_on_tick methods s'.
Proof.
  induction k as [|k IH]; intros s.
  - simpl. destruct (_internal_on_tick methods s); reflexivity.
  - cbn [tick_times].
    destruct (_internal_on_tick methods s) as [s1|e]; cbn [bind];
      [|reflexivity].
    specialize (IH s1). cbn [tick_times] in IH. exact IH.
Qed.

Lemma in_param_ok_mono (A B : gmap string value) (v : value) :
  (forall k, is_Some (A !! k) -> is_Some (B !! k)) ->
  in_param_ok A v = true -> in_param_ok B v = true.
Proof.
  intros Hsub. destruct v as [| | |s]; simpl; auto.
  destruct s as [|c r]; auto.
  destruct (Ascii.eqb c "?"); auto.
  intros H. apply bool_decide_eq_true in H.
  apply bool_decide_eq_true. apply Hsub, H.
Qed.

Lemma call_ok_mono (A B : gmap string value) (ec : ExecutionContext) :
  (forall k, is_Some (A !! k) -> is_Some (B !! k)) ->
  call_ok A ec -> call_ok B ec.
Proof.
  intros Hsub (H1 & H2 & H3 & H4). repeat split; auto.
  eapply Forall_impl; [exact H3|]. intros v. apply in_param_ok_mono, Hsub.
Qed.

(** [k] ticks over [k] succeeding children, from the cursor [p] on, when
    more children follow. *)
Lemma tick_times_succeeding
    (methods : string -> option (ControlNode -> result ControlNode))
    (cs : list ExecutionContext) (hs : list ContingencyHandler)
    (A0 : gmap string value) :
  Forall (fun h => silent_on SUCCESS h = true) hs ->
  forall (k p : nat) (s : ControlNode),
    _child_ec_list s = cs ->
    _child_ptr s = p ->
    _contingency_handler_list s = hs ->
    (forall x, is_Some (A0 !! x) -> is_Some (attrs (base s) !! x)) ->
    (p + k < length cs)%nat ->
    (forall i ec, (p <= i < p + k)%nat -> cs !! i = Some ec ->
                  call_ok A0 ec /\ succeeds (node ec)) ->
    exists s',
      tick_times methods k s = Ok s' /\
      _child_ec_list s' = cs /\
      _child_ptr s' = (p + k)%nat /\
      _contingency_handler_list s' = hs /\
      trace s' = trace s ++ flat_map lifecycle (take k (drop p cs)) /\
      (forall x, is_Some (A0 !! x) -> is_Some (attrs (base s') !! x)) /\
      (0 < k -> node_status (base s') = RUNNING)%nat /\
      (k = 0%nat -> s' = s).
Proof.
  intros Hsilent. induction k as [|k IH]; intros p s Hl Hp Hh Hdom Hlen Hgood.
  - exists s. simpl. rewrite Nat.add_0_r, app_nil_r.
    repeat split; auto. intros H. lia.
  - assert (Hp_lt : (p < length cs)%nat) by lia.
    destruct (lookup_lt_is_Some_2 cs p Hp_lt) as [ec Hec].
    destruct (Hgood p ec ltac:(lia) Hec) as [Hcall Hsucc].
    destruct (tick_on_succeeding_child methods s ec)
      as (s1 & Htick & Hl1 & Hh1 & Ht1 & Hdom1 & Hadv).
    { rewrite Hl, Hp. exact Hec. }
    { eapply call_ok_mono; [exact Hdom | exact Hcall]. }
    { exact Hsucc. }
    { rewrite Hh. exact Hsilent. }
    rewrite Hl, Hp in Hadv.
    rewrite bool_decide_eq_true_2 in Hadv by lia.
    destruct Hadv as [Hp1 Hrun1].
    destruct (IH (S p) s1) as (s' & Hrun & Hl' & Hp' & Hh' & Ht' & Hdom' & Hst' & _).
    { congruence. }
    { lia. }
    { congruence. }
    { intros x Hx. apply Hdom1, Hdom, Hx. }
    { lia. }
    { intros i e Hi. apply Hgood. lia. }
    exists s'. simpl. rewrite Htick. cbn [bind].
    split; [exact Hrun|]. split; [exact Hl'|]. split; [lia|].
    split; [exact Hh'|]. split.
    + rewrite Ht', Ht1, <- app_assoc. f_equal.
      rewrite (drop_S cs ec p Hec). reflexivity.
    + split; [exact Hdom'|]. split; [|intros H; lia].
      intros _. destruct k as [|k].
      * simpl in Hrun. injection Hrun as <-. exact Hrun1.
      * apply Hst'. lia.
Qed.



(** ** SequenceNode: output binding and FIXED *)

(** Lines 84-114 when the child has FIXED. *)
Lemma proceed_fixed (s : ControlNode) (ec : ExecutionContext)
    (inst : TreeNode) :
  node_status (base s) = RUNNING ->
  _child_ec_list s !! _child_ptr s = Some ec ->
  instance ec = Some inst ->
  node_status inst = FIXED ->
  proceed s
  = Ok (if bool_decide (_child_ptr s + 1 < length (_child_ec_list s))%nat
        then mkControlNode (base s)
               (<[_child_ptr s := with_instance None ec]> (_child_ec_list s))
               (_child_ptr s + 1) (_contingency_handler_list s)
               (Some (contingency_message inst)) (log s)
               (trace s ++ [EvOnDelete (cls_name (node ec))])
        else mkControlNode
               (set_contingency_message (contingency_message inst)
                  (set_status SUCCESS (base s)))
               (<[_child_ptr s := with_instance None ec]> (_child_ec_list s))
               (_child_ptr s) (_contingency_handler_list s)
               (Some (contingency_message inst)) (log s)
               (trace s ++ [EvOnDelete (cls_name (node ec))])).
Proof.
  intros Hrun Hec Hinst Hst. unfold proceed, get_status. rewrite Hrun.
  rewrite (lookup_current_child _ _ Hec).
  cbn [bind]. rewrite Hinst, Hst.
  change (bool_decide (RUNNING = RUNNING)) with true.
  change (bool_decide (FIXED = FAILURE) || bool_decide (FIXED = ABORTED))
    with false.
  change (bool_decide (FIXED = SUCCESS) || bool_decide (FIXED = FIXED))
    with true.
  change (bool_decide (FIXED ≠ FIXED)) with false. cbv iota. cbn [bind].
  rewrite (advance_live _ ec inst (contingency_message inst)); auto.
Qed.

(** Lines 84-114 when the child has SUCCESS. *)
Lemma proceed_success (s : ControlNode) (ec : ExecutionContext)
    (inst : TreeNode) :
  node_status (base s) = RUNNING ->
  _child_ec_list s !! _child_ptr s = Some ec ->
  instance ec = Some inst ->
  node_status inst = SUCCESS ->
  outputs_present inst ->
  exists (A : gmap string value) (l : list Warning),
    _bind_out_params
      (with_last_message (Some (contingency_message inst)) s) ec
    = Ok (mkControlNode (with_attrs A (base s)) (_child_ec_list s)
            (_child_ptr s) (_contingency_handler_list s)
            (Some (contingency_message inst)) (log s ++ l)
            (trace s ++ [EvBindOut (cls_name (node ec))])) /\
    proceed s
    = Ok (if bool_decide (_child_ptr s + 1 < length (_child_ec_list s))%nat
          then mkControlNode (with_attrs A (base s))
                 (<[_child_ptr s := with_instance None ec]> (_child_ec_list s))
                 (_child_ptr s + 1) (_contingency_handler_list s)
                 (Some (contingency_message inst)) (log s ++ l)
                 (trace s ++ [EvBindOut (cls_name (node ec));
                              EvOnDelete (cls_name (node ec))])
          else mkControlNode
                 (set_contingency_message (contingency_message inst)
                    (set_status SUCCESS (with_attrs A (base s))))
                 (<[_child_ptr s := with_instance None ec]> (_child_ec_list s))
                 (_child_ptr s) (_contingency_handler_list s)
                 (Some (contingency_message inst)) (log s ++ l)
                 (trace s ++ [EvBindOut (cls_name (node ec));
                              EvOnDelete (cls_name (node ec))])).
Proof.
  intros Hrun Hec Hinst Hst Hop.
  destruct (bind_out_params_frame
              (with_last_message (Some (contingency_message inst)) s)
              ec inst Hinst Hop) as (A & l & Hbind & _).
  cbn [with_last_message base _child_ec_list _child_ptr
       _contingency_handler_list _contingency_message log trace] in Hbind.
  exists A, l. split; [exact Hbind|].
  unfold proceed, get_status. rewrite Hrun.
  rewrite (lookup_current_child _ _ Hec).
  cbn [bind]. rewrite Hinst, Hst.
  change (bool_decide (RUNNING = RUNNING)) with true.
  change (bool_decide (SUCCESS = FAILURE) || bool_decide (SUCCESS = ABORTED))
    with false.
  change (bool_decide (SUCCESS = SUCCESS) || bool_decide (SUCCESS = FIXED))
    with true.
  change (bool_decide (SUCCESS ≠ FIXED)) with true. cbv iota.
  unfold get_contingency_message. rewrite Hbind. cbn [bind].
  rewrite (advance_live _ ec inst (contingency_message inst)); auto.
  cbn [base _child_ec_list _child_ptr _contingency_handler_list
       _contingency_message log trace].
  rewrite <- !app_assoc. reflexivity.
Qed.


(** ** Abort and timeout *)



(** ** The properties on the example nodes *)

Lemma setattr_outputs_present (k : string) (v : value) (n : TreeNode) :
  outputs_present n -> outputs_present (setattr k v n).
Proof.
  unfold outputs_present. cbn [out_params attrs setattr with_attrs].
  intros H. eapply Forall_impl; [exact H|]. intros o Ho.
  destruct (decide (k = slot o)) as [->|Hne].
  - rewrite lookup_insert_eq. eauto.
  - rewrite lookup_insert_ne; auto.
Qed.

Lemma set_status_outputs_present (st : NodeStatus) (n : TreeNode) :
  outputs_present n -> outputs_present (set_status st n).
Proof.
  unfold outputs_present. rewrite set_status_out_params, set_status_attrs.
  auto.
Qed.

Lemma HelloWorldAction_succeeds : succeeds HelloWorldAction.
Proof.
  intros n Hidle Hop. cbn [cls_on_init cls_on_tick HelloWorldAction].
  split; [left; exact Hidle|].
  split; [apply set_status_status | apply set_status_outputs_present, Hop].
Qed.

Lemma OneInputAction_succeeds : succeeds OneInputAction.
Proof.
  intros n Hidle Hop. cbn [cls_on_init cls_on_tick OneInputAction].
  split; [left; exact Hidle|].
  split; [apply set_status_status | apply set_status_outputs_present, Hop].
Qed.

Lemma AddTwoNumbersAction_succeeds : succeeds AddTwoNumbersAction.
Proof.
  intros n Hidle Hop. cbn [cls_on_init cls_on_tick AddTwoNumbersAction].
  split; [left; exact Hidle|].
  destruct (attrs n !! "_x") as [[| |x|]|]; try
    (split; [apply set_status_status | apply set_status_outputs_present, Hop]).
  destruct (attrs n !! "_y") as [[| |y|]|];
    (split; [apply set_status_status | apply set_status_outputs_present]);
    try exact Hop.
  apply setattr_outputs_present, Hop.
Qed.

Lemma FailingAction_fails (m : string) : fails_with FAILURE m (FailingAction m).
Proof.
  intros n Hidle Hop. cbn [cls_on_init cls_on_tick FailingAction].
  split; [left; exact Hidle|].
  unfold set_contingency_message. cbn [node_status contingency_message with_message].
  split; [apply set_status_status | reflexivity].
Qed.

(** C8, amended, on an action throttled to 100 ms and ticked four
    times. *)
Lemma throttled_ticks_are_separated_witness :
  throttle_ms throttled_action = Some 100 /\
  on_tick_calls
    (tick_at_times (fun n => n) [1000000; 1050000; 1100000; 1250000]
                   throttled_action)
  = [1250000; 1100000; 1000000] /\
  1000 * 100 <= 1250000 - 1100000.
Proof.
  split; [reflexivity|]. split; [vm_compute; reflexivity|].
  apply (proj2 (proj2 (proj2 (throttled_ticks_are_separated
                                (fun n => n) 100 throttled_action eq_refl
                                ltac:(vm_compute; split; [reflexivity|
                                        intros H; discriminate H]))))
           eq_refl [1000000; 1050000; 1100000; 1250000] 0%nat);
    vm_compute; reflexivity.
Defined.

(** C9 on a sequence without children. *)
Lemma tick_of_empty_sequence_witness :
  _child_ec_list (SequenceNode__init__ "EmptySequence" [] []) = [] /\
  exists s',
    _internal_on_tick no_methods (SequenceNode__init__ "EmptySequence" [] [])
    = Ok s' /\
    node_status (base s') = RUNNING /\ trace s' = [].
Proof.
  split; [reflexivity|].
  destruct (tick_of_empty_sequence
              no_methods (SequenceNode__init__ "EmptySequence" [] []) eq_refl)
    as (s' & H1 & H2 & H3 & H4 & H5 & H6 & H7 & H8 & H9 & H10 & H11 & H12
        & H13 & H14 & H15 & _).
  exists s'. split; [exact H1|]. split; [exact H2 | exact H15].
Defined.

(** C10 on a child that left its output unset. *)
Lemma unset_output_is_not_transferred_witness :
  exists self',
    _bind_out_params Parent0 unset_output_child = Ok self' /\
    attrs (base self') !! "_sum" = attrs (base Parent0) !! "_sum" /\
    In (WarnOutputNotSet "AddTwoNumbersAction" "?z") (log self').
Proof.
  destruct (unset_output_is_not_transferred
              Parent0 unset_output_child
              (set_status SUCCESS (instantiate AddTwoNumbersAction)) eq_refl)
    as (self' & Hrun & Hk & _ & Hw).
  { repeat constructor. eexists. reflexivity. }
  exists self'. split; [exact Hrun|]. split.
  - destruct (Hk "_sum") as [Hsame | (j & o & p & v & Ho & Hv & Hne & _)];
      [exact Hsame|].
    exfalso. destruct j as [|j].
    + cbv in Ho. injection Ho as <-. cbv in Hv. injection Hv as <-.
      apply Hne. reflexivity.
    + destruct j; discriminate Ho.
  - apply (Hw 0%nat "?z"); reflexivity.
Defined.



Lemma three_children_sequence_good :
  Forall (fun ec => call_ok (attrs (base three_children_sequence)) ec
                    /\ succeeds (node ec))
         (_child_ec_list three_children_sequence).
Proof.
  constructor; [split; [|apply HelloWorldAction_succeeds]|].
  { unfold call_ok. cbn. repeat split; try lia; repeat constructor. }
  constructor; [split; [|apply OneInputAction_succeeds]|].
  { unfold call_ok. cbn. repeat split; try lia; repeat constructor;
      discriminate. }
  constructor; [split; [|apply AddTwoNumbersAction_succeeds]|].
  { unfold call_ok. cbn. repeat split; try lia; repeat constructor;
      discriminate. }
  constructor.
Qed.







(** * Further properties of the code *)

(** ** The declaration string *)

Lemma string_app_assoc (a b c : string) :
  ((a ++ b) ++ c)%string = (a ++ b ++ c)%string.
Proof.
  induction a as [|x a IH]; [reflexivity|].
  change (String x ((a ++ b) ++ c) = String x (a ++ b ++ c))%string.
  f_equal. exact IH.
Qed.

Lemma name_char_parts (c : ascii) :
  name_char c = true -> is_space c = false /\ Ascii.eqb c "=" = false.
Proof.
  unfold name_char. intros H.
  apply andb_true_iff in H as [H He]. apply andb_true_iff in H as [_ Hs].
  apply negb_true_iff in Hs, He. auto.
Qed.

Lemma split_space_plain (p : string) :
  all_chars name_char p = true -> split_space p = [p].
Proof.
  induction p as [|c p IH]; intros H; [reflexivity|].
  simpl in H. apply andb_true_iff in H as [Hc Hp].
  cbn [split_space]. rewrite (IH Hp).
  destruct (Ascii.eqb_spec c " ") as [->|_]; [discriminate|reflexivity].
Qed.

Lemma split_space_app (p x : string) :
  all_chars name_char p = true ->
  split_space (p ++ " " ++ x) = p :: split_space x.
Proof.
  induction p as [|c p IH]; intros H; [reflexivity|].
  simpl in H. apply andb_true_iff in H as [Hc Hp].
  change (String c p ++ " " ++ x)%string with (String c (p ++ " " ++ x)).
  cbn [split_space]. rewrite (IH Hp).
  destruct (Ascii.eqb_spec c " ") as [->|_]; [discriminate|reflexivity].
Qed.

Lemma name_ok_chars (p : string) : name_ok p = true -> all_chars name_char p = true.
Proof. unfold name_ok. intros H. apply andb_true_iff in H as [_ H]. exact H. Qed.

Lemma split_space_join (names : list string) :
  names <> [] ->
  Forall (fun p => name_ok p = true) names ->
  split_space (join_names names) = names.
Proof.
  induction names as [|p rest IH]; intros Hne HF; [contradiction|].
  inversion HF as [|? ? Hp Hrest]; subst.
  destruct rest as [|q rest].
  - simpl. apply split_space_plain, name_ok_chars, Hp.
  - change (join_names (p :: q :: rest))
      with (p ++ " " ++ join_names (q :: rest))%string.
    rewrite split_space_app by apply name_ok_chars, Hp.
    rewrite IH; [reflexivity | discriminate | exact Hrest].
Qed.

Lemma rstrip_plain (p : string) :
  all_chars name_char p = true -> rstrip p = p.
Proof.
  induction p as [|c p IH]; intros H; [reflexivity|].
  simpl in H. apply andb_true_iff in H as [Hc Hp].
  cbn [rstrip]. rewrite (IH Hp). destruct p; [|reflexivity].
  apply name_char_parts in Hc as [Hc _]. rewrite Hc. reflexivity.
Qed.

Lemma rstrip_app_fixed (x y : string) :
  rstrip y = y -> y <> EmptyString -> rstrip (x ++ y) = (x ++ y)%string.
Proof.
  intros Hy Hne. induction x as [|c x IH]; [exact Hy|].
  change (String c x ++ y)%string with (String c (x ++ y)).
  cbn [rstrip]. rewrite IH.
  destruct (x ++ y)%string eqn:E; [|reflexivity].
  destruct x; simpl in E; [contradiction | discriminate].
Qed.

Lemma rstrip_app_space (x : string) : rstrip (x ++ " ") = rstrip x.
Proof.
  induction x as [|c x IH]; [reflexivity|].
  change (String c x ++ " ")%string with (String c (x ++ " ")).
  cbn [rstrip]. rewrite IH. reflexivity.
Qed.

Lemma join_names_nonempty (names : list string) :
  names <> [] ->
  Forall (fun p => name_ok p = true) names ->
  exists c r, join_names names = String c r /\ is_space c = false.
Proof.
  intros Hne HF. destruct names as [|p rest]; [contradiction|].
  inversion HF as [|? ? Hp _]; subst.
  unfold name_ok in Hp. apply andb_true_iff in Hp as [Hp1 Hp2].
  destruct p as [|c p]; [discriminate|].
  simpl in Hp2. apply andb_true_iff in Hp2 as [Hc _].
  apply name_char_parts in Hc as [Hc _].
  destruct rest; simpl; eauto.
Qed.

Lemma rstrip_join (names : list string) :
  Forall (fun p => name_ok p = true) names ->
  rstrip (join_names names) = join_names names.
Proof.
  induction names as [|p rest IH]; intros HF; [reflexivity|].
  inversion HF as [|? ? Hp Hrest]; subst.
  destruct rest as [|q rest].
  - simpl. apply rstrip_plain, name_ok_chars, Hp.
  - change (join_names (p :: q :: rest))
      with (p ++ " " ++ join_names (q :: rest))%string.
    rewrite <- string_app_assoc. apply rstrip_app_fixed.
    + apply IH, Hrest.
    + destruct (join_names_nonempty (q :: rest)) as (c & r & -> & _);
        [discriminate | exact Hrest | discriminate].
Qed.

Lemma strip_join (names : list string) :
  Forall (fun p => name_ok p = true) names ->
  strip (join_names names) = join_names names /\
  strip (join_names names ++ " ") = join_names names /\
  strip (" " ++ join_names names) = join_names names.
Proof.
  intros HF. pose proof (rstrip_join names HF) as Hr.
  destruct names as [|p rest]; [repeat split; reflexivity|].
  destruct (join_names_nonempty (p :: rest)) as (c & r & E & Hc);
    [discriminate | exact HF |].
  rewrite E in Hr |- *. unfold strip. split; [|split].
  - cbn [lstrip]. rewrite Hc. exact Hr.
  - change (String c r ++ " ")%string with (String c (r ++ " ")).
    cbn [lstrip]. rewrite Hc.
    change (String c (r ++ " ")) with (String c r ++ " ")%string.
    rewrite rstrip_app_space. exact Hr.
  - change (lstrip (" " ++ String c r)) with (lstrip (String c r)).
    cbn [lstrip]. rewrite Hc. exact Hr.
Qed.

Lemma all_chars_app (f : ascii -> bool) (a b : string) :
  all_chars f (a ++ b) = all_chars f a && all_chars f b.
Proof.
  induction a as [|c a IH]; [reflexivity|].
  change (all_chars f (String c a ++ b))
    with (f c && all_chars f (a ++ b)).
  rewrite IH, andb_assoc. reflexivity.
Qed.

(** A string without [=] is one part; so is what stands before the first
    [=>]. *)
Lemma split_arrow_plain (a : string) :
  all_chars (fun c => negb (Ascii.eqb c "=")) a = true ->
  split_arrow a = [a] /\
  forall b, split_arrow (a ++ "=>" ++ b) = a :: split_arrow b.
Proof.
  induction a as [|c a IH]; intros H.
  - split; reflexivity.
  - simpl in H. apply andb_true_iff in H as [Hc Ha].
    apply negb_true_iff in Hc.
    destruct (IH Ha) as [IH1 IH2]. split.
    + cbn [split_arrow]. rewrite Hc, IH1. destruct a; reflexivity.
    + intros b.
      change (String c a ++ "=>" ++ b)%string
        with (String c (a ++ "=>" ++ b)).
      cbn [split_arrow]. rewrite Hc, IH2.
      destruct (a ++ "=>" ++ b)%string eqn:E; [|reflexivity].
      destruct a; discriminate.
Qed.

Lemma join_names_no_eq (names : list string) :
  Forall (fun p => name_ok p = true) names ->
  all_chars (fun c => negb (Ascii.eqb c "=")) (join_names names) = true.
Proof.
  assert (Hname : forall p, name_ok p = true ->
                  all_chars (fun c => negb (Ascii.eqb c "=")) p = true).
  { intros p Hp. apply name_ok_chars in Hp.
    induction p as [|c p IH]; [reflexivity|].
    simpl in Hp |- *. apply andb_true_iff in Hp as [Hc Hp].
    apply name_char_parts in Hc as [_ Hc].
    rewrite Hc. apply IH, Hp. }
  induction names as [|p rest IH]; intros HF; [reflexivity|].
  inversion HF as [|? ? Hp Hrest]; subst.
  destruct rest as [|q rest]; [apply Hname, Hp|].
  change (join_names (p :: q :: rest))
    with (p ++ " " ++ join_names (q :: rest))%string.
  rewrite !all_chars_app, (Hname p Hp), (IH Hrest). reflexivity.
Qed.

(** X1: a declaration written as in the documentation, the input names and
    the output names separated by single spaces and the two lists by
    [=>], is read back as these two lists, when the names are not empty
    and hold neither white space nor [=]. *)
Theorem parse_params_declaration (ins outs : list string) :
  Forall (fun p => name_ok p = true) ins ->
  Forall (fun p => name_ok p = true) outs ->
  parse_params (Some (declaration ins outs)) = (ins, outs).
Proof.
  intros Hi Ho.
  destruct (strip_join ins Hi) as (Si1 & Si2 & _).
  destruct (strip_join outs Ho) as (_ & _ & So3).
  pose proof (join_names_no_eq ins Hi) as Ei.
  pose proof (join_names_no_eq outs Ho) as Eo.
  assert (Eo' : all_chars (fun c => negb (Ascii.eqb c "="))
                          (" " ++ join_names outs) = true)
    by exact Eo.
  destruct outs as [|o outs].
  - unfold declaration, parse_params.
    rewrite (proj1 (split_arrow_plain _ Ei)).
    destruct ins as [|i ins]; [reflexivity|].
    destruct (join_names_nonempty (i :: ins)) as (c & r & E & _);
      [discriminate | exact Hi |].
    rewrite Si1, split_space_join by first [exact Hi | discriminate].
    rewrite E. reflexivity.
  - destruct ins as [|i ins].
    + unfold declaration, parse_params.
      change ("=> " ++ join_names (o :: outs))%string
        with ("" ++ "=>" ++ (" " ++ join_names (o :: outs)))%string.
      rewrite (proj2 (split_arrow_plain "" eq_refl)).
      rewrite (proj1 (split_arrow_plain _ Eo')).
      cbv iota. rewrite So3, split_space_join by first [exact Ho | discriminate].
      reflexivity.
    + unfold declaration, parse_params.
      change (join_names (i :: ins) ++ " => " ++ join_names (o :: outs))%string
        with (join_names (i :: ins)
              ++ " " ++ "=>" ++ (" " ++ join_names (o :: outs)))%string.
      rewrite <- string_app_assoc.
      assert (Ei' : all_chars (fun c => negb (Ascii.eqb c "="))
                              (join_names (i :: ins) ++ " ") = true).
      { rewrite all_chars_app, Ei. reflexivity. }
      rewrite (proj2 (split_arrow_plain _ Ei')).
      rewrite (proj1 (split_arrow_plain _ Eo')).
      cbv iota. rewrite Si2, So3.
      rewrite !split_space_join by first [assumption | discriminate].
      destruct (join_names_nonempty (i :: ins)) as (c & r & E & _);
        [discriminate | exact Hi |].
      rewrite E. reflexivity.
Qed.

Lemma cons_to_first_length (c : ascii) (l : list string) :
  l <> [] -> length (cons_to_first c l) = length l.
Proof. destruct l; [contradiction|reflexivity]. Qed.

Lemma split_arrow_nonempty (s : string) : split_arrow s <> [].
Proof.
  assert (H : forall c l, cons_to_first c l <> [])
    by (intros c l; destruct l; discriminate).
  destruct s as [|c [|c' s]]; cbn [split_arrow];
    try discriminate; try apply H.
  destruct (Ascii.eqb c "=" && Ascii.eqb c' ">"); [discriminate|apply H].
Qed.

Lemma split_arrow_cons (c c' : ascii) (s : string) :
  split_arrow (String c (String c' s))
  = if Ascii.eqb c "=" && Ascii.eqb c' ">"
    then EmptyString :: split_arrow s
    else cons_to_first c (split_arrow (String c' s)).
Proof. reflexivity. Qed.

(** Every [=>] that is written adds one part, whatever stands around it. *)
Lemma split_arrow_length (n : nat) :
  forall a b : string,
    (String.length a <= n)%nat ->
    length (split_arrow (a ++ "=>" ++ b))
    = (length (split_arrow a) + length (split_arrow b))%nat.
Proof.
  induction n as [|n IH]; intros a b Hlen.
  - destruct a; [reflexivity | simpl in Hlen; lia].
  - destruct a as [|c a]; [reflexivity|].
    simpl in Hlen.
    destruct a as [|c' a].
    + change (String c "" ++ "=>" ++ b)%string
        with (String c (String "=" (String ">" b))).
      rewrite split_arrow_cons.
      change (Ascii.eqb "=" ">") with false. rewrite andb_false_r.
      rewrite cons_to_first_length by apply split_arrow_nonempty.
      reflexivity.
    + change (String c (String c' a) ++ "=>" ++ b)%string
        with (String c (String c' (a ++ "=>" ++ b))).
      rewrite !split_arrow_cons.
      destruct (Ascii.eqb c "=" && Ascii.eqb c' ">").
      * simpl in Hlen. cbn [length]. rewrite IH by lia. reflexivity.
      * rewrite !cons_to_first_length by apply split_arrow_nonempty.
        change (String c' (a ++ "=>" ++ b))
          with (String c' a ++ "=>" ++ b)%string.
        apply IH. simpl in Hlen |- *. lia.
Qed.

(** X2: a declaration that holds [=>] twice or more declares no outputs:
    whatever stands after the first [=>] is dropped without an error. *)
Theorem parse_params_two_arrows (a b c : string) :
  snd (parse_params (Some (a ++ "=>" ++ b ++ "=>" ++ c)%string)) = [].
Proof.
  unfold parse_params. cbn [snd].
  pose proof (split_arrow_length (String.length a) a (b ++ "=>" ++ c)%string
                (Nat.le_refl _)) as H1.
  pose proof (split_arrow_length (String.length b) b c (Nat.le_refl _)) as H2.
  pose proof (split_arrow_nonempty a) as Na.
  pose proof (split_arrow_nonempty b) as Nb.
  pose proof (split_arrow_nonempty c) as Nc.
  destruct (split_arrow (a ++ "=>" ++ b ++ "=>" ++ c)%string)
    as [|p0 [|p1 [|p2 l]]];
    try reflexivity.
  exfalso. rewrite H2 in H1. simpl in H1.
  destruct (split_arrow a); [contradiction|].
  destruct (split_arrow b); [contradiction|].
  destruct (split_arrow c); [contradiction|].
  simpl in H1. lia.
Qed.

(** X1 on the declaration of the documentation. *)
Lemma parse_params_declaration_witness :
  parse_params (Some "?x ?y => ?z") = (["?x"; "?y"], ["?z"]).
Proof.
  apply (parse_params_declaration ["?x"; "?y"] ["?z"]); repeat constructor.
Defined.

(** ** Slots and timer of a new node *)

Lemma fold_create_lookup (l : list string) :
  forall (a : gmap string value) (k : string),
    (In k (map slot l) ->
     fold_left (fun acc p => <[slot p := VNone]> acc) l a !! k = Some VNone) /\
    (~ In k (map slot l) ->
     fold_left (fun acc p => <[slot p := VNone]> acc) l a !! k = a !! k).
Proof.
  induction l as [|p l IH]; intros a k.
  - simpl. split; [contradiction | reflexivity].
  - cbn [fold_left map]. destruct (IH (<[slot p := VNone]> a) k) as [IH1 IH2].
    destruct (in_dec string_dec k (map slot l)) as [Hin | Hnin].
    + split; [intros _; apply IH1, Hin|]. intros Hn. exfalso. apply Hn.
      right. exact Hin.
    + split.
      * intros [Heq | Hin]; [|contradiction].
        rewrite (IH2 Hnin), <- Heq. apply lookup_insert_eq.
      * intros Hn. rewrite (IH2 Hnin). apply lookup_insert_ne.
        intros Heq. apply Hn. left. exact Heq.
Qed.

(** X3: a new node whose declared names are plain (identifiers that are not
    named like an attribute of the classes, once the first [?] is replaced
    by [_]) has a slot for every declared name that is not empty, under
    the name with its first [?] replaced by [_], and no other slot; every
    slot holds None. *)
Theorem new_node_slots (cls : string) (ins outs : list string) (k : string) :
  Forall (fun p => p = "" \/ plain_name p = true) (ins ++ outs) ->
  let declared :=
    List.filter (fun p => negb (String.eqb p "")) (ins ++ outs) in
  (In k (map slot declared) ->
   attrs (TreeNode__init__ cls ins outs) !! k = Some VNone) /\
  (~ In k (map slot declared) ->
   attrs (TreeNode__init__ cls ins outs) !! k = None).
Proof.
  intros _ declared. subst declared.
  cbn [TreeNode__init__ attrs]. unfold create_params.
  rewrite <- fold_left_app, <- List.filter_app.
  destruct (fold_create_lookup
              (List.filter (fun p => negb (String.eqb p "")) (ins ++ outs))
              ∅ k) as [H1 H2].
  split; [exact H1|]. intros Hn. rewrite (H2 Hn). apply lookup_empty.
Qed.

(** X4: [set_timeout] on a node that already has a timer replaces the
    timer without cancelling it: nothing is cancelled by the second call,
    and what cancels the timer afterwards (a final status or
    [cancel_timeout_timer]) cancels the second timer only. *)
Theorem set_timeout_replaces_without_cancel
    (n : TreeNode) (t1 t2 : Z) (st : NodeStatus) :
  let n2 := set_timeout t2 (set_timeout t1 n) in
  timeout_timer n2 = Some (mkTimer t2) /\
  cancelled n2 = cancelled n /\
  cancelled (cancel_timeout_timer n2) = mkTimer t2 :: cancelled n /\
  (is_final st = true ->
   cancelled (set_status st n2) = mkTimer t2 :: cancelled n /\
   timeout_timer (set_status st n2) = None).
Proof.
  intros n2. split; [reflexivity|]. split; [reflexivity|].
  split; [reflexivity|].
  intros Hst. destruct st; try discriminate; split; reflexivity.
Qed.

(** X3 on the declaration of the documentation. *)
Lemma new_node_slots_witness :
  attrs (TreeNode__init__ "AddTwoNumbersAction" ["?x"; "?y"] ["?z"]) !! "_z"
  = Some VNone /\
  attrs (TreeNode__init__ "AddTwoNumbersAction" ["?x"; "?y"] ["?z"]) !! "_w"
  = None.
Proof.
  split.
  - apply (new_node_slots "AddTwoNumbersAction" ["?x"; "?y"] ["?z"] "_z").
    + repeat constructor; right; reflexivity.
    + right. right. left. reflexivity.
  - apply (new_node_slots "AddTwoNumbersAction" ["?x"; "?y"] ["?z"] "_w").
    + repeat constructor; right; reflexivity.
    + intros [H | [H | [H | []]]]; discriminate H.
Defined.

(** X4 on a node that is given two timeouts and then succeeds. *)
Lemma set_timeout_replaces_without_cancel_witness :
  cancelled (set_status SUCCESS (set_timeout 500 running_plain_node))
  = [mkTimer 500].
Proof.
  apply (proj1 (proj2 (proj2 (proj2
           (set_timeout_replaces_without_cancel
              (set_status RUNNING (TreeNode__init__ "PlainNode" [] []))
              1000 500 SUCCESS))) eq_refl)).
Defined.

(** ** ActionNode: series of ticks *)

(** X5: an action whose status is neither IDLE nor RUNNING is left as it is
    by any series of ticks: [on_tick] is not called again, with or without
    throttle. *)
Theorem finished_action_is_not_ticked
    (on_tick : TreeNode -> TreeNode) (times : list Z) (a : ActionNode) :
  is_active (action_base a) = false ->
  tick_at_times on_tick times a = a.
Proof.
  intros Hst. unfold tick_at_times.
  induction times as [|t times IH]; [reflexivity|].
  cbn [fold_left].
  assert (E : ActionNode_on_tick on_tick t a = a).
  { unfold ActionNode_on_tick, get_status. unfold is_active in Hst.
    rewrite Hst. destruct (throttle_ms a) as [T|]; [|reflexivity].
    destruct (T <=? elapsed_ms t (last_ts a)); reflexivity. }
  rewrite E. exact IH.
Qed.

Lemma last_nonempty_default (l : list Z) (x d1 d2 : Z) :
  List.last (x :: l) d1 = List.last (x :: l) d2.
Proof.
  revert x. induction l as [|y l IH]; intros x; [reflexivity|].
  change (List.last (y :: l) d1 = List.last (y :: l) d2). apply IH.
Qed.

(** X6: ticks that come at least the throttle apart are all forwarded: as
    long as [on_tick] leaves the status IDLE or RUNNING, it is called once
    in every tick of the series, and the last tick is the one
    remembered. *)
Theorem spaced_ticks_are_forwarded
    (on_tick : TreeNode -> TreeNode) (times : list Z) :
  (forall n, is_active n = true -> is_active (on_tick n) = true) ->
  forall a : ActionNode,
    is_active (action_base a) = true ->
    ticks_due (throttle_ms a) (last_ts a) times = true ->
    tick_at_times on_tick times a
    = mkActionNode (Nat.iter (length times) on_tick (action_base a))
                   (throttle_ms a)
                   (List.last times (last_ts a))
                   (rev times ++ on_tick_calls a).
Proof.
  intros Hkeep. unfold tick_at_times.
  induction times as [|t times IH]; intros a Hact Hdue.
  - destruct a; reflexivity.
  - cbn [fold_left].
    assert (E : ActionNode_on_tick on_tick t a
                = mkActionNode (on_tick (action_base a)) (throttle_ms a) t
                               (t :: on_tick_calls a)).
    { unfold ActionNode_on_tick, get_status. unfold is_active in Hact.
      rewrite Hact. unfold ticks_due in Hdue.
      destruct (throttle_ms a) as [T|]; [|reflexivity].
      cbn [spaced] in Hdue. apply andb_true_iff in Hdue as [-> _].
      reflexivity. }
    rewrite E, IH.
    + cbn [action_base throttle_ms last_ts on_tick_calls length rev].
      rewrite Nat.iter_succ_r, <- app_assoc. f_equal.
      destruct times as [|z times]; [reflexivity|].
      change (List.last (t :: z :: times) (last_ts a))
        with (List.last (z :: times) (last_ts a)).
      apply last_nonempty_default.
    + apply Hkeep, Hact.
    + cbn [throttle_ms last_ts]. unfold ticks_due in Hdue |- *.
      destruct (throttle_ms a) as [T|]; [|reflexivity].
      cbn [spaced] in Hdue. apply andb_true_iff in Hdue as [_ H]. exact H.
Qed.

(** X5 on a finished action ticked three times. *)
Lemma finished_action_is_not_ticked_witness :
  tick_at_times (set_status RUNNING) [1000000; 2000000; 3000000]
    (mkActionNode (set_status SUCCESS (TreeNode__init__ "Done" [] []))
                  None datetime_min [])
  = mkActionNode (set_status SUCCESS (TreeNode__init__ "Done" [] []))
                 None datetime_min [].
Proof. apply finished_action_is_not_ticked. reflexivity. Defined.

(** X6 on the throttled action ticked every 100 ms. *)
Lemma spaced_ticks_are_forwarded_witness :
  on_tick_calls
    (tick_at_times (set_status RUNNING) [1000000; 1100000; 1200000]
                   throttled_action)
  = [1200000; 1100000; 1000000].
Proof.
  rewrite (spaced_ticks_are_forwarded (set_status RUNNING)
             [1000000; 1100000; 1200000]).
  - reflexivity.
  - intros n _. unfold is_active. rewrite set_status_status. reflexivity.
  - reflexivity.
  - reflexivity.
Defined.

(** ** Wildcards *)

(** X7: the patterns [*] and the empty string match every name, the empty
    one included: a registration with the class pattern [*] and one of
    these message patterns applies to a child exactly when its status is
    in the status list. *)
Theorem star_and_empty_pattern_match_everything
    (h : ContingencyHandler) (inst : TreeNode) :
  matcher_name (ch_class h) = "*" ->
  ch_message h = "*" \/ ch_message h = "" ->
  handler_matches h inst
  = Ok (bool_decide (node_status inst ∈ ch_status h)).
Proof.
  intros Hc Hm. unfold handler_matches, get_status. rewrite Hc.
  change (wildcard_to_regex "*") with (@Ok (list re_token) [ReAnyStar]).
  cbn [bind].
  assert (Hstar : forall s, re_match [ReAnyStar] s = true)
    by (intros s; rewrite re_match_star; reflexivity).
  destruct Hm as [-> | ->].
  - change (wildcard_to_regex "*") with (@Ok (list re_token) [ReAnyStar]).
    cbn [bind]. rewrite !Hstar, andb_true_r. reflexivity.
  - change (wildcard_to_regex "") with (@Ok (list re_token) []).
    cbn [bind re_match]. rewrite Hstar, andb_true_r. reflexivity.
Qed.

Lemma literal_plain (w : string) :
  all_chars literal_char w = true -> plain_wildcard w = true.
Proof.
  induction w as [|c w IH]; intros H; [reflexivity|].
  simpl in H. apply andb_true_iff in H as [Hc Hw].
  cbn [plain_wildcard]. rewrite (IH Hw), andb_true_r.
  unfold plain_char. unfold literal_char in Hc. rewrite Hc.
  apply orb_true_r.
Qed.

Lemma re_match_literal (w : string) :
  all_chars literal_char w = true ->
  forall s, re_match (wildcard_tokens w) s = String.prefix w s.
Proof.
  induction w as [|c w IH]; intros H s.
  - destruct s; reflexivity.
  - simpl in H. apply andb_true_iff in H as [Hc Hw].
    unfold literal_char in Hc. apply negb_true_iff, orb_false_iff in Hc
      as [_ Hsp].
    assert (Hq : Ascii.eqb c "?" = false).
    { destruct (Ascii.eqb_spec c "?") as [->|]; [discriminate Hsp|reflexivity]. }
    assert (Hs : Ascii.eqb c "*" = false).
    { destruct (Ascii.eqb_spec c "*") as [->|]; [discriminate Hsp|reflexivity]. }
    cbn [wildcard_tokens]. rewrite Hq, Hs.
    destruct s as [|a s]; [reflexivity|].
    cbn [re_match String.prefix]. rewrite (IH Hw).
    destruct (ascii_dec c a) as [->|Hne].
    + rewrite Ascii.eqb_refl. reflexivity.
    + destruct (Ascii.eqb_spec a c) as [->|]; [contradiction|reflexivity].
Qed.

(** X8: a pattern without wildcard, made of characters that stand for
    themselves, matches exactly the names that start with it; it need not
    be the whole name. *)
Theorem literal_pattern_matches_prefixes (w : string) :
  all_chars literal_char w = true ->
  exists r,
    wildcard_to_regex w = Ok r /\
    forall s, re_match r s = String.prefix w s.
Proof.
  intros H. exists (wildcard_tokens w). split.
  - apply wildcard_to_regex_plain, literal_plain, H.
  - apply re_match_literal, H.
Qed.

Lemma str_replace_dot_question (w : string) :
  str_replace "?" "." (str_replace "." "?" w) = str_replace "?" "." w.
Proof.
  induction w as [|c w IH]; [reflexivity|].
  cbn [str_replace].
  destruct (Ascii.eqb_spec c ".") as [->|Hd].
  - change (Ascii.eqb "." "?") with false. cbv iota.
    change ("?" ++ str_replace "." "?" w)%string
      with (String "?" (str_replace "." "?" w)).
    cbn [str_replace]. change (Ascii.eqb "?" "?") with true. cbv iota.
    rewrite IH. reflexivity.
  - cbn [str_replace]. rewrite IH. reflexivity.
Qed.

(** X9: a [.] in a pattern is not taken literally: it stands for one
    character, like [?]; writing [?] for every [.] gives the same
    matcher. *)
Theorem dot_in_pattern_is_a_wildcard (w : string) :
  wildcard_to_regex w = wildcard_to_regex (str_replace "." "?" w).
Proof.
  unfold wildcard_to_regex. rewrite str_replace_dot_question. reflexivity.
Qed.

(** X7 on a handler registered for every class and message. *)
Lemma star_and_empty_pattern_match_everything_witness :
  handler_matches (mkContingencyHandler (ByName "*") [FAILURE] "*" "on_failure")
                  failed_SayHelloAction
  = Ok true.
Proof.
  apply (star_and_empty_pattern_match_everything
           (mkContingencyHandler (ByName "*") [FAILURE] "*" "on_failure")
           failed_SayHelloAction eq_refl (or_introl eq_refl)).
Defined.

(** X8 on the message pattern of the sequence test. *)
Lemma literal_pattern_matches_prefixes_witness :
  exists r,
    wildcard_to_regex "BOB_IS_NOT_ALLOWED" = Ok r /\
    re_match r "BOB_IS_NOT_ALLOWED_HERE" = true /\
    re_match r "BOB" = false.
Proof.
  destruct (literal_pattern_matches_prefixes "BOB_IS_NOT_ALLOWED" eq_refl)
    as (r & Hr & Hm).
  exists r. split; [exact Hr|]. rewrite !Hm. split; reflexivity.
Defined.

(** ** Parameter binding: what is written *)

Lemma bind_in_loop_values (self : TreeNode) (vars : list value) :
  forall (i : nat) (inst : TreeNode),
    (i + length vars <= length (in_params inst))%nat ->
    Forall (fun v => in_param_ok (attrs self) v = true) vars ->
    NoDup (map slot (take (length vars) (drop i (in_params inst)))) ->
    exists inst',
      bind_in_loop self i vars inst = Ok inst' /\
      inst' = with_attrs (attrs inst') inst /\
      (forall j var name,
         vars !! j = Some var ->
         in_params inst !! (i + j)%nat = Some name ->
         exists v, resolve_in_param self var = Ok v
                   /\ attrs inst' !! slot name = Some v) /\
      (forall k,
         ~ In k (map slot (take (length vars) (drop i (in_params inst)))) ->
         attrs inst' !! k = attrs inst !! k).
Proof.
  induction vars as [|var rest IH]; intros i inst Hlen HF Hnd.
  - exists inst. simpl. repeat split; auto.
    + destruct inst; reflexivity.
    + intros j var name Hj. discriminate.
  - inversion HF as [|? ? Hok HF']; subst. simpl in Hlen.
    destruct (resolve_in_param_ok self var Hok) as [v Hv].
    destruct (lookup_lt_is_Some_2 (in_params inst) i ltac:(lia)) as [name Hn].
    cbn [bind_in_loop]. rewrite Hv, Hn. cbn [bind from_option].
    assert (Hdrop : take (length (var :: rest)) (drop i (in_params inst))
                    = name :: take (length rest) (drop (S i) (in_params inst))).
    { rewrite (drop_S _ _ _ Hn). reflexivity. }
    rewrite Hdrop in Hnd |- *. cbn [map] in Hnd |- *.
    apply NoDup_cons in Hnd as [Hfresh Hnd'].
    destruct (IH (S i) (setattr (slot name) v inst))
      as (inst' & Hrun & Hw & Hval & Hframe).
    { cbn [setattr with_attrs in_params]. lia. }
    { exact HF'. }
    { exact Hnd'. }
    exists inst'. split; [exact Hrun|]. split; [rewrite Hw; reflexivity|].
    cbn [setattr with_attrs in_params attrs] in Hval, Hframe.
    split.
    + intros j var' name' Hj Hname. destruct j as [|j].
      * simpl in Hj. injection Hj as <-. rewrite Nat.add_0_r in Hname.
        rewrite Hn in Hname. injection Hname as <-.
        exists v. split; [exact Hv|].
        rewrite Hframe.
        -- apply lookup_insert_eq.
        -- rewrite <- list_elem_of_In. exact Hfresh.
      * apply (Hval j var' name' Hj).
        rewrite <- Hname. f_equal. lia.
    + intros k Hk. rewrite Hframe.
      * apply lookup_insert_ne. intros Heq. apply Hk. left. exact Heq.
      * intros Hin. apply Hk. right. exact Hin.
Qed.

(** X10: with no more arguments than declared inputs, every argument
    resolvable and the bound names distinct, [_bind_in_params] returns:
    the slot of the i-th declared input holds the i-th argument, a literal
    as it is and a [?] reference as the value of that slot of the parent;
    every other slot of the child is unchanged; the parent is unchanged
    but for its log, which gets the arity warning exactly when the two
    lengths differ. *)
Theorem bind_in_params_binds_positionally
    (self : ControlNode) (child_ec : ExecutionContext) (inst : TreeNode) :
  instance child_ec = Some inst ->
  (length (call_in_params child_ec) <= length (in_params inst))%nat ->
  Forall (fun v => in_param_ok (attrs (base self)) v = true)
         (call_in_params child_ec) ->
  NoDup (map slot (take (length (call_in_params child_ec)) (in_params inst))) ->
  exists self' inst',
    _bind_in_params self child_ec
    = Ok (self', with_instance (Some inst') child_ec) /\
    base self' = base self /\
    _child_ec_list self' = _child_ec_list self /\
    _child_ptr self' = _child_ptr self /\
    log self'
    = log self
      ++ (if bool_decide (length (call_in_params child_ec)
                          = length (in_params inst))
          then []
          else [WarnArity (cls_name (node child_ec))
                          (length (in_params inst))
                          (length (call_in_params child_ec))]) /\
    inst' = with_attrs (attrs inst') inst /\
    (forall i var name,
       call_in_params child_ec !! i = Some var ->
       in_params inst !! i = Some name ->
       exists v, resolve_in_param (base self) var = Ok v
                 /\ attrs inst' !! slot name = Some v) /\
    (forall k,
       ~ In k (map slot (take (length (call_in_params child_ec))
                              (in_params inst))) ->
       attrs inst' !! k = attrs inst !! k).
Proof.
  intros Hinst Hlen HF Hnd.
  destruct (bind_in_loop_values (base self) (call_in_params child_ec)
              0 inst) as (inst' & Hrun & Hw & Hval & Hframe); auto.
  unfold _bind_in_params. rewrite Hinst. cbn [from_option bind].
  destruct (decide (length (call_in_params child_ec)
                    = length (in_params inst))) as [Heq | Hne].
  - rewrite bool_decide_eq_false_2 by (intros H; apply H, Heq).
    rewrite bool_decide_eq_true_2 by exact Heq.
    rewrite Hrun. cbn [bind]. eexists _, inst'. split; [reflexivity|].
    cbn [emit base _child_ec_list _child_ptr log].
    rewrite app_nil_r. repeat split; auto.
  - rewrite bool_decide_eq_true_2 by exact Hne.
    rewrite bool_decide_eq_false_2 by exact Hne.
    cbn [warn base]. rewrite Hrun. cbn [bind].
    eexists _, inst'. split; [reflexivity|].
    cbn [emit warn base _child_ec_list _child_ptr log].
    repeat split; auto.
Qed.

(** X11: with more arguments than declared inputs, all resolvable,
    [_bind_in_params] raises IndexError, whatever the parent and the
    child. *)
Theorem bind_in_params_raises_on_too_many_arguments
    (self : ControlNode) (child_ec : ExecutionContext) (inst : TreeNode) :
  instance child_ec = Some inst ->
  (length (in_params inst) < length (call_in_params child_ec))%nat ->
  Forall (fun v => in_param_ok (attrs (base self)) v = true)
         (call_in_params child_ec) ->
  _bind_in_params self child_ec = Raise IndexError.
Proof.
  intros Hinst Hlen HF. unfold _bind_in_params. rewrite Hinst.
  cbn [from_option bind].
  assert (E : forall s : ControlNode,
             base s = base self ->
             bind_in_loop (base s) 0 (call_in_params child_ec) inst
             = Raise IndexError).
  { intros s ->. apply bind_in_loop_too_many; auto; lia. }
  destruct (bool_decide _); rewrite E; reflexivity.
Qed.

Lemma bind_in_loop_first_error (self : TreeNode) (pre : list value)
    (var : value) (post : list value) (e : exn) :
  forall (i : nat) (inst : TreeNode),
    (i + length pre <= length (in_params inst))%nat ->
    Forall (fun v => in_param_ok (attrs self) v = true) pre ->
    resolve_in_param self var = Raise e ->
    bind_in_loop self i (pre ++ var :: post) inst = Raise e.
Proof.
  induction pre as [|p pre IH]; intros i inst Hlen HF Hbad.
  - cbn [app bind_in_loop]. rewrite Hbad. reflexivity.
  - inversion HF as [|? ? Hok HF']; subst. simpl in Hlen.
    destruct (resolve_in_param_ok self p Hok) as [v Hv].
    destruct (lookup_lt_is_Some_2 (in_params inst) i ltac:(lia)) as [name Hn].
    change ((p :: pre) ++ var :: post) with (p :: (pre ++ var :: post)).
    cbn [bind_in_loop]. rewrite Hv, Hn. cbn [bind from_option].
    apply IH; auto. cbn [setattr with_attrs in_params]. lia.
Qed.

(** X12: the first argument that cannot be resolved ends
    [_bind_in_params] with its error, when the arguments before it can be
    bound and the declared inputs of the child are not named like an
    attribute of the classes: an empty string raises IndexError, and a [?]
    reference to a slot the parent does not have, whose name is no
    attribute of the classes either, raises AttributeError. *)
Theorem bind_in_params_raises_on_unresolvable_argument
    (self : ControlNode) (child_ec : ExecutionContext) (inst : TreeNode)
    (pre post : list value) (var : value) :
  instance child_ec = Some inst ->
  call_in_params child_ec = pre ++ var :: post ->
  (length pre <= length (in_params inst))%nat ->
  Forall (fun v => in_param_ok (attrs (base self)) v = true) pre ->
  Forall (fun p => free_name p = true) (in_params inst) ->
  Forall (fun v => plain_argument v = true) pre ->
  (var = VStr "" -> _bind_in_params self child_ec = Raise IndexError) /\
  (forall r,
     var = VStr (String "?" r) ->
     node_attribute (String "_" r) = false ->
     attrs (base self) !! String "_" r = None ->
     _bind_in_params self child_ec = Raise AttributeError).
Proof.
  intros Hinst Hcall Hlen HF _ _.
  assert (E : forall e,
             resolve_in_param (base self) var = Raise e ->
             _bind_in_params self child_ec = Raise e).
  { intros e Hbad. unfold _bind_in_params. rewrite Hinst.
    cbn [from_option bind]. rewrite Hcall.
    assert (E' : forall s : ControlNode,
               base s = base self ->
               bind_in_loop (base s) 0 (pre ++ var :: post) inst = Raise e).
    { intros s ->. apply bind_in_loop_first_error; auto. }
    destruct (bool_decide _); rewrite E'; reflexivity. }
  split.
  - intros ->. apply E. reflexivity.
  - intros r -> _ Hmiss. apply E.
    cbn [resolve_in_param]. change (Ascii.eqb "?" "?") with true. cbv iota.
    unfold getattr. change (slot (String "?" r)) with (String "_" r).
    rewrite Hmiss. reflexivity.
Qed.

(** X13: when every declared output of the child exists as a slot and the
    output arguments name distinct slots, [_bind_out_params] returns and
    every output that is not None is transferred: the slot named by the
    output argument at its position holds its value afterwards; an output
    without an argument at its position is dropped, with the warning that
    it is not provided. *)
Theorem bind_out_params_transfers_outputs
    (self : ControlNode) (child_ec : ExecutionContext) (inst : TreeNode) :
  instance child_ec = Some inst ->
  outputs_present inst ->
  NoDup (map slot (call_out_params child_ec)) ->
  exists self',
    _bind_out_params self child_ec = Ok self' /\
    (forall j o p v,
       out_params inst !! j = Some o -> attrs inst !! slot o = Some v ->
       v <> VNone -> call_out_params child_ec !! j = Some p ->
       attrs (base self') !! slot p = Some v) /\
    (forall j o v,
       out_params inst !! j = Some o -> attrs inst !! slot o = Some v ->
       v <> VNone -> call_out_params child_ec !! j = None ->
       In (WarnOutputNotProvided (cls_name (node child_ec)) j) (log self')).
Proof.
  intros Hinst Hop Hnd. unfold _bind_out_params. rewrite Hinst.
  cbn [from_option bind].
  destruct (bind_out_loop_transfers (cls_name (node child_ec))
              (call_out_params child_ec) inst (out_params inst) Hnd 0 self Hop)
    as (self' & Hrun & Hval & Hwarn).
  rewrite Hrun. cbn [bind]. eexists. split; [reflexivity|].
  cbn [emit base log]. split; [exact Hval | exact Hwarn].
Qed.

(** X10 on a parent whose slot [_x] holds 5 and a child that adds
    [?x] and 2. *)
Lemma bind_in_params_binds_positionally_witness :
  exists self' inst',
    _bind_in_params
      (with_base (setattr "_x" (VInt 5) (base Parent0)) Parent0)
      (mkExecutionContext AddTwoNumbersAction [VStr "?x"; VInt 2] ["?sum"]
                          (Some (instantiate AddTwoNumbersAction)))
    = Ok (self',
          with_instance (Some inst')
            (mkExecutionContext AddTwoNumbersAction [VStr "?x"; VInt 2]
                                ["?sum"]
                                (Some (instantiate AddTwoNumbersAction)))) /\
    attrs inst' !! "_x" = Some (VInt 5) /\
    attrs inst' !! "_y" = Some (VInt 2) /\
    attrs inst' !! "_z" = Some VNone.
Proof.
  destruct (bind_in_params_binds_positionally
              (with_base (setattr "_x" (VInt 5) (base Parent0)) Parent0)
              (mkExecutionContext AddTwoNumbersAction [VStr "?x"; VInt 2]
                                  ["?sum"]
                                  (Some (instantiate AddTwoNumbersAction)))
              (instantiate AddTwoNumbersAction) eq_refl)
    as (self' & inst' & Hrun & _ & _ & _ & _ & _ & Hval & Hframe).
  - vm_compute. lia.
  - repeat constructor.
  - apply (bool_decide_unpack _). vm_compute. exact I.
  - exists self', inst'. split; [exact Hrun|].
    destruct (Hval 0%nat (VStr "?x") "?x" eq_refl eq_refl) as (v0 & Hv0 & Hx).
    destruct (Hval 1%nat (VInt 2) "?y" eq_refl eq_refl) as (v1 & Hv1 & Hy).
    vm_compute in Hv0. injection Hv0 as <-.
    vm_compute in Hv1. injection Hv1 as <-.
    split; [exact Hx|]. split; [exact Hy|].
    rewrite (Hframe "_z").
    + vm_compute. reflexivity.
    + vm_compute. intros [H | [H | H]];
        [discriminate H | discriminate H | exact H].
Defined.

(** X11 on a child with one declared input that is given three
    arguments. *)
Lemma bind_in_params_raises_on_too_many_arguments_witness :
  _bind_in_params
    Parent0
    (mkExecutionContext OneInputAction [VInt 1; VStr "two"; VInt 3] []
                        (Some (instantiate OneInputAction)))
  = Raise IndexError.
Proof.
  apply (bind_in_params_raises_on_too_many_arguments
           Parent0
           (mkExecutionContext OneInputAction [VInt 1; VStr "two"; VInt 3] []
                               (Some (instantiate OneInputAction)))
           (instantiate OneInputAction) eq_refl).
  - vm_compute. lia.
  - repeat constructor.
Defined.

(** X12 on a child whose second argument names a slot the parent does not
    have. *)
Lemma bind_in_params_raises_on_unresolvable_argument_witness :
  _bind_in_params
    Parent0
    (mkExecutionContext AddTwoNumbersAction [VInt 1; VStr "?missing"] ["?x"]
                        (Some (instantiate AddTwoNumbersAction)))
  = Raise AttributeError.
Proof.
  refine (proj2 (bind_in_params_raises_on_unresolvable_argument
                   Parent0
                   (mkExecutionContext AddTwoNumbersAction
                                       [VInt 1; VStr "?missing"] ["?x"]
                                       (Some (instantiate AddTwoNumbersAction)))
                   (instantiate AddTwoNumbersAction)
                   [VInt 1] [] (VStr "?missing") eq_refl eq_refl _ _ _ _)
                "missing" eq_refl eq_refl _).
  - vm_compute. lia.
  - repeat constructor.
  - repeat constructor.
  - repeat constructor.
  - vm_compute. reflexivity.
Defined.

(** X13 on the sequence whose child has added 1 and 2 into [?z], bound to
    [?sum]. *)
Lemma bind_out_params_transfers_outputs_witness :
  exists self',
    _bind_out_params
      sequence_with_added_child
      (mkExecutionContext AddTwoNumbersAction [VInt 1; VInt 2] ["?sum"]
                          (Some added_instance))
    = Ok self' /\
    attrs (base self') !! "_sum" = Some (VInt 3).
Proof.
  destruct (bind_out_params_transfers_outputs
              sequence_with_added_child
              (mkExecutionContext AddTwoNumbersAction [VInt 1; VInt 2]
                                  ["?sum"] (Some added_instance))
              added_instance eq_refl)
    as (self' & Hrun & Hval & _).
  - unfold outputs_present.
    change (out_params added_instance) with ["?z"].
    constructor; [|constructor]. exists (VInt 3). vm_compute. reflexivity.
  - apply (bool_decide_unpack _). vm_compute. exact I.
  - exists self'. split; [exact Hrun|].
    apply (Hval 0%nat "?z" "?sum" (VInt 3)).
    + reflexivity.
    + vm_compute. reflexivity.
    + discriminate.
    + reflexivity.
Defined.

(** ** SequenceNode: a child that has not finished *)

(** One tick on a live child that has not finished afterwards. *)
Lemma internal_on_tick_unfinished
    (methods : string -> option (ControlNode -> result ControlNode))
    (s : ControlNode) (ec : ExecutionContext) (inst : TreeNode) :
  _child_ec_list s !! _child_ptr s = Some ec ->
  instance ec = Some inst ->
  is_final (node_status (ticked (node ec) inst)) = false ->
  Forall (fun h => silent_on (node_status (ticked (node ec) inst)) h = true)
         (_contingency_handler_list s) ->
  _internal_on_tick methods s
  = Ok (if is_active inst
        then update_current_child
               (with_instance (Some (cls_on_tick (node ec) inst)) ec)
               (emit (EvTick (cls_name (node ec))) (start s))
        else start s).
Proof.
  intros Hec Hinst Hfin Hsilent.
  destruct (start_running s) as (b & Hstart & Hb & _ & _).
  pose proof (lookup_lt_Some _ _ _ Hec) as Hlt.
  unfold _internal_on_tick. rewrite Hstart.
  set (s0 := mkControlNode b (_child_ec_list s) (_child_ptr s)
               (_contingency_handler_list s) (_contingency_message s)
               (log s) (trace s)).
  rewrite (lookup_nonempty s0 ec Hec).
  unfold observe_current_child.
  assert (Hcreate : create_current_child s0 = Ok s0).
  { unfold create_current_child. rewrite (lookup_current_child s0 ec Hec).
    cbn [bind]. rewrite Hinst. reflexivity. }
  rewrite Hcreate. cbn [bind].
  unfold ticked in Hfin, Hsilent. unfold is_active in *.
  destruct (bool_decide (node_status inst = IDLE)
            || bool_decide (node_status inst = RUNNING)) eqn:Eact.
  - rewrite (tick_current_child_active s0 ec inst Hec Hinst).
    2:{ apply orb_true_iff in Eact as [H | H];
          apply bool_decide_eq_true in H; auto. }
    cbn [bind].
    set (s1 := update_current_child
                 (with_instance (Some (cls_on_tick (node ec) inst)) ec)
                 (emit (EvTick (cls_name (node ec))) s0)).
    assert (Hec1 : _child_ec_list s1 !! _child_ptr s1
                   = Some (with_instance
                             (Some (cls_on_tick (node ec) inst)) ec)).
    { subst s1 s0. unfold update_current_child, emit, with_children.
      cbn [_child_ec_list _child_ptr].
      apply list_lookup_insert_eq, Hlt. }
    rewrite (dispatch_current_child_silent methods s1 _ _ Hec1 eq_refl).
    2:{ exact Hsilent. }
    cbn [bind]. unfold proceed.
    assert (Hrun1 : get_status (base s1) = RUNNING) by exact Hb.
    rewrite Hrun1. change (bool_decide (RUNNING = RUNNING)) with true.
    cbv iota. rewrite (lookup_current_child s1 _ Hec1). cbn [bind].
    cbn [instance with_instance]. unfold get_status.
    destruct (node_status (cls_on_tick (node ec) inst)) eqn:Est;
      try discriminate Hfin;
      (change (bool_decide (_ = FAILURE)) with false;
       change (bool_decide (_ = ABORTED)) with false;
       change (bool_decide (_ = SUCCESS)) with false;
       change (bool_decide (_ = FIXED)) with false;
       cbn [orb]; cbv iota;
       cbn [bind]; unfold finish, get_status;
       change (node_status (base s1)) with (node_status b); rewrite Hb;
       reflexivity).
  - assert (Hi : node_status inst <> IDLE).
    { intros H. rewrite H in Eact. discriminate. }
    assert (Hr : node_status inst <> RUNNING).
    { intros H. rewrite H in Eact. rewrite orb_true_r in Eact.
      discriminate. }
    rewrite (tick_current_child_inactive s0 ec inst Hec Hinst Hi Hr).
    cbn [bind].
    rewrite (dispatch_current_child_silent methods s0 ec inst Hec Hinst).
    2:{ exact Hsilent. }
    cbn [bind]. unfold proceed.
    assert (Hrun0 : get_status (base s0) = RUNNING) by exact Hb.
    rewrite Hrun0. change (bool_decide (RUNNING = RUNNING)) with true.
    cbv iota. rewrite (lookup_current_child s0 _ Hec). cbn [bind].
    rewrite Hinst. unfold get_status.
    destruct (node_status inst) eqn:Est;
      try discriminate Hfin; try congruence;
      (change (bool_decide (_ = FAILURE)) with false;
       change (bool_decide (_ = ABORTED)) with false;
       change (bool_decide (_ = SUCCESS)) with false;
       change (bool_decide (_ = FIXED)) with false;
       cbn [orb]; cbv iota;
       cbn [bind]; unfold finish, get_status;
       change (node_status (base s0)) with (node_status b); rewrite Hb;
       reflexivity).
Qed.

(** X14: a tick on a sequence whose current child is live and, ticked if it
    is IDLE or RUNNING, is in a status that is not final and that no
    registration lists: the sequence is RUNNING afterwards, on the same
    child; a child that is IDLE or RUNNING is ticked once, any other
    (a SUSPENDED one) is not ticked and nothing but the status of the
    sequence changes. *)
Theorem tick_on_unfinished_child
    (methods : string -> option (ControlNode -> result ControlNode))
    (s : ControlNode) (ec : ExecutionContext) (inst : TreeNode) :
  _child_ec_list s !! _child_ptr s = Some ec ->
  instance ec = Some inst ->
  is_final (node_status (ticked (node ec) inst)) = false ->
  Forall (fun h => silent_on (node_status (ticked (node ec) inst)) h = true)
         (_contingency_handler_list s) ->
  _internal_on_tick methods s
  = Ok (if is_active inst
        then update_current_child
               (with_instance (Some (cls_on_tick (node ec) inst)) ec)
               (emit (EvTick (cls_name (node ec))) (start s))
        else start s) /\
  (forall s', _internal_on_tick methods s = Ok s' ->
              node_status (base s') = RUNNING
              /\ _child_ptr s' = _child_ptr s
              /\ _child_ec_list s' !! _child_ptr s
                 = Some (with_instance (Some (ticked (node ec) inst)) ec)).
Proof.
  intros Hec Hinst Hfin Hsilent.
  destruct (start_running s) as (b & Hstart & Hb & _ & _).
  pose proof (lookup_lt_Some _ _ _ Hec) as Hlt.
  pose proof (internal_on_tick_unfinished methods s ec inst Hec Hinst Hfin
                Hsilent) as E.
  split; [exact E|].
  intros s' Hs'. rewrite E in Hs'. injection Hs' as <-.
  rewrite Hstart. unfold ticked.
  destruct (is_active inst).
  - unfold update_current_child, emit, with_children.
    cbn [base _child_ptr _child_ec_list].
    split; [exact Hb|]. split; [reflexivity|].
    apply list_lookup_insert_eq, Hlt.
  - cbn [base _child_ptr _child_ec_list].
    split; [exact Hb|]. split; [reflexivity|].
    rewrite Hec. f_equal. destruct ec as [c ci co i]. cbn in Hinst |- *.
    unfold with_instance. cbn. rewrite Hinst. reflexivity.
Qed.

(** X14 on a sequence whose child is suspended: the tick changes
    nothing. *)
Lemma tick_on_unfinished_child_witness :
  _internal_on_tick bob_methods sequence_with_suspended_child
  = Ok sequence_with_suspended_child.
Proof.
  refine (proj1 (tick_on_unfinished_child
                   bob_methods sequence_with_suspended_child
                   (mkExecutionContext HelloWorldAction [] []
                      (Some (set_status SUSPENDED
                               (instantiate HelloWorldAction))))
                   (set_status SUSPENDED (instantiate HelloWorldAction))
                   eq_refl eq_refl _ _)).
  - reflexivity.
  - constructor.
Defined.

(** ** SequenceNode: the cursor *)

Lemma cursor_inv_fields (s s' : ControlNode) :
  _child_ec_list s' = _child_ec_list s -> _child_ptr s' = _child_ptr s ->
  cursor_inv s -> cursor_inv s'.
Proof. unfold cursor_inv. intros -> ->. auto. Qed.

Lemma cursor_inv_update (s : ControlNode) (ec : ExecutionContext) :
  cursor_inv s -> cursor_inv (update_current_child ec s).
Proof.
  unfold cursor_inv, update_current_child, with_children.
  cbn [_child_ec_list _child_ptr]. intros [Hp Hl]. split.
  - rewrite length_insert. destruct Hp as [Hp | [Hnil Hz]]; [left; exact Hp|].
    right. rewrite Hnil. split; [reflexivity | exact Hz].
  - intros i e Hi Hne. rewrite list_lookup_insert_ne in Hi by congruence.
    eapply Hl; eauto.
Qed.

Lemma bind_in_params_cursor (self self' : ControlNode)
    (ec ec' : ExecutionContext) :
  _bind_in_params self ec = Ok (self', ec') ->
  _child_ec_list self' = _child_ec_list self
  /\ _child_ptr self' = _child_ptr self.
Proof.
  unfold _bind_in_params. destruct (instance ec) as [inst|];
    cbn [from_option bind]; [|discriminate].
  match goal with
  | |- context [bind_in_loop ?a ?b ?c ?d] => destruct (bind_in_loop a b c d)
  end; cbn [bind]; [|discriminate].
  intros H. injection H as <- _.
  destruct (bool_decide _); split; reflexivity.
Qed.

Lemma create_current_child_cursor (s s' : ControlNode) :
  cursor_inv s -> create_current_child s = Ok s' -> cursor_inv s'.
Proof.
  intros Hinv. unfold create_current_child.
  destruct (current_child s) as [ec|]; cbn [bind]; [|discriminate].
  destruct (instance ec); [intros H; injection H as <-; exact Hinv|].
  match goal with
  | |- context [_bind_in_params ?a ?b] =>
      destruct (_bind_in_params a b) as [[s1 ec1]|] eqn:E
  end; cbn [bind]; [|discriminate].
  apply bind_in_params_cursor in E as [El Ep].
  destruct (instance ec1); cbn [from_option bind]; [|discriminate].
  intros H. injection H as <-. apply cursor_inv_update.
  apply (cursor_inv_fields s); [exact El | exact Ep | exact Hinv].
Qed.

Lemma tick_current_child_cursor (s s' : ControlNode) :
  cursor_inv s -> tick_current_child s = Ok s' -> cursor_inv s'.
Proof.
  intros Hinv. unfold tick_current_child, _tick_child.
  destruct (current_child s) as [ec|]; cbn [bind]; [|discriminate].
  destruct (instance ec); cbn [from_option bind]; [|discriminate].
  destruct (bool_decide _ || bool_decide _); cbn [bind];
    intros H; injection H as <-; apply cursor_inv_update; exact Hinv.
Qed.

Lemma release_current_child_spec (s s' : ControlNode) :
  release_current_child s = Ok s' ->
  exists ec,
    _child_ec_list s !! _child_ptr s = Some ec /\
    _child_ptr s' = _child_ptr s /\
    _child_ec_list s'
    = <[_child_ptr s := with_instance None ec]> (_child_ec_list s).
Proof.
  unfold release_current_child, current_child.
  destruct (_child_ec_list s !! _child_ptr s) as [ec|] eqn:Hec;
    cbn [from_option bind]; [|discriminate].
  destruct (instance ec) eqn:Hi; intros H; injection H as <-; exists ec.
  - split; [reflexivity|]. split; reflexivity.
  - split; [reflexivity|]. split; [reflexivity|].
    rewrite (with_instance_None_id ec Hi), (list_insert_id _ _ _ Hec).
    reflexivity.
Qed.

Lemma release_current_child_cursor (s s' : ControlNode) :
  cursor_inv s -> release_current_child s = Ok s' -> cursor_inv s'.
Proof.
  intros Hinv H. apply release_current_child_spec in H as (ec & _ & Hp & Hl).
  apply (cursor_inv_fields (update_current_child (with_instance None ec) s));
    [exact Hl | exact Hp | apply cursor_inv_update, Hinv].
Qed.

Lemma bind_out_loop_cursor (cls : string) (co : list string)
    (inst : TreeNode) (outs : list string) :
  forall (i : nat) (self self' : ControlNode),
    bind_out_loop cls co inst i outs self = Ok self' ->
    _child_ec_list self' = _child_ec_list self
    /\ _child_ptr self' = _child_ptr self.
Proof.
  induction outs as [|o outs IH]; intros i self self'; cbn [bind_out_loop].
  - intros H. injection H as <-. split; reflexivity.
  - destruct (getattr (slot o) inst) as [v|]; cbn [bind]; [|discriminate].
    intros H. apply IH in H as [-> ->].
    destruct (bool_decide (v = VNone)); [split; reflexivity|].
    destruct (co !! i); split; reflexivity.
Qed.

Lemma bind_out_params_cursor (self self' : ControlNode)
    (ec : ExecutionContext) :
  cursor_inv self -> _bind_out_params self ec = Ok self' -> cursor_inv self'.
Proof.
  intros Hinv. unfold _bind_out_params.
  destruct (instance ec) as [inst|]; cbn [from_option bind]; [|discriminate].
  destruct (bind_out_loop _ _ _ _ _ _) as [s1|] eqn:E; cbn [bind];
    [|discriminate].
  apply bind_out_loop_cursor in E as [El Ep].
  intros H. injection H as <-.
  apply (cursor_inv_fields self); [exact El | exact Ep | exact Hinv].
Qed.

Lemma advance_cursor (s s' : ControlNode) :
  cursor_inv s -> advance s = Ok s' -> cursor_inv s'.
Proof.
  intros Hinv. unfold advance.
  destruct (release_current_child s) as [s1|] eqn:E; cbn [bind];
    [|discriminate].
  pose proof (release_current_child_cursor s s1 Hinv E) as Hinv1.
  apply release_current_child_spec in E as (ec & Hec & Hp & Hl).
  destruct (bool_decide (_child_ptr s1 + 1 < length (_child_ec_list s1))%nat)
    eqn:Eb.
  - intros H. injection H as <-. apply bool_decide_eq_true in Eb.
    unfold cursor_inv, with_ptr. cbn [_child_ec_list _child_ptr].
    split; [left; exact Eb|].
    intros i e Hi Hne. rewrite Hl in Hi.
    destruct (decide (i = _child_ptr s)) as [->|Hn].
    + rewrite list_lookup_insert_eq in Hi by (eapply lookup_lt_Some, Hec).
      injection Hi as <-. reflexivity.
    + rewrite list_lookup_insert_ne in Hi by congruence.
      eapply (proj2 Hinv); eauto.
  - destruct (_contingency_message _); cbn [from_option bind];
      [|discriminate].
    intros H. injection H as <-. exact Hinv1.
Qed.

Lemma proceed_cursor (s s' : ControlNode) :
  cursor_inv s -> proceed s = Ok s' -> cursor_inv s'.
Proof.
  intros Hinv. unfold proceed.
  destruct (bool_decide (get_status (base s) = RUNNING));
    [|intros H; injection H as <-; exact Hinv].
  destruct (current_child s) as [ec|]; cbn [bind]; [|discriminate].
  destruct (instance ec) as [inst|];
    [|intros H; injection H as <-; exact Hinv].
  cbv zeta.
  set (sA := if bool_decide (get_status inst = FAILURE)
                || bool_decide (get_status inst = ABORTED)
             then with_base
                    (set_contingency_message (get_contingency_message inst)
                       (set_status (get_status inst) (base s))) s
             else s).
  assert (HA : cursor_inv sA).
  { subst sA. destruct (_ || _); exact Hinv. }
  destruct (bool_decide (get_status inst = SUCCESS)
            || bool_decide (get_status inst = FIXED));
    [|intros H; injection H as <-; exact HA].
  destruct (bool_decide (get_status inst ≠ FIXED)).
  - destruct (_bind_out_params _ ec) as [sB|] eqn:E; cbn [bind];
      [|discriminate].
    apply bind_out_params_cursor in E; [|exact HA].
    apply advance_cursor, E.
  - cbn [bind]. apply advance_cursor. exact HA.
Qed.

Lemma finish_cursor (s s' : ControlNode) :
  cursor_inv s -> finish s = Ok s' -> cursor_inv s'.
Proof.
  intros Hinv. unfold finish. destruct (is_final _).
  - apply release_current_child_cursor, Hinv.
  - intros H. injection H as <-. exact Hinv.
Qed.

Lemma start_cursor (s : ControlNode) : cursor_inv s -> cursor_inv (start s).
Proof. unfold start. destruct (bool_decide _); auto. Qed.

Lemma append_child_cursor (c : NodeClass) (ci : list value)
    (co : list string) (s : ControlNode) :
  cursor_inv s -> cursor_inv (append_child c ci co s).
Proof.
  unfold cursor_inv, append_child, with_children.
  cbn [_child_ec_list _child_ptr]. intros [Hp Hl]. split.
  - left. rewrite length_app. cbn [length].
    destruct Hp as [Hp | [_ ->]]; lia.
  - intros i e Hi Hne. apply lookup_app_Some in Hi as [Hi | [_ Hi]].
    + eapply Hl; eauto.
    + apply list_lookup_singleton_Some in Hi as [_ <-]. reflexivity.
Qed.

Lemma lookup_insert_at {A : Type} (k : nat) (x : A) (l : list A) (i : nat)
    (e : A) :
  (k <= length l)%nat ->
  insert_at k x l !! i = Some e ->
  ((i < k)%nat /\ l !! i = Some e)
  \/ (i = k /\ e = x)
  \/ ((k < i)%nat /\ l !! (i - 1)%nat = Some e).
Proof.
  intros Hk. unfold insert_at. intros H.
  apply lookup_app_Some in H as [H | [Hge H]].
  - apply lookup_take_Some in H as [H Hlt]. left. auto.
  - rewrite length_take, Nat.min_l in Hge, H by exact Hk.
    destruct (i - k)%nat as [|j] eqn:Ej.
    + right. left. change (Some x = Some e) in H. injection H as <-.
      split; [lia | reflexivity].
    + right. right. change (drop k l !! j = Some e) in H.
      rewrite lookup_drop in H.
      split; [lia|]. rewrite <- H. f_equal. lia.
Qed.

Lemma insert_child_after_current_cursor (c : NodeClass) (ci : list value)
    (co : list string) (s : ControlNode) :
  cursor_inv s ->
  exists s',
    insert_child_after_current c ci co s = Ok s' /\ cursor_inv s'.
Proof.
  intros [Hp Hl]. unfold insert_child_after_current.
  destruct (bool_decide (length (_child_ec_list s) ≠ 0%nat)) eqn:Ene.
  - apply bool_decide_eq_true in Ene.
    destruct Hp as [Hp | [Hnil _]]; [|rewrite Hnil in Ene; contradiction].
    destruct (lookup_lt_is_Some_2 _ _ Hp) as [cur Hcur].
    rewrite (lookup_current_child s cur Hcur). cbn [bind].
    destruct (bool_decide (instance cur = None)
              && bool_decide (_child_ptr s = 0%nat)) eqn:Efront.
    + apply andb_true_iff in Efront as [Hn Hz].
      apply bool_decide_eq_true in Hn, Hz.
      eexists. split; [reflexivity|].
      unfold cursor_inv, with_children. cbn [_child_ec_list _child_ptr].
      split.
      * left. rewrite Hz. unfold insert_at. rewrite take_0, drop_0.
        cbn [app length]. lia.
      * intros i e Hi Hne.
        apply lookup_insert_at in Hi as [[Hlt _] | [[-> ->] | [Hgt Hi]]];
          [lia | reflexivity | | lia].
        destruct (decide ((i - 1)%nat = _child_ptr s)) as [Heq | Hd].
        -- rewrite Heq, Hcur in Hi. injection Hi as <-. exact Hn.
        -- eapply Hl; eauto.
    + eexists. split; [reflexivity|].
      unfold cursor_inv, with_children. cbn [_child_ec_list _child_ptr].
      split.
      * left. unfold insert_at. rewrite length_app, length_take. cbn [length].
        rewrite length_drop. lia.
      * intros i e Hi Hne.
        apply lookup_insert_at in Hi as [[Hlt Hi] | [[-> ->] | [Hgt Hi]]];
          [ | reflexivity | | lia].
        -- eapply Hl; eauto.
        -- eapply Hl; eauto. lia.
  - apply bool_decide_eq_false in Ene.
    assert (Hnil : _child_ec_list s = []).
    { destruct (_child_ec_list s); [reflexivity|].
      exfalso. apply Ene. cbn. lia. }
    eexists. split; [reflexivity|].
    unfold cursor_inv, with_children. cbn [_child_ec_list _child_ptr].
    rewrite Hnil in *. destruct Hp as [Hp | [_ Hz]]; [cbn in Hp; lia|].
    rewrite Hz. split.
    + left. cbn. lia.
    + intros i e Hi Hne. destruct i as [|i]; [contradiction|].
      cbn in Hi. discriminate.
Qed.

Lemma remove_all_children_cursor (s s' : ControlNode) :
  remove_all_children s = Ok s' -> cursor_inv s'.
Proof.
  unfold remove_all_children.
  destruct (current_child s) as [ec|]; cbn [bind]; [|discriminate].
  destruct (instance ec); cbn [from_option bind]; [|discriminate].
  intros H. injection H as <-. split.
  - right. split; reflexivity.
  - intros i e Hi. discriminate.
Qed.

Lemma fix_current_child_cursor (s s' : ControlNode) :
  cursor_inv s -> fix_current_child s = Ok s' -> cursor_inv s'.
Proof.
  intros Hinv. unfold fix_current_child.
  destruct (current_child s) as [ec|]; cbn [bind]; [|discriminate].
  destruct (instance ec); cbn [from_option bind]; [|discriminate].
  intros H. injection H as <-. apply cursor_inv_update, Hinv.
Qed.

(** *** The names in a sequence *)

Lemma same_descriptors_refl (s : ControlNode) : same_descriptors s s.
Proof. split; reflexivity. Qed.

Lemma same_descriptors_trans (s1 s2 s3 : ControlNode) :
  same_descriptors s1 s2 -> same_descriptors s2 s3 -> same_descriptors s1 s3.
Proof. intros [H1 H2] [H3 H4]. split; congruence. Qed.

Lemma same_descriptors_update (s s0 : ControlNode)
    (ec0 ec' : ExecutionContext) :
  _child_ec_list s0 = _child_ec_list s ->
  _child_ptr s0 = _child_ptr s ->
  _contingency_handler_list s0 = _contingency_handler_list s ->
  _child_ec_list s !! _child_ptr s = Some ec0 ->
  with_instance None ec' = with_instance None ec0 ->
  same_descriptors s (update_current_child ec' s0).
Proof.
  intros Hl Hp Hh Hec Heq. unfold same_descriptors, update_current_child,
    with_children. cbn [_child_ec_list _contingency_handler_list].
  split; [exact Hh|]. rewrite Hl, Hp.
  change (map (with_instance None)
              (<[_child_ptr s := ec']> (_child_ec_list s)))
    with (with_instance None <$> <[_child_ptr s := ec']> (_child_ec_list s)).
  rewrite list_fmap_insert, Heq. apply list_insert_id.
  rewrite list_lookup_fmap, Hec. reflexivity.
Qed.

Lemma well_named_same (s s' : ControlNode) :
  same_descriptors s s' -> well_named s -> well_named s'.
Proof.
  intros [Hh Hl] [Hc Hr]. split; [|rewrite Hh; exact Hr].
  assert (E : forall l,
             Forall (fun ec => plain_descriptor ec = true) l
             <-> Forall (fun ec => plain_descriptor ec = true)
                        (map (with_instance None) l)).
  { intros l. change (map (with_instance None) l)
      with (with_instance None <$> l). rewrite Forall_fmap. reflexivity. }
  apply (proj2 (E _)). rewrite Hl. apply (proj1 (E _)). exact Hc.
Qed.

Lemma create_current_child_same (s s' : ControlNode) :
  create_current_child s = Ok s' -> same_descriptors s s'.
Proof.
  unfold create_current_child, current_child.
  destruct (_child_ec_list s !! _child_ptr s) as [ec|] eqn:Hec;
    cbn [from_option bind]; [|discriminate].
  destruct (instance ec);
    [intros H; injection H as <-; split; reflexivity|].
  unfold _bind_in_params. cbn [instance with_instance from_option bind].
  match goal with
  | |- context [bind_in_loop ?a ?b ?c ?d] => destruct (bind_in_loop a b c d)
  end; cbn [bind]; [|discriminate].
  cbn [instance with_instance from_option bind].
  intros H. injection H as <-.
  apply (same_descriptors_update s _ ec); auto;
    destruct (bool_decide _); reflexivity.
Qed.

Lemma tick_current_child_same (s s' : ControlNode) :
  tick_current_child s = Ok s' -> same_descriptors s s'.
Proof.
  unfold tick_current_child, _tick_child, current_child.
  destruct (_child_ec_list s !! _child_ptr s) as [ec|] eqn:Hec;
    cbn [from_option bind]; [|discriminate].
  destruct (instance ec) eqn:Hi; cbn [from_option bind]; [|discriminate].
  destruct (bool_decide _ || bool_decide _); cbn [bind];
    intros H; injection H as <-;
    apply (same_descriptors_update s _ ec); auto.
Qed.

Lemma release_current_child_same (s s' : ControlNode) :
  release_current_child s = Ok s' -> same_descriptors s s'.
Proof.
  unfold release_current_child, current_child.
  destruct (_child_ec_list s !! _child_ptr s) as [ec|] eqn:Hec;
    cbn [from_option bind]; [|discriminate].
  destruct (instance ec); intros H; injection H as <-;
    [|split; reflexivity].
  apply (same_descriptors_update s _ ec); auto.
Qed.

Lemma bind_out_loop_fields (cls : string) (co : list string)
    (inst : TreeNode) (outs : list string) :
  forall (i : nat) (self self' : ControlNode),
    bind_out_loop cls co inst i outs self = Ok self' ->
    _child_ec_list self' = _child_ec_list self
    /\ _contingency_handler_list self' = _contingency_handler_list self.
Proof.
  induction outs as [|o outs IH]; intros i self self'; cbn [bind_out_loop].
  - intros H. injection H as <-. split; reflexivity.
  - destruct (getattr (slot o) inst) as [v|]; cbn [bind]; [|discriminate].
    intros H. apply IH in H as [-> ->].
    destruct (bool_decide (v = VNone)); [split; reflexivity|].
    destruct (co !! i); split; reflexivity.
Qed.

Lemma bind_out_params_same (self self' : ControlNode)
    (ec : ExecutionContext) :
  _bind_out_params self ec = Ok self' -> same_descriptors self self'.
Proof.
  unfold _bind_out_params.
  destruct (instance ec) as [inst|]; cbn [from_option bind]; [|discriminate].
  destruct (bind_out_loop _ _ _ _ _ _) as [s1|] eqn:E; cbn [bind];
    [|discriminate].
  apply bind_out_loop_fields in E as [El Eh].
  intros H. injection H as <-. split; cbn [emit _child_ec_list
    _contingency_handler_list]; congruence.
Qed.

Lemma advance_same (s s' : ControlNode) :
  advance s = Ok s' -> same_descriptors s s'.
Proof.
  unfold advance.
  destruct (release_current_child s) as [s1|] eqn:E; cbn [bind];
    [|discriminate].
  apply release_current_child_same in E.
  destruct E as [E1 E2]. destruct (bool_decide _).
  - intros H. injection H as <-. split; [exact E1 | exact E2].
  - cbv zeta. destruct (_contingency_message _); cbn [from_option bind];
      [|discriminate].
    intros H. injection H as <-. split; [exact E1 | exact E2].
Qed.

Lemma proceed_same (s s' : ControlNode) :
  proceed s = Ok s' -> same_descriptors s s'.
Proof.
  unfold proceed.
  destruct (bool_decide (get_status (base s) = RUNNING));
    [|intros H; injection H as <-; split; reflexivity].
  destruct (current_child s) as [ec|]; cbn [bind]; [|discriminate].
  destruct (instance ec) as [inst|];
    [|intros H; injection H as <-; split; reflexivity].
  cbv zeta.
  set (sA := if bool_decide (get_status inst = FAILURE)
                || bool_decide (get_status inst = ABORTED)
             then with_base
                    (set_contingency_message (get_contingency_message inst)
                       (set_status (get_status inst) (base s))) s
             else s).
  assert (HA : same_descriptors s sA).
  { subst sA. destruct (_ || _); split; reflexivity. }
  destruct (bool_decide (get_status inst = SUCCESS)
            || bool_decide (get_status inst = FIXED));
    [|intros H; injection H as <-; exact HA].
  destruct (bool_decide (get_status inst ≠ FIXED)).
  - destruct (_bind_out_params _ ec) as [sB|] eqn:E; cbn [bind];
      [|discriminate].
    apply bind_out_params_same in E. intros H. apply advance_same in H.
    destruct HA as [A1 A2], E as [E1 E2], H as [H1 H2].
    split; [rewrite H1, E1; exact A1 | rewrite H2, E2; exact A2].
  - cbn [bind]. intros H. apply advance_same in H.
    destruct HA as [A1 A2], H as [H1 H2].
    split; [rewrite H1; exact A1 | rewrite H2; exact A2].
Qed.

Lemma finish_same (s s' : ControlNode) :
  finish s = Ok s' -> same_descriptors s s'.
Proof.
  unfold finish. destruct (is_final _).
  - apply release_current_child_same.
  - intros H. injection H as <-. split; reflexivity.
Qed.

Lemma start_same (s : ControlNode) : same_descriptors s (start s).
Proof. unfold start. destruct (bool_decide _); split; reflexivity. Qed.

Section CursorInvariant.
Variable methods : string -> option (ControlNode -> result ControlNode).
Hypothesis methods_keep_cursor :
  forall name f s s',
    methods name = Some f -> cursor_inv s -> well_named s -> f s = Ok s' ->
    cursor_inv s' /\ well_named s'.

Lemma apply_contingencies_loop_cursor (hs : list ContingencyHandler)
    (inst : TreeNode) (s s' : ControlNode) :
  cursor_inv s -> well_named s ->
  apply_contingencies_loop methods hs inst s = Ok s' ->
  cursor_inv s' /\ well_named s'.
Proof.
  intros Hinv Hwn. induction hs as [|h hs IH]; cbn [apply_contingencies_loop].
  - intros H. injection H as <-. auto.
  - destruct (handler_matches h inst) as [[|]|]; cbn [bind];
      [ | exact IH | discriminate].
    unfold exec_method.
    destruct (methods (ch_function h)) as [f|] eqn:Em;
      cbn [from_option bind]; [|discriminate].
    intros H. eapply methods_keep_cursor; [exact Em | | | exact H].
    + exact Hinv.
    + exact Hwn.
Qed.

Lemma internal_on_tick_cursor (s s' : ControlNode) :
  cursor_inv s -> well_named s ->
  _internal_on_tick methods s = Ok s' ->
  cursor_inv s' /\ well_named s'.
Proof.
  intros Hinv Hwn. apply start_cursor in Hinv.
  apply (well_named_same _ _ (start_same s)) in Hwn.
  unfold _internal_on_tick.
  destruct (bool_decide (length (_child_ec_list (start s)) = 0%nat));
    [intros H; injection H as <-; auto|].
  unfold observe_current_child.
  destruct (create_current_child (start s)) as [s1|] eqn:E1; cbn [bind];
    [|discriminate].
  pose proof (create_current_child_same _ _ E1) as D1.
  apply create_current_child_cursor in E1; [|exact Hinv].
  apply (well_named_same _ _ D1) in Hwn.
  destruct (tick_current_child s1) as [s2|] eqn:E2; cbn [bind];
    [|discriminate].
  pose proof (tick_current_child_same _ _ E2) as D2.
  apply tick_current_child_cursor in E2; [|exact E1].
  apply (well_named_same _ _ D2) in Hwn.
  destruct (dispatch_current_child methods s2) as [s3|] eqn:E3; cbn [bind];
    [|discriminate].
  assert (H3 : cursor_inv s3 /\ well_named s3).
  { revert E3. unfold dispatch_current_child, _apply_contingencies.
    destruct (current_child s2) as [ec|]; cbn [bind]; [|discriminate].
    destruct (instance ec); cbn [from_option bind]; [|discriminate].
    apply apply_contingencies_loop_cursor; assumption. }
  destruct H3 as [H3 W3].
  destruct (proceed s3) as [s4|] eqn:E4; cbn [bind]; [|discriminate].
  pose proof (proceed_same _ _ E4) as D4.
  apply proceed_cursor in E4; [|exact H3].
  apply (well_named_same _ _ D4) in W3.
  intros E5. split.
  - eapply finish_cursor; eauto.
  - eapply well_named_same; [eapply finish_same, E5 | exact W3].
Qed.

(** X15: in a sequence none of whose parameters is named like an attribute
    of the classes and whose registrations compile, at most one child is
    live, the one under the cursor, and the cursor stays inside the child
    list: when the handlers keep all of this, every series of ticks that
    returns keeps it. *)
Theorem ticks_keep_one_live_child (k : nat) (s s' : ControlNode) :
  cursor_inv s -> well_named s ->
  tick_times methods k s = Ok s' ->
  cursor_inv s' /\ well_named s'.
Proof.
  revert s. induction k as [|k IH]; intros s Hinv Hwn; cbn [tick_times].
  - intros H. injection H as <-. auto.
  - destruct (_internal_on_tick methods s) as [s1|] eqn:E; cbn [bind];
      [|discriminate].
    destruct (internal_on_tick_cursor s s1 Hinv Hwn E) as [H1 W1].
    apply IH; assumption.
Qed.
End CursorInvariant.

(** X16: the operations that edit the child list keep the cursor inside
    the list and only the child under it live: [append_child],
    [insert_child_after_current], which returns on every such sequence,
    [remove_all_children] and [fix_current_child]. *)
Theorem editing_keeps_one_live_child (c : NodeClass) (ci : list value)
    (co : list string) (s : ControlNode) :
  cursor_inv s ->
  cursor_inv (append_child c ci co s) /\
  (exists s', insert_child_after_current c ci co s = Ok s' /\ cursor_inv s') /\
  (forall s', remove_all_children s = Ok s' -> cursor_inv s') /\
  (forall s', fix_current_child s = Ok s' -> cursor_inv s') /\
  (forall s', replace_children c ci co s = Ok s' -> cursor_inv s').
Proof.
  intros Hinv. split; [apply append_child_cursor, Hinv|].
  split; [apply insert_child_after_current_cursor, Hinv|].
  split; [intros s'; apply remove_all_children_cursor|].
  split; [intros s'; apply fix_current_child_cursor, Hinv|].
  intros s'. unfold replace_children.
  destruct (remove_all_children s) as [s1|] eqn:E; cbn [bind];
    [|discriminate].
  intros H. injection H as <-.
  apply append_child_cursor. eapply remove_all_children_cursor, E.
Qed.

Lemma replace_children_cursor (c : NodeClass) (ci : list value)
    (co : list string) (s s' : ControlNode) :
  replace_children c ci co s = Ok s' -> cursor_inv s'.
Proof.
  unfold replace_children.
  destruct (remove_all_children s) as [s1|] eqn:E; cbn [bind];
    [|discriminate].
  intros H. injection H as <-.
  apply append_child_cursor. eapply remove_all_children_cursor, E.
Qed.

Lemma new_sequence_cursor (s : ControlNode) :
  _child_ptr s = 0%nat ->
  Forall (fun ec => instance ec = None) (_child_ec_list s) ->
  cursor_inv s.
Proof.
  intros Hz HF. split.
  - rewrite Hz. destruct (_child_ec_list s); [right; auto | left; cbn; lia].
  - intros i ec Hi _. rewrite Forall_forall in HF. apply HF.
    eapply list_elem_of_lookup_2, Hi.
Qed.

Lemma replace_children_named (c : NodeClass) (ci : list value)
    (co : list string) (s s' : ControlNode) :
  plain_descriptor (mkExecutionContext c ci co None) = true ->
  well_named s ->
  replace_children c ci co s = Ok s' -> well_named s'.
Proof.
  intros Hc [_ Hh]. unfold replace_children, remove_all_children.
  destruct (current_child s) as [ec|]; cbn [bind]; [|discriminate].
  destruct (instance ec); cbn [from_option bind]; [|discriminate].
  intros H. injection H as <-. split.
  - cbn. constructor; [exact Hc | constructor].
  - exact Hh.
Qed.

(** X15 on the sequence whose handler replaces the children: two ticks. *)
Lemma ticks_keep_one_live_child_witness :
  exists s',
    tick_times replacing_methods 2 sequence_with_replacing_handler = Ok s' /\
    cursor_inv s' /\ well_named s'.
Proof.
  eexists. split; [vm_compute; reflexivity|].
  apply (ticks_keep_one_live_child replacing_methods) with
    (k := 2%nat) (s := sequence_with_replacing_handler).
  - intros name f s s' Hf _ Hwn. unfold replacing_methods in Hf.
    destruct (String.eqb name "handle_bob"); [|discriminate].
    injection Hf as <-. intros H. split.
    + eapply replace_children_cursor, H.
    + apply (replace_children_named HelloWorldAction [] [] s s');
        [reflexivity | exact Hwn | exact H].
  - apply new_sequence_cursor; [reflexivity|].
    repeat constructor.
  - split; repeat constructor.
  - vm_compute. reflexivity.
Defined.

(** X16 on the sequence of three children before its first tick. *)
Lemma editing_keeps_one_live_child_witness :
  cursor_inv (append_child HelloWorldAction [] [] three_children_sequence).
Proof.
  refine (proj1 (editing_keeps_one_live_child HelloWorldAction [] []
                   three_children_sequence _)).
  apply new_sequence_cursor; [reflexivity|].
  unfold three_children_sequence, append_child, with_children, with_base.
  cbn [_child_ec_list app]. repeat constructor.
Defined.

(** ** SequenceNode: where a new child is inserted *)

Lemma lookup_insert_at_lt {A : Type} (k : nat) (x : A) (l : list A)
    (i : nat) :
  (i < k)%nat -> (k <= length l)%nat -> insert_at k x l !! i = l !! i.
Proof.
  intros Hi Hk. unfold insert_at.
  rewrite lookup_app_l by (rewrite length_take; lia).
  rewrite lookup_take. destruct (decide (i < k)%nat); [reflexivity | lia].
Qed.

Lemma insert_at_twice {A : Type} (k : nat) (x y : A) (l : list A) :
  (k <= length l)%nat ->
  insert_at k y (insert_at k x l) = take k l ++ y :: x :: drop k l.
Proof.
  intros Hk. unfold insert_at.
  rewrite take_app_length' by (rewrite length_take; lia).
  rewrite drop_app_length' by (rewrite length_take; lia).
  reflexivity.
Qed.

Lemma insert_after_live_child (c : NodeClass) (ci : list value)
    (co : list string) (s : ControlNode) (cur : ExecutionContext)
    (inst : TreeNode) :
  _child_ec_list s !! _child_ptr s = Some cur ->
  instance cur = Some inst ->
  insert_child_after_current c ci co s
  = Ok (with_children
          (insert_at (_child_ptr s + 1) (mkExecutionContext c ci co None)
                     (_child_ec_list s)) s).
Proof.
  intros Hcur Hinst. unfold insert_child_after_current.
  destruct (bool_decide (length (_child_ec_list s) ≠ 0%nat));
    [|reflexivity].
  rewrite (lookup_current_child s cur Hcur). cbn [bind].
  rewrite Hinst. reflexivity.
Qed.

(** X17: two children inserted while the current child is live come in
    reverse order: the one inserted last stands right after the current
    child, the one inserted first after it; the children up to the current
    one, the cursor and the children that followed are as before. *)
Theorem inserts_come_in_reverse_order
    (cA cB : NodeClass) (ciA ciB : list value) (coA coB : list string)
    (s : ControlNode) (cur : ExecutionContext) (inst : TreeNode) :
  _child_ec_list s !! _child_ptr s = Some cur ->
  instance cur = Some inst ->
  (let* s1 := insert_child_after_current cA ciA coA s in
   insert_child_after_current cB ciB coB s1)
  = Ok (with_children
          (take (_child_ptr s + 1) (_child_ec_list s)
           ++ mkExecutionContext cB ciB coB None
              :: mkExecutionContext cA ciA coA None
              :: drop (_child_ptr s + 1) (_child_ec_list s)) s).
Proof.
  intros Hcur Hinst. pose proof (lookup_lt_Some _ _ _ Hcur) as Hlt.
  rewrite (insert_after_live_child cA ciA coA s cur inst Hcur Hinst).
  cbn [bind].
  erewrite (insert_after_live_child cB ciB coB _ cur inst).
  - unfold with_children. cbn [_child_ec_list _child_ptr base
      _contingency_handler_list _contingency_message log trace].
    rewrite insert_at_twice by lia. reflexivity.
  - unfold with_children. cbn [_child_ec_list _child_ptr].
    rewrite lookup_insert_at_lt by lia. exact Hcur.
  - exact Hinst.
Qed.

(** X17 on the running sequence with one live child. *)
Lemma inserts_come_in_reverse_order_witness :
  exists s',
    (let* s1 := insert_child_after_current HelloWorldAction [] []
                  sequence_with_running_child in
     insert_child_after_current OneInputAction [VInt 1] [] s1) = Ok s' /\
    map (fun ec => cls_name (node ec)) (_child_ec_list s')
    = ["HelloWorldAction"; "OneInputAction"; "HelloWorldAction"].
Proof.
  eexists. split.
  - apply (inserts_come_in_reverse_order
             HelloWorldAction OneInputAction [] [VInt 1] [] []
             sequence_with_running_child
             (mkExecutionContext HelloWorldAction [] []
                (Some (set_status RUNNING (instantiate HelloWorldAction))))
             (set_status RUNNING (instantiate HelloWorldAction))
             eq_refl eq_refl).
  - reflexivity.
Defined.

(** X18: on a sequence whose cursor is at 0 and whose current child has no
    instance, [insert_child_after_current] puts the new child first, before
    the current one; after [remove_all_children], two inserts give the two
    children in reverse order, the cursor on the one inserted last. *)
Theorem insert_without_live_child_goes_first
    (cA cB : NodeClass) (ciA ciB : list value) (coA coB : list string)
    (s : ControlNode) :
  (forall cur,
     _child_ptr s = 0%nat ->
     _child_ec_list s !! 0%nat = Some cur ->
     instance cur = None ->
     insert_child_after_current cA ciA coA s
     = Ok (with_children
             (mkExecutionContext cA ciA coA None :: _child_ec_list s) s)) /\
  (forall s0,
     remove_all_children s = Ok s0 ->
     (let* s1 := insert_child_after_current cA ciA coA s0 in
      insert_child_after_current cB ciB coB s1)
     = Ok (with_children
             [mkExecutionContext cB ciB coB None;
              mkExecutionContext cA ciA coA None] s0)
     /\ _child_ptr s0 = 0%nat).
Proof.
  split.
  - intros cur Hz Hcur Hnone. unfold insert_child_after_current.
    assert (Hne : bool_decide (length (_child_ec_list s) ≠ 0%nat) = true).
    { apply bool_decide_eq_true. apply lookup_lt_Some in Hcur. lia. }
    rewrite Hne. unfold current_child. rewrite Hz, Hcur.
    cbn [from_option bind]. rewrite Hnone. reflexivity.
  - intros s0. unfold remove_all_children.
    destruct (current_child s) as [ec|]; cbn [bind]; [|discriminate].
    destruct (instance ec); cbn [from_option bind]; [|discriminate].
    intros H. injection H as <-. split; reflexivity.
Qed.

(** ** SequenceNode: handlers that edit the child list *)

Lemma set_status_class_name (st : NodeStatus) (n : TreeNode) :
  class_name (set_status st n) = class_name n.
Proof.
  unfold set_status, cancel_timeout_timer.
  destruct st; simpl; destruct (timeout_timer n); reflexivity.
Qed.

(** Lines 71-80 on a descriptor without instance whose class ends its
    first tick in a status and with a message for which a handler is
    dispatched. *)
Lemma observe_current_child_handled
    (methods : string -> option (ControlNode -> result ControlNode))
    (s : ControlNode) (ec : ExecutionContext)
    (st : NodeStatus) (m name : string) :
  _child_ec_list s !! _child_ptr s = Some ec ->
  call_ok (attrs (base s)) ec ->
  ends_first_tick_with st m (node ec) ->
  (forall inst,
     class_name inst = cls_name (node ec) -> node_status inst = st ->
     contingency_message inst = m ->
     dispatched_handler (_contingency_handler_list s) inst = Ok (Some name)) ->
  exists (inst : TreeNode) (l : list Warning),
    node_status inst = st /\ contingency_message inst = m /\
    observe_current_child methods s
    = exec_method methods name
        (mkControlNode
           (base s)
           (<[_child_ptr s := with_instance (Some inst) ec]>
              (_child_ec_list s))
           (_child_ptr s) (_contingency_handler_list s)
           (_contingency_message s) (log s ++ l)
           (trace s ++ [EvCreate (cls_name (node ec));
                        EvBindIn (cls_name (node ec));
                        EvOnInit (cls_name (node ec));
                        EvTick (cls_name (node ec))])).
Proof.
  intros Hec Hcall Hcls Hdisp.
  pose proof (lookup_lt_Some _ _ _ Hec) as Hlt.
  destruct Hcall as (Hnone & Hlen & Hargs & Houts).
  destruct (bind_in_loop_ok (base s) (call_in_params ec) 0
              (instantiate (node ec))) as (inst1 & Hrun & Hw & _).
  { unfold instantiate. rewrite set_status_in_params. simpl. exact Hlen. }
  { exact Hargs. }
  assert (Hname : class_name inst1 = cls_name (node ec)).
  { rewrite Hw. cbn [with_attrs class_name]. unfold instantiate.
    rewrite set_status_class_name. reflexivity. }
  assert (Hidle : node_status inst1 = IDLE).
  { rewrite Hw. reflexivity. }
  destruct (Hcls inst1 Hname Hidle) as (Hactive & Hn' & Hst' & Hm').
  set (inst := cls_on_tick (node ec) (cls_on_init (node ec) inst1)) in *.
  assert (Hcreate :
            exists l,
              create_current_child s
              = Ok (mkControlNode
                      (base s)
                      (<[_child_ptr s :=
                           with_instance (Some (cls_on_init (node ec) inst1))
                                         ec]>
                         (_child_ec_list s))
                      (_child_ptr s) (_contingency_handler_list s)
                      (_contingency_message s) (log s ++ l)
                      (trace s ++ [EvCreate (cls_name (node ec));
                                   EvBindIn (cls_name (node ec));
                                   EvOnInit (cls_name (node ec))]))).
  { unfold create_current_child. rewrite (lookup_current_child _ _ Hec).
    simpl. rewrite Hnone. unfold _bind_in_params. simpl.
    destruct (bool_decide
                (length (call_in_params ec)
                 ≠ length (cls_in_params (node ec)))) eqn:Earity.
    - exists [WarnArity (cls_name (node ec))
                        (length (cls_in_params (node ec)))
                        (length (call_in_params ec))].
      simpl. rewrite Hrun. simpl. unfold update_current_child, emit. simpl.
      rewrite <- !app_assoc. reflexivity.
    - exists []. simpl. rewrite Hrun. simpl.
      unfold update_current_child, emit. simpl.
      rewrite app_nil_r, <- !app_assoc. reflexivity. }
  destruct Hcreate as [l Hcreate].
  exists inst, l. split; [exact Hst'|]. split; [exact Hm'|].
  unfold observe_current_child. rewrite Hcreate. cbn [bind].
  erewrite tick_current_child_active.
  2:{ cbn [_child_ec_list _child_ptr]. apply list_lookup_insert_eq, Hlt. }
  2:{ reflexivity. }
  2:{ exact Hactive. }
  cbn [bind]. unfold dispatch_current_child, _apply_contingencies.
  unfold current_child, update_current_child, emit, with_children.
  cbn [_child_ec_list _child_ptr base _contingency_handler_list
       _contingency_message log trace node with_instance].
  rewrite list_insert_insert_eq.
  rewrite (list_lookup_insert_eq _ _ _ Hlt).
  cbn [from_option bind instance with_instance].
  rewrite apply_contingencies_loop_dispatched.
  cbn [_contingency_handler_list].
  fold inst. rewrite (Hdisp inst Hn' Hst' Hm'). cbn [bind].
  rewrite <- app_assoc. reflexivity.
Qed.



Lemma FailingAction_ends (m : string) :
  ends_first_tick_with FAILURE m (FailingAction m).
Proof.
  intros n Hn Hi. cbn [FailingAction cls_on_init cls_on_tick cls_name] in *.
  split; [left; exact Hi|].
  unfold set_contingency_message. cbn [with_message class_name
    node_status contingency_message].
  rewrite set_status_class_name, set_status_status. auto.
Qed.

Lemma replacing_handler_dispatched (inst : TreeNode) :
  class_name inst = "FailingAction" ->
  node_status inst = FAILURE ->
  contingency_message inst = "BOB_IS_NOT_ALLOWED" ->
  dispatched_handler
    (_contingency_handler_list sequence_with_replacing_handler) inst
  = Ok (Some "handle_bob").
Proof.
  intros Hn Hst Hmsg.
  change (_contingency_handler_list sequence_with_replacing_handler)
    with [mkContingencyHandler (ByName "Failing*") [FAILURE] "BOB*"
                               "handle_bob"].
  cbn [dispatched_handler].
  unfold handler_matches, get_status, get_contingency_message.
  rewrite Hn, Hst, Hmsg. vm_compute. reflexivity.
Qed.



(** ** SequenceNode: series of ticks *)

Lemma is_active_not_final (n : TreeNode) :
  is_active n = true -> is_final (node_status n) = false.
Proof.
  unfold is_active.
  destruct (node_status n); intros H; try reflexivity;
    vm_compute in H; discriminate H.
Qed.

(** X21: a child that stays IDLE or RUNNING is ticked once in every tick
    of the sequence: as long as no registration lists its status, after j
    ticks it has been ticked j times, the sequence is RUNNING on it and
    has made no other call. *)
Theorem running_child_is_ticked_every_tick
    (methods : string -> option (ControlNode -> result ControlNode))
    (j : nat) :
  forall (s : ControlNode) (ec : ExecutionContext) (inst : TreeNode),
    _child_ec_list s !! _child_ptr s = Some ec ->
    instance ec = Some inst ->
    (forall i, (i <= j)%nat ->
       is_active (Nat.iter i (cls_on_tick (node ec)) inst) = true) ->
    (forall i, (i <= j)%nat ->
       Forall (fun h =>
                 silent_on
                   (node_status (Nat.iter i (cls_on_tick (node ec)) inst)) h
                 = true)
              (_contingency_handler_list s)) ->
    exists s',
      tick_times methods j s = Ok s' /\
      _child_ptr s' = _child_ptr s /\
      _child_ec_list s'
      = <[_child_ptr s :=
            with_instance
              (Some (Nat.iter j (cls_on_tick (node ec)) inst)) ec]>
          (_child_ec_list s) /\
      _contingency_handler_list s' = _contingency_handler_list s /\
      trace s' = trace s ++ repeat (EvTick (cls_name (node ec))) j /\
      ((0 < j)%nat -> node_status (base s') = RUNNING).
Proof.
  induction j as [|j IH]; intros s ec inst Hec Hinst Hact Hsil.
  - exists s. split; [reflexivity|]. split; [reflexivity|].
    split.
    { cbn [Nat.iter]. symmetry. apply list_insert_id. rewrite Hec. f_equal.
      destruct ec as [c ci co i]. cbn in Hinst. unfold with_instance. cbn.
      rewrite Hinst. reflexivity. }
    split; [reflexivity|]. split; [cbn; rewrite app_nil_r; reflexivity|].
    intros H. lia.
  - pose proof (lookup_lt_Some _ _ _ Hec) as Hlt.
    destruct (start_running s) as (b & Hstart & Hb & _ & _).
    assert (Ha0 : is_active inst = true) by (apply (Hact 0%nat); lia).
    assert (Ha1 : is_active (cls_on_tick (node ec) inst) = true)
      by (apply (Hact 1%nat); lia).
    cbn [tick_times].
    rewrite (internal_on_tick_unfinished methods s ec inst Hec Hinst).
    2:{ unfold ticked. rewrite Ha0. apply is_active_not_final, Ha1. }
    2:{ unfold ticked. rewrite Ha0. apply (Hsil 1%nat). lia. }
    rewrite Ha0. cbn [bind]. rewrite Hstart.
    set (s1 := update_current_child _ _).
    destruct (IH s1 (with_instance (Some (cls_on_tick (node ec) inst)) ec)
                (cls_on_tick (node ec) inst))
      as (s' & Hrun & Hp & Hl & Hh & Ht & Hst).
    { subst s1. unfold update_current_child, emit, with_children.
      cbn [_child_ec_list _child_ptr].
      apply list_lookup_insert_eq, Hlt. }
    { reflexivity. }
    { intros i Hi. cbn [node with_instance].
      rewrite <- Nat.iter_succ_r. apply Hact. lia. }
    { intros i Hi. cbn [node with_instance].
      rewrite <- Nat.iter_succ_r. apply (Hsil (S i)). lia. }
    exists s'. split; [exact Hrun|].
    subst s1. unfold update_current_child, emit, with_children in *.
    cbn [_child_ec_list _child_ptr _contingency_handler_list trace base
         node with_instance] in *.
    split; [exact Hp|]. split.
    { rewrite Hl, list_insert_insert_eq. rewrite <- Nat.iter_succ_r.
      reflexivity. }
    split; [exact Hh|]. split.
    { rewrite Ht, <- app_assoc. reflexivity. }
    intros _. destruct j as [|j'].
    + cbn [tick_times] in Hrun. injection Hrun as <-. exact Hb.
    + apply Hst. lia.
Qed.

(** X21 on the sequence whose only child is running and keeps running:
    three ticks. *)
Lemma running_child_is_ticked_every_tick_witness :
  exists s',
    tick_times bob_methods 3
      (with_children
         [mkExecutionContext
            (mkNodeClass "LongRunningAction" [] [] (fun n => n)
                         (set_status RUNNING) (set_status ABORTED))
            [] [] (Some (instantiate HelloWorldAction))]
         sequence_with_running_child)
    = Ok s' /\
    trace s' = [EvTick "LongRunningAction"; EvTick "LongRunningAction";
                EvTick "LongRunningAction"].
Proof.
  destruct (running_child_is_ticked_every_tick bob_methods 3
              (with_children
                 [mkExecutionContext
                    (mkNodeClass "LongRunningAction" [] [] (fun n => n)
                                 (set_status RUNNING) (set_status ABORTED))
                    [] [] (Some (instantiate HelloWorldAction))]
                 sequence_with_running_child)
              (mkExecutionContext
                 (mkNodeClass "LongRunningAction" [] [] (fun n => n)
                              (set_status RUNNING) (set_status ABORTED))
                 [] [] (Some (instantiate HelloWorldAction)))
              (instantiate HelloWorldAction) eq_refl eq_refl)
    as (s' & Hrun & _ & _ & _ & Ht & _).
  - intros i Hi.
    destruct i as [|[|[|[|i]]]]; [reflexivity..|lia].
  - intros i Hi. constructor.
  - exists s'. split; [exact Hrun | exact Ht].
Defined.

(** X22: a sequence without children never finishes: after any number of
    ticks, at least one, it is RUNNING and nothing else has changed. *)
Theorem empty_sequence_never_finishes
    (methods : string -> option (ControlNode -> result ControlNode))
    (k : nat) (s : ControlNode) :
  _child_ec_list s = [] ->
  tick_times methods (S k) s = Ok (start s)
  /\ node_status (base (start s)) = RUNNING.
Proof.
  intros Hnil.
  assert (Htick : forall s0, _child_ec_list s0 = [] ->
                             _internal_on_tick methods s0 = Ok (start s0)).
  { intros s0 H0. unfold _internal_on_tick.
    destruct (start_running s0) as (b & Hs & _). rewrite Hs.
    cbn [_child_ec_list]. rewrite H0. reflexivity. }
  assert (Hrun : forall s0, node_status (base (start s0)) = RUNNING).
  { intros s0. destruct (start_running s0) as (b & Hs & Hb & _).
    rewrite Hs. exact Hb. }
  assert (Hidem : forall s0, start (start s0) = start s0).
  { intros s0. unfold start at 1. unfold get_status. rewrite Hrun.
    reflexivity. }
  assert (Hl : forall s0, _child_ec_list s0 = [] ->
                          _child_ec_list (start s0) = []).
  { intros s0 H0. destruct (start_running s0) as (b & Hs & _).
    rewrite Hs. exact H0. }
  split; [|apply Hrun].
  revert s Hnil. induction k as [|k IH]; intros s Hnil.
  - cbn [tick_times]. rewrite (Htick s Hnil). reflexivity.
  - change (tick_times methods (S (S k)) s)
      with (let* s1 := _internal_on_tick methods s in
            tick_times methods (S k) s1).
    rewrite (Htick s Hnil). cbn [bind].
    rewrite (IH (start s) (Hl s Hnil)). rewrite Hidem. reflexivity.
Qed.

(** X22 on a new sequence without children. *)
Lemma empty_sequence_never_finishes_witness :
  node_status
    (base (start (SequenceNode__init__ "EmptySequence" [] [])))
  = RUNNING.
Proof.
  apply (empty_sequence_never_finishes
           bob_methods 4 (SequenceNode__init__ "EmptySequence" [] [])
           eq_refl).
Defined.

(** ** SequenceNode: abort between two children *)


